(** * Foxtrot Serialize (FXSD): a shallow embedding of FxSerialize.hpp and
    FxSerialize.cpp, and the properties of the archive format checked on it.

    Conventions of the embedding.
    - A [uintN] is a [Z] kept in range by an explicit wrap-around
      ([uint8], [uint16], [uint32]); a conversion happens wherever the C++
      source converts (parameter passing, [static_cast], assignment).
    - A section buffer is the list of the bytes of its allocation.  A raw
      access outside the allocation is [OutOfBounds] (undefined behaviour in
      C++); a failed [assert] is [AssertionFailed] (the checked, reported
      abort of the program).
    - A function that [printf]s a diagnostic and returns early returns the
      matching status constructor here.
    - The operands of [|] in [Read32] are evaluated left to right, as GCC,
      Clang and MSVC compile it.
    - Files are byte lists; [fread]/[fwrite] of a [uint32] use the host byte
      order, little-endian here (x86-64, AArch64). *)

From Stdlib Require Import ZArith Lia List String.
From stdpp Require Import base numbers option list strings.
Import ListNotations.

Local Open Scope Z_scope.

(** ** Machine integers *)

Definition uint8 (z : Z) : Z := z mod 2 ^ 8.
Definition uint16 (z : Z) : Z := z mod 2 ^ 16.
Definition uint32 (z : Z) : Z := z mod 2 ^ 32.

(** Conversion of a [uint32] to [int32] (two's complement, C++20). *)
Definition int32_of_uint32 (u : Z) : Z :=
  if decide (u < 2 ^ 31) then u else u - 2 ^ 32.

Definition is_uint8 (z : Z) : Prop := 0 <= z < 2 ^ 8.
Definition is_uint16 (z : Z) : Prop := 0 <= z < 2 ^ 16.
Definition is_uint32 (z : Z) : Prop := 0 <= z < 2 ^ 32.
Definition is_int32 (z : Z) : Prop := - 2 ^ 31 <= z < 2 ^ 31.

(** ** Outcomes of a call *)

Inductive Fault : Type :=
  | AssertionFailed   (* an [assert] of the source failed: the program aborts *)
  | OutOfBounds       (* a raw access outside the allocation *)
  | Undefined         (* another undefined operation (float to integer cast) *)
  | OutOfFuel.        (* the recursion bound of the model was reached *)

Inductive Res (A : Type) : Type :=
  | Ok (a : A)
  | Abort (f : Fault).
Arguments Ok {A} a.
Arguments Abort {A} f.

Global Instance Res_ret : MRet Res := fun A a => Ok a.
Global Instance Res_bind : MBind Res := fun A B k m =>
  match m with
  | Ok a => k a
  | Abort f => Abort f
  end.

(** [for_each f l s] runs [f] on the elements of [l] from left to right,
    as a fold expression over the comma operator does. *)
Definition for_each {A S : Type} (f : A -> S -> Res S) : list A -> S -> Res S :=
  fix go (l : list A) (s : S) : Res S :=
    match l with
    | [] => Ok s
    | a :: l' => s' ← f a s; go l' s'
    end.

(** ** FxHash.hpp: FNV-1a over a NUL-terminated string *)

Definition FX_HASH_FNV1A_SEED : Z := 0x811C9DC5.
Definition FX_HASH_FNV1A_PRIME : Z := 0x01000193.

(** [str] holds the bytes before the terminator. *)
Fixpoint FxHashStr_from (hash : Z) (str : list Z) : Z :=
  match str with
  | [] => hash
  | ch :: str' =>
      let ch := uint8 ch in
      if decide (ch = 0) then hash
      else FxHashStr_from (uint32 (Z.lxor hash ch * FX_HASH_FNV1A_PRIME)) str'
  end.

Definition FxHashStr (str : list Z) : Z := FxHashStr_from FX_HASH_FNV1A_SEED str.

Definition bytes_of_string (s : string) : list Z :=
  map (fun a => Z.of_nat (Ascii.nat_of_ascii a)) (list_ascii_of_string s).

(** ** FxSerializerBaseSection *)

Record FxSerializerBaseSection : Type := mkSection {
  Data : list Z;
  Index : Z;
  Size : Z
}.

Definition set_Index (i : Z) (s : FxSerializerBaseSection) :=
  {| Data := Data s; Index := i; Size := Size s |}.
Definition set_Data (d : list Z) (s : FxSerializerBaseSection) :=
  {| Data := d; Index := Index s; Size := Size s |}.

(** [Create]: [block] is the memory [malloc] returns, of [buffer_size]
    bytes with indeterminate contents. *)
Definition Create (buffer_size : Z) (block : list Z) : FxSerializerBaseSection :=
  {| Data := block; Index := 0; Size := uint32 buffer_size |}.

(** [Data[i]] as an rvalue (a [uint8]) and [Data[i] = v]. *)
Definition load (d : list Z) (i : Z) : Res Z :=
  match d !! Z.to_nat i with
  | Some b => Ok (uint8 b)
  | None => Abort OutOfBounds
  end.

Definition store (d : list Z) (i : Z) (v : Z) : Res (list Z) :=
  if decide (Z.to_nat i < length d)%nat then Ok (<[Z.to_nat i := v]> d)
  else Abort OutOfBounds.

(** [memcpy(dst + off, src, n)] *)
Definition memcpy (dst : list Z) (off : Z) (src : list Z) (n : Z) : Res (list Z) :=
  if decide (Z.to_nat n <= length src /\ Z.to_nat off + Z.to_nat n <= length dst)%nat
  then Ok (take (Z.to_nat off) dst ++ take (Z.to_nat n) src
           ++ drop (Z.to_nat off + Z.to_nat n) dst)
  else Abort OutOfBounds.

Definition Write8 (value : Z) (s : FxSerializerBaseSection) : Res FxSerializerBaseSection :=
  if decide (Index s < Size s) then
    d ← store (Data s) (Index s) (uint8 value);
    Ok {| Data := d; Index := uint32 (Index s + 1); Size := Size s |}
  else Abort AssertionFailed.

Definition Write16 (value16 : Z) (s : FxSerializerBaseSection) : Res FxSerializerBaseSection :=
  let value16 := uint16 value16 in
  if decide (uint32 (Index s + 2) <= Size s) then
    d1 ← store (Data s) (Index s) (uint8 (value16 ≫ 8));
    let i1 := uint32 (Index s + 1) in
    d2 ← store d1 i1 (uint8 value16);
    Ok {| Data := d2; Index := uint32 (i1 + 1); Size := Size s |}
  else Abort AssertionFailed.

Definition Write32 (value32 : Z) (s : FxSerializerBaseSection) : Res FxSerializerBaseSection :=
  let value32 := uint32 value32 in
  s1 ← Write16 (uint16 (value32 ≫ 16)) s;
  Write16 (uint16 value32) s1.

Definition WriteBuffer (size : Z) (data : list Z) (s : FxSerializerBaseSection)
  : Res FxSerializerBaseSection :=
  let size := uint32 size in
  if decide (uint32 (Index s + size) <= Size s) then
    d ← memcpy (Data s) (Index s) data size;
    Ok {| Data := d; Index := uint32 (Index s + size); Size := Size s |}
  else Abort AssertionFailed.

Definition Read8 (s : FxSerializerBaseSection) : Res (Z * FxSerializerBaseSection) :=
  if decide (uint32 (Index s + 1) <= Size s) then
    b ← load (Data s) (Index s);
    Ok (b, set_Index (uint32 (Index s + 1)) s)
  else Abort AssertionFailed.

Definition Read16 (s : FxSerializerBaseSection) : Res (Z * FxSerializerBaseSection) :=
  if decide (uint32 (Index s + 2) <= Size s) then
    b1 ← load (Data s) (Index s);
    let hi := uint16 (uint16 b1 ≪ 8) in
    let i1 := uint32 (Index s + 1) in
    lo ← load (Data s) i1;
    Ok (uint16 (Z.lor hi lo), set_Index (uint32 (i1 + 1)) s)
  else Abort AssertionFailed.

Definition Read32 (s : FxSerializerBaseSection) : Res (Z * FxSerializerBaseSection) :=
  '(h, s1) ← Read16 s;
  '(l, s2) ← Read16 s1;
  Ok (Z.lor (uint32 (uint32 h ≪ 16)) (uint32 l), s2).

(** ** FxSerializerDataSection *)

Definition DataIdentHeader : Z := 0x0B.
Definition DataIdentFooter : Z := 0xB0.

Definition WriteHeader (type_id name_hash : Z) (s : FxSerializerBaseSection)
  : Res FxSerializerBaseSection :=
  s1 ← Write8 DataIdentHeader s;
  s2 ← Write16 (uint16 type_id) s1;
  Write32 (uint32 name_hash) s2.

Definition WriteFooter (s : FxSerializerBaseSection) : Res FxSerializerBaseSection :=
  Write8 DataIdentFooter s.

(** ** FxSerializeUtil: the type-id registry

    [tid r t] is the function-local [static uint16 tid] of the
    instantiation [GetTypeId_<t>]: [None] until its initialiser has run.
    [T] is the set of C++ types of the program. *)

Section Registry.
Context {T : Type} `{EqDecision T}.

Record FxSerializeUtil : Type := mkRegistry {
  SerializeTypeIdCount : Z;
  tid : T -> option Z
}.

(** [static inline uint16 SerializeTypeIdCount = 0] *)
Definition registry_init : FxSerializeUtil :=
  {| SerializeTypeIdCount := 0; tid := fun _ => None |}.

Definition GetTypeId_ (t : T) (r : FxSerializeUtil) : Z * FxSerializeUtil :=
  match tid r t with
  | Some i => (i, r)
  | None =>
      let c := uint16 (SerializeTypeIdCount r + 1) in
      (c, {| SerializeTypeIdCount := c;
             tid := fun t' => if decide (t' = t) then Some c else tid r t' |})
  end.

(** [remove_const_t<remove_reference_t<T>>] is the identity on [T]. *)
Definition GetTypeId (t : T) (r : FxSerializeUtil) : Z * FxSerializeUtil :=
  GetTypeId_ t r.

(** The requests of a run, in order; the ids returned, in order. *)
Fixpoint requests (ts : list T) (r : FxSerializeUtil) : list Z * FxSerializeUtil :=
  match ts with
  | [] => ([], r)
  | t :: ts' =>
      let '(i, r1) := GetTypeId t r in
      let '(ids, r2) := requests ts' r1 in
      (i :: ids, r2)
  end.
End Registry.
Arguments FxSerializeUtil T : clear implicits.

(** ** The C++ types of a program and their values

    [TStruct] is a struct that uses [FX_SERIALIZABLE_MEMBERS] (it satisfies
    [C_IsSerializable]); [members] is the macro's argument list.  [TOther]
    is any other type: it reaches the primary templates of
    [FxSerializeValue]/[FxDeserializeValue], which only print. *)

#[local] Unset Elimination Schemes.

Inductive CType : Type :=
  | TInt32
  | TFloat32
  | TString
  | TOther (name : string) (size : Z)
  | TStruct (name : string) (size : Z) (members : list CType).

Global Instance CType_eq_dec : EqDecision CType.
Proof.
  refine (fix go (a b : CType) {struct a} : Decision (a = b) :=
    match a, b with
    | TInt32, TInt32 => left eq_refl
    | TFloat32, TFloat32 => left eq_refl
    | TString, TString => left eq_refl
    | TOther n1 s1, TOther n2 s2 =>
        cast_if_and (decide (n1 = n2)) (decide (s1 = s2))
    | TStruct n1 s1 m1, TStruct n2 s2 m2 =>
        cast_if_and3 (decide (n1 = n2)) (decide (s1 = s2))
          (@list_eq_dec _ go m1 m2)
    | _, _ => right _
    end); clear go; abstract congruence.
Defined.

(** [sizeof]; [std::string] is 32 bytes with libstdc++ on a 64-bit host. *)
Definition sizeof (t : CType) : Z :=
  match t with
  | TInt32 => 4
  | TFloat32 => 4
  | TString => 32
  | TOther _ sz => sz
  | TStruct _ sz _ => sz
  end.

(** A [float32] is its IEEE 754 binary32 bit pattern; an [int32] is its
    value; a string is its bytes. *)
Inductive Value : Type :=
  | VInt32 (v : Z)
  | VFloat32 (bits : Z)
  | VString (bytes : list Z)
  | VOther (name : string) (size : Z)
  | VStruct (name : string) (size : Z) (fields : list Value).

#[local] Set Elimination Schemes.

Fixpoint type_of (v : Value) : CType :=
  match v with
  | VInt32 _ => TInt32
  | VFloat32 _ => TFloat32
  | VString _ => TString
  | VOther n sz => TOther n sz
  | VStruct n sz fields => TStruct n sz (map type_of fields)
  end.

(** ** Conversions between [float32] and [uint32]

    [static_cast<uint32>(float32)] discards the fractional part and is
    undefined when the truncated value is not representable;
    the implicit conversion of a [uint32] to [float32] rounds to nearest,
    ties to even. *)

Definition float32_to_uint32 (bits : Z) : option Z :=
  let sign := Z.testbit bits 31 in
  let e := (bits ≫ 23) mod 2 ^ 8 in
  let frac := bits mod 2 ^ 23 in
  if decide (e = 255) then None
  else
    let m := if decide (e = 0) then frac else 2 ^ 23 + frac in
    let ex := (if decide (e = 0) then 1 else e) - 150 in
    let t := if decide (0 <= ex) then m ≪ ex else m ≫ (- ex) in
    if sign then (if decide (t = 0) then Some 0 else None)
    else if decide (t < 2 ^ 32) then Some t else None.

Definition uint32_to_float32 (n : Z) : Z :=
  if decide (n = 0) then 0
  else
    let k := Z.log2 n in
    if decide (k <= 23) then ((k + 127) ≪ 23) + ((n ≪ (23 - k)) - 2 ^ 23)
    else
      let sh := k - 23 in
      let q := n ≫ sh in
      let r := n mod 2 ^ sh in
      let half := 2 ^ (sh - 1) in
      let q' := if decide (half < r \/ (r = half /\ Z.odd q = true))
                then q + 1 else q in
      ((k + 127) ≪ 23) + (q' - 2 ^ 23).

(** ** FxSerializerTypeSection *)

Record TypeEntry : Type := mkTypeEntry {
  Id : Z;
  Offset : Z
}.

Record FxSerializerTypeSection : Type := mkTypeSection {
  Base : FxSerializerBaseSection;
  mRegisteredTypeIds : list TypeEntry
}.

Definition TypeIdentHeader : Z := 0xEF.
Definition TypeIdentFooter : Z := 0xBE.

Definition IsTypePreviouslyWritten (type_id : Z) (ts : FxSerializerTypeSection) : bool :=
  existsb (fun tp => bool_decide (Id tp = uint16 type_id)) (mRegisteredTypeIds ts).

(** The state the schema writers run in: the process-wide registry and
    [this] type section. *)
Definition TState : Type := FxSerializeUtil CType * FxSerializerTypeSection.

(** [write_member_func(GetTypeId<decltype(arg)>(), sizeof(decltype(arg)))] *)
Definition write_member (arg : CType)
    (st : FxSerializeUtil CType * FxSerializerBaseSection)
  : Res (FxSerializeUtil CType * FxSerializerBaseSection) :=
  let '(type_id, r) := GetTypeId arg st.1 in
  let size := uint16 (sizeof arg) in
  s1 ← Write16 size st.2;
  s2 ← Write16 (uint16 type_id) s1;
  Ok (r, s2).

Definition WriteTypeWithoutChecks (type_id type_size : Z) (args : list CType)
    (st : TState) : Res TState :=
  let type_id := uint16 type_id in
  let type_size := uint16 type_size in
  if IsTypePreviouslyWritten type_id st.2 then Ok st
  else
    let start_offset := Index (Base st.2) in
    s ← Write8 TypeIdentHeader (Base st.2);
    s ← Write16 type_id s;
    s ← Write16 type_size s;
    s ← Write8 (Z.of_nat (length args)) s;
    '(r, s) ← for_each write_member args (st.1, s);
    s ← Write8 TypeIdentFooter s;
    Ok (r, {| Base := s;
              mRegisteredTypeIds :=
                mRegisteredTypeIds st.2 ++ [mkTypeEntry type_id start_offset] |}).

Definition WriteTypeAndMembers_ (WriteTypeForTypeId : CType -> TState -> Res TState)
    (type_id type_size : Z) (args : list CType) (st : TState) : Res TState :=
  let type_id := uint16 type_id in
  let type_size := uint16 type_size in
  if IsTypePreviouslyWritten type_id st.2 then Ok st
  else
    st1 ← for_each WriteTypeForTypeId args st;
    WriteTypeWithoutChecks type_id type_size args st1.

(** Construction of an object of type [t]: the default member initialiser
    of [SerializerTypeId_] requests an id for each serializable struct,
    those of the members first (they are declared before the macro). *)
Fixpoint construct_type (t : CType) (r : FxSerializeUtil CType) : FxSerializeUtil CType :=
  match t with
  | TStruct _ _ members =>
      let r := fold_left (fun r m => construct_type m r) members r in
      (GetTypeId t r).2
  | _ => r
  end.

(** [WriteTypeForTypeId<T>]; in the [C_IsSerializable] branch,
    [T t_instance{}] constructs an object, whose [SerializerTypeId_] is
    [GetTypeId<T>()], and [t_instance.WriteTypeTo(writer)] calls
    [WriteTypeAndMembers]. *)
Fixpoint WriteTypeForTypeId (t : CType) (st : TState) : Res TState :=
  let '(type_id, r) := GetTypeId t st.1 in
  if IsTypePreviouslyWritten type_id st.2 then Ok (r, st.2)
  else
    match t with
    | TStruct _ size members =>
        let r := construct_type t r in
        let '(SerializerTypeId_, r) := GetTypeId t r in
        WriteTypeAndMembers_ WriteTypeForTypeId SerializerTypeId_ size members (r, st.2)
    | _ => WriteTypeWithoutChecks type_id (sizeof t) [] (r, st.2)
    end.

Definition WriteTypeAndMembers := WriteTypeAndMembers_ WriteTypeForTypeId.

(** [WriteTypeTo] of [FX_SERIALIZABLE_MEMBERS], for an object of struct type
    [t].  [SerializerTypeId_] holds [GetTypeId<decltype( *this)>()] since the
    object was constructed; the registry never changes an assigned id, so
    the member is read here as a request to the registry. *)
Definition WriteTypeTo (t : CType) (st : TState) : Res TState :=
  match t with
  | TStruct _ size members =>
      let '(SerializerTypeId_, r) := GetTypeId t st.1 in
      WriteTypeAndMembers SerializerTypeId_ size members (r, st.2)
  | _ => Ok st
  end.

(** [FindIndexFromTypeId].  [skip_members] is the inner [for] loop. *)
Fixpoint skip_members (n : nat) (s : FxSerializerBaseSection) : Res FxSerializerBaseSection :=
  match n with
  | O => Ok s
  | S n' =>
      '(_, s) ← Read16 s;
      '(_, s) ← Read16 s;
      skip_members n' s
  end.

Fixpoint find_loop (fuel : nat) (id : Z) (entry_index : Z) (s : FxSerializerBaseSection)
  : Res (Z * FxSerializerBaseSection) :=
  if decide (Index s < Size s) then
    match fuel with
    | O => Abort OutOfFuel
    | S fuel' =>
        let entry_index := Index s in
        '(sanity_header, s) ← Read8 s;
        if decide (sanity_header ≠ TypeIdentHeader) then Ok (entry_index, s)
        else
          '(type_id, s) ← Read16 s;
          if decide (type_id = id) then Ok (entry_index, s)
          else
            '(_, s) ← Read16 s;
            '(number_of_members, s) ← Read8 s;
            s ← skip_members (Z.to_nat number_of_members) s;
            '(sanity_footer, s) ← Read8 s;
            if decide (sanity_footer ≠ TypeIdentFooter) then Ok (entry_index, s)
            else find_loop fuel' id entry_index s
    end
  else Ok (entry_index, s).

Definition FindIndexFromTypeId (id : Z) (s : FxSerializerBaseSection)
  : Res (Z * FxSerializerBaseSection) :=
  let id := uint16 id in
  let old_index_ := Index s in
  '(entry_index, s') ← find_loop (S (Z.to_nat (Size s))) id 0 (set_Index 0 s);
  Ok (entry_index, set_Index old_index_ s').

(** [FxSerializedType] and [ReadType] *)

#[local] Unset Elimination Schemes.

Inductive FxSerializedType : Type :=
  mkSerializedType (Id Size : Z) (Members : list FxSerializedType).

#[local] Set Elimination Schemes.

(** The members loop of [ReadType]. *)
Definition read_members (ReadType : Z -> FxSerializerBaseSection ->
                                    Res (FxSerializedType * FxSerializerBaseSection))
  : nat -> list FxSerializedType -> FxSerializerBaseSection ->
    Res (list FxSerializedType * FxSerializerBaseSection) :=
  fix go (n : nat) (Members : list FxSerializedType) (s : FxSerializerBaseSection) :=
    match n with
    | O => Ok (Members, s)
    | S n' =>
        '(_, s) ← Read16 s;
        '(member_id, s) ← Read16 s;
        '(member_index, s) ← FindIndexFromTypeId member_id s;
        '(member, s) ← ReadType member_index s;
        go n' (Members ++ [member]) s
    end.

Fixpoint ReadType (fuel : nat) (index : Z) (s : FxSerializerBaseSection)
  : Res (FxSerializedType * FxSerializerBaseSection) :=
  match fuel with
  | O => Abort OutOfFuel
  | S fuel' =>
      let old_index_ := Index s in
      let s := set_Index (uint32 index) s in
      '(sanity_header, s) ← Read8 s;
      if decide (sanity_header ≠ TypeIdentHeader)
      then Ok (mkSerializedType 0 0 [], set_Index old_index_ s)
      else
        '(type_Id, s) ← Read16 s;
        '(type_Size, s) ← Read16 s;
        '(number_of_members, s) ← Read8 s;
        '(Members, s) ← read_members (ReadType fuel') (Z.to_nat number_of_members) [] s;
        '(sanity_footer, s) ← Read8 s;
        Ok (mkSerializedType type_Id type_Size Members, set_Index old_index_ s)
  end.

(** ** FxSerializerIO *)

Record FxSerializerIO : Type := mkIO {
  TypeSection : FxSerializerTypeSection;
  DataSection : FxSerializerBaseSection
}.

(** The constructor: both sections are [Create]d with [buffer_size]. *)
Definition FxSerializerIO_new (buffer_size : Z) (tblock dblock : list Z) : FxSerializerIO :=
  {| TypeSection := {| Base := Create buffer_size tblock; mRegisteredTypeIds := [] |};
     DataSection := Create buffer_size dblock |}.

(** The state of a program: the registry and one archive. *)
Record State : Type := mkState {
  registry : FxSerializeUtil CType;
  writer : FxSerializerIO
}.

Definition on_types (f : TState -> Res TState) (st : State) : Res State :=
  '(r, ts) ← f (registry st, TypeSection (writer st));
  Ok {| registry := r;
        writer := {| TypeSection := ts; DataSection := DataSection (writer st) |} |}.

Definition on_data (f : FxSerializerBaseSection -> Res FxSerializerBaseSection)
    (st : State) : Res State :=
  ds ← f (DataSection (writer st));
  Ok {| registry := registry st;
        writer := {| TypeSection := TypeSection (writer st); DataSection := ds |} |}.

(** ** Serializer functions *)

Definition FxSerializeStruct_ (FxSerializeValue : Value -> State -> Res State)
    (type_id name_hash : Z) (members : list Value) (st : State) : Res State :=
  st ← on_data (WriteHeader (uint16 type_id) (uint32 name_hash)) st;
  st ← for_each FxSerializeValue members st;
  on_data WriteFooter st.

(** [WriteTo] of [FX_SERIALIZABLE_MEMBERS] for the object
    [VStruct name size fields]. *)
Definition WriteTo_ (FxSerializeValue : Value -> State -> Res State)
    (name_hash : Z) (this_type : CType) (fields : list Value) (st : State) : Res State :=
  st ← on_types (WriteTypeTo this_type) st;
  let '(SerializerTypeId_, r) := GetTypeId this_type (registry st) in
  FxSerializeStruct_ FxSerializeValue SerializerTypeId_ name_hash fields
    {| registry := r; writer := writer st |}.

Fixpoint FxSerializeValue (value : Value) (st : State) : Res State :=
  match value with
  | VInt32 v =>
      on_data (Write32 (uint32 v)) st
  | VFloat32 f =>
      match float32_to_uint32 f with
      | Some u => on_data (Write32 u) st
      | None => Abort Undefined
      end
  | VString bytes =>
      let str_size := uint32 (Z.of_nat (length bytes)) in
      st ← on_data (Write16 (uint16 str_size)) st;
      on_data (WriteBuffer str_size bytes) st
  | VOther _ _ =>
      (* primary template: prints "is not serializable" *)
      Ok st
  | VStruct name size fields =>
      (* value.WriteTo(0, writer) *)
      WriteTo_ FxSerializeValue 0 (TStruct name size (map type_of fields)) fields st
  end.

Definition FxSerializeStruct := FxSerializeStruct_ FxSerializeValue.

Definition WriteTo (name_hash : Z) (name : string) (size : Z) (fields : list Value)
    (st : State) : Res State :=
  WriteTo_ FxSerializeValue name_hash (TStruct name size (map type_of fields)) fields st.

(** Construction of the object [v]. *)
Definition construct (v : Value) (r : FxSerializeUtil CType) : FxSerializeUtil CType :=
  construct_type (type_of v) r.

(** ** Deserializer functions *)

Inductive ReadStatus : Type :=
  | ReadDone
  | HeaderIsIncorrect       (* "Header is incorrect!" *)
  | NameHashesNotEqual      (* "Name hashes are not equal!" *)
  | FooterIsIncorrect.      (* "Footer is incorrect!" *)

Definition map_each {A S : Type} (f : A -> S -> Res (A * S))
  : list A -> S -> Res (list A * S) :=
  fix go (l : list A) (s : S) : Res (list A * S) :=
    match l with
    | [] => Ok ([], s)
    | a :: l' =>
        '(a', s) ← f a s;
        '(l'', s) ← go l' s;
        Ok (a' :: l'', s)
    end.

(** [members] are the destination fields behind the pointer tuple; the
    result holds their new contents. *)
Definition FxDeserializeStruct_
    (FxDeserializeValue : Value -> FxSerializerBaseSection ->
                          Res (Value * FxSerializerBaseSection))
    (name_hash : Z) (members : list Value) (data : FxSerializerBaseSection)
  : Res (ReadStatus * list Value * FxSerializerBaseSection) :=
  let name_hash := uint32 name_hash in
  '(temp, data) ← Read8 data;
  if decide (temp ≠ DataIdentHeader) then Ok (HeaderIsIncorrect, members, data)
  else
    '(type_id, data) ← Read16 data;
    '(struct_hash, data) ← Read32 data;
    if decide (struct_hash ≠ 0 /\ struct_hash ≠ name_hash)
    then Ok (NameHashesNotEqual, members, data)
    else
      '(members, data) ← map_each FxDeserializeValue members data;
      '(temp, data) ← Read8 data;
      if decide (temp ≠ DataIdentFooter) then Ok (FooterIsIncorrect, members, data)
      else Ok (ReadDone, members, data).

Fixpoint FxDeserializeValue (dest : Value) (data : FxSerializerBaseSection)
  : Res (Value * FxSerializerBaseSection) :=
  match dest with
  | VInt32 _ =>
      '(u, data) ← Read32 data;
      Ok (VInt32 (int32_of_uint32 u), data)
  | VFloat32 _ =>
      '(u, data) ← Read32 data;
      Ok (VFloat32 (uint32_to_float32 u), data)
  | VString bytes =>
      (* no specialisation for std::string: the primary template prints
         "is not deserializable" *)
      Ok (VString bytes, data)
  | VOther name size =>
      Ok (VOther name size, data)
  | VStruct name size fields =>
      (* value->ReadFrom(0, writer); the outcome is not looked at *)
      '(_, fields, data) ← FxDeserializeStruct_ FxDeserializeValue 0 fields data;
      Ok (VStruct name size fields, data)
  end.

Definition FxDeserializeStruct := FxDeserializeStruct_ FxDeserializeValue.

(** [ReadFrom] of [FX_SERIALIZABLE_MEMBERS]: the fields of the object after
    the call. *)
Definition ReadFrom (name_hash : Z) (fields : list Value) (data : FxSerializerBaseSection)
  : Res (ReadStatus * list Value * FxSerializerBaseSection) :=
  FxDeserializeStruct name_hash fields data.

(** ** Files *)

Definition FX_SERIALIZER_IO_FILE_SIGNATURE : Z := 0x46585344.           (* 'FXSD' *)
Definition FX_SERIALIZER_IO_SECTION_DATA_SIGNATURE : Z := 0x2E444154.   (* '.DAT' *)

(** [fwrite(&v, sizeof(uint32), 1, fp)] *)
Definition fwrite_u32 (v : Z) : list Z :=
  [uint8 v; uint8 (v ≫ 8); uint8 (v ≫ 16); uint8 (v ≫ 24)].

(** [fread(&buf, sizeof(uint32), 1, fp)]: [init] is the value of [buf]
    before the call, if it has one.  A partly read element is
    indeterminate. *)
Definition fread_u32 (init : option Z) (f : list Z) : Res (Z * list Z) :=
  match f with
  | b0 :: b1 :: b2 :: b3 :: rest =>
      Ok (uint8 b0 + uint8 b1 ≪ 8 + uint8 b2 ≪ 16 + uint8 b3 ≪ 24, rest)
  | [] => match init with Some v => Ok (v, []) | None => Abort Undefined end
  | _ => Abort Undefined
  end.

(** [fread(dst, 1, n, fp)] *)
Definition fread_bytes (dst : list Z) (n : Z) (f : list Z) : Res (list Z * list Z) :=
  let got := Z.min n (Z.of_nat (length f)) in
  d ← memcpy dst 0 (map uint8 f) got;
  Ok (d, drop (Z.to_nat got) f).

Definition WriteToFile (io : FxSerializerIO) : list Z :=
  let ts := Base (TypeSection io) in
  let ds := DataSection io in
  fwrite_u32 FX_SERIALIZER_IO_FILE_SIGNATURE
  ++ fwrite_u32 (Index ts) ++ take (Z.to_nat (Index ts)) (Data ts)
  ++ fwrite_u32 FX_SERIALIZER_IO_SECTION_DATA_SIGNATURE
  ++ fwrite_u32 (Index ds) ++ take (Z.to_nat (Index ds)) (Data ds).

Inductive LoadStatus : Type :=
  | Loaded
  | CouldNotOpenFile              (* "Could not open file" *)
  | FileSignatureIncorrect        (* "File signature is incorrect!" *)
  | FileDataSignatureIncorrect.   (* "File data signature is incorrect!" *)

(** [file] is the content of the file, [None] when it cannot be opened. *)
Definition ReadFromFile (file : option (list Z)) (io : FxSerializerIO)
  : Res (LoadStatus * FxSerializerIO) :=
  match file with
  | None => Ok (CouldNotOpenFile, io)
  | Some fp =>
      '(signature_buffer, fp) ← fread_u32 (Some 0) fp;
      if decide (signature_buffer ≠ FX_SERIALIZER_IO_FILE_SIGNATURE)
      then Ok (FileSignatureIncorrect, io)
      else
        '(size_of_types, fp) ← fread_u32 None fp;
        '(tdata, fp) ← fread_bytes (Data (Base (TypeSection io))) size_of_types fp;
        let io := {| TypeSection :=
                       {| Base := set_Data tdata (Base (TypeSection io));
                          mRegisteredTypeIds := mRegisteredTypeIds (TypeSection io) |};
                     DataSection := DataSection io |} in
        '(signature_buffer, fp) ← fread_u32 (Some 0) fp;
        if decide (signature_buffer ≠ FX_SERIALIZER_IO_SECTION_DATA_SIGNATURE)
        then Ok (FileDataSignatureIncorrect, io)
        else
          '(size_of_data, fp) ← fread_u32 None fp;
          '(ddata, fp) ← fread_bytes (Data (DataSection io)) size_of_data fp;
          Ok (Loaded, {| TypeSection := TypeSection io;
                         DataSection := set_Data ddata (DataSection io) |})
  end.

(** ** Vocabulary of the statements *)

(** A section as [Create] makes it and the writers keep it: the allocation
    has [Size] bytes and the cursor is inside it. *)
Definition wf_section (s : FxSerializerBaseSection) : Prop :=
  Z.of_nat (length (Data s)) = Size s /\ 0 <= Index s <= Size s /\ Size s < 2 ^ 32.

(** The bytes written so far, and the bytes under the cursor. *)
Definition written (s : FxSerializerBaseSection) : list Z :=
  take (Z.to_nat (Index s)) (Data s).

Definition bytes_at (s : FxSerializerBaseSection) (bs : list Z) : Prop :=
  take (length bs) (drop (Z.to_nat (Index s)) (Data s)) = bs.

(** [put bs s]: [bs] stored at the cursor, the cursor moved past it. *)
Definition put (bs : list Z) (s : FxSerializerBaseSection) : FxSerializerBaseSection :=
  {| Data := take (Z.to_nat (Index s)) (Data s) ++ bs
             ++ drop (Z.to_nat (Index s) + length bs) (Data s);
     Index := Index s + Z.of_nat (length bs);
     Size := Size s |}.

Definition advance (n : Z) (s : FxSerializerBaseSection) : FxSerializerBaseSection :=
  set_Index (Index s + n) s.

(** Big-endian byte strings. *)
Definition be16 (v : Z) : list Z := [uint8 (uint16 v ≫ 8); uint8 (uint16 v)].
Definition be32 (v : Z) : list Z := be16 (uint32 v ≫ 16) ++ be16 (uint32 v).

(** [first_requests o r]: the types that have requested an id from [r] so
    far are those of [o], in the order of their first request. *)
Definition first_requests {T : Type} (o : list T) (r : FxSerializeUtil T) : Prop :=
  NoDup o
  /\ SerializeTypeIdCount r = uint16 (Z.of_nat (length o))
  /\ (forall t, t ∉ o -> tid r t = None)
  /\ (forall k t, o !! k = Some t -> tid r t = Some (uint16 (Z.of_nat k + 1))).

(** The distinct types of a run [l] of requests, in the order of their
    first request, after those of [o]. *)
Definition first_request_order {T : Type} `{EqDecision T} (o l : list T) : list T :=
  fold_left (fun o t => if decide (t ∈ o) then o else o ++ [t]) l o.

(** The ids a program gets that makes the requests [l], in order, from
    its start, and its distinct types in the order of first requests. *)
Definition ids_of_run {T : Type} `{EqDecision T} (l : list T) : list Z :=
  (requests l registry_init).1.

Definition distinct_types {T : Type} `{EqDecision T} (l : list T) : list T :=
  first_request_order [] l.

(** A program with 65537 types, named 0 to 65536, each requesting an id
    once; and a small run over the serializer's own types. *)
Definition types_65537 : list nat := seq 0 (Z.to_nat 65537).

Definition example_run : list CType := [TInt32; TFloat32; TInt32; TString].

(** [restores s res]: if the call returned, the section is [s] again, cursor
    included. *)
Definition restores {A : Type} (s : FxSerializerBaseSection)
    (res : Res (A * FxSerializerBaseSection)) : Prop :=
  match res with
  | Ok (_, s') => s' = s
  | Abort _ => True
  end.

(** [moves_cursor_only s res]: a call that returned changed nothing but
    [Index]. *)
Definition moves_cursor_only {A : Type} (s : FxSerializerBaseSection)
    (res : Res (A * FxSerializerBaseSection)) : Prop :=
  match res with
  | Ok (_, s') => Data s' = Data s /\ Size s' = Size s
  | Abort _ => True
  end.

(** ** Schema entries as byte strings

    [[0xEF][TypeId:u16][ByteSize:u16][MemberCount:u8]
     {[MemberByteSize:u16][MemberTypeId:u16]}[0xBE]] *)

Record SchemaEntry : Type := mkSchemaEntry {
  entry_id : Z;
  entry_size : Z;
  entry_members : list (Z * Z)     (* (MemberByteSize, MemberTypeId) *)
}.

Definition encode_member (m : Z * Z) : list Z := be16 m.1 ++ be16 m.2.

(** An entry up to its end marker, and a whole entry. *)
Definition entry_body (e : SchemaEntry) : list Z :=
  [TypeIdentHeader] ++ be16 (entry_id e) ++ be16 (entry_size e)
  ++ [uint8 (Z.of_nat (length (entry_members e)))]
  ++ concat (map encode_member (entry_members e)).

Definition encode_entry (e : SchemaEntry) : list Z :=
  entry_body e ++ [TypeIdentFooter].

Definition encode_entries (es : list SchemaEntry) : list Z :=
  concat (map encode_entry es).

(** An entry the scan for [id] steps over. *)
Definition steps_over (id : Z) (e : SchemaEntry) : Prop :=
  uint16 (entry_id e) ≠ uint16 id /\ (length (entry_members e) < 256)%nat.

(** The value of [entry_index] once the scan has stepped over [es] from
    offset [pos]. *)
Fixpoint scan_entry_index (entry_index pos : Z) (es : list SchemaEntry) : Z :=
  match es with
  | [] => entry_index
  | e :: es' => scan_entry_index pos (pos + Z.of_nat (length (encode_entry e))) es'
  end.

(** Three type sections of seven or eight bytes: one whose first byte is not
    the entry marker, one that holds exactly the entry of type 1 (size 4,
    no members). *)
Definition corrupt_section : FxSerializerBaseSection :=
  {| Data := [0; 0; 1; 0; 4; 0; 0xBE; 0]; Index := 3; Size := 8 |}.

Definition one_entry_section : FxSerializerBaseSection :=
  {| Data := [0xEF; 0; 1; 0; 4; 0; 0xBE]; Index := 7; Size := 7 |}.

(** A section with the entries of type 3 (size 4) and of type 1 (size 8,
    two members of type 3), then one free byte. *)
Definition entry_3 : SchemaEntry := mkSchemaEntry 3 4 [].
Definition entry_1 : SchemaEntry := mkSchemaEntry 1 8 [(4, 3); (4, 3)].

Definition two_entry_section : FxSerializerBaseSection :=
  {| Data := encode_entries [entry_3] ++ encode_entry entry_1 ++ [0];
     Index := 22; Size := 23 |}.

(** ** Vocabulary of the schema section *)

(** The [mRegisteredTypeIds] that go with the entries [es] written from
    offset [pos] on. *)
Fixpoint registered_at (pos : Z) (es : list SchemaEntry) : list TypeEntry :=
  match es with
  | [] => []
  | e :: es' =>
      mkTypeEntry (entry_id e) pos
      :: registered_at (pos + Z.of_nat (length (encode_entry e))) es'
  end.

(** The bytes written to the type section are the entries [es], one per
    registered id and no two with the same id. *)
Definition holds_entries (ts : FxSerializerTypeSection) (es : list SchemaEntry) : Prop :=
  written (Base ts) = encode_entries es
  /\ mRegisteredTypeIds ts = registered_at 0 es
  /\ NoDup (map entry_id es)
  /\ Forall (fun e => is_uint16 (entry_id e)) es.

Definition schema_inv (ts : FxSerializerTypeSection) : Prop :=
  wf_section (Base ts) /\ exists es, holds_entries ts es.

(** [t] has an id and an entry with this id has been written. *)
Definition known (r : FxSerializeUtil CType) (ts : FxSerializerTypeSection)
    (t : CType) : Prop :=
  exists i, tid r t = Some i /\ IsTypePreviouslyWritten i ts = true.

(** The serializable structs in a type, itself included. *)
Fixpoint struct_types (t : CType) : list CType :=
  match t with
  | TStruct _ _ members => t :: concat (map struct_types members)
  | _ => []
  end.

(** Nothing assigned or written is lost from [(r, ts)] to [(r', ts')]. *)
Definition extends (r : FxSerializeUtil CType) (ts : FxSerializerTypeSection)
    (r' : FxSerializeUtil CType) (ts' : FxSerializerTypeSection) : Prop :=
  (forall t i, tid r t = Some i -> tid r' t = Some i)
  /\ (forall i, IsTypePreviouslyWritten i ts = true -> IsTypePreviouslyWritten i ts' = true).

(** Writing records of one struct type, each under its own name hash. *)
Definition WriteRecords (name : string) (size : Z) (records : list (Z * list Value))
  : State -> Res State :=
  for_each (fun rec => WriteTo rec.1 name size rec.2) records.

(** [emits s bs s']: [s'] is [s] after [bs] was stored at the cursor, which
    had room for it. *)
Definition emits (s : FxSerializerBaseSection) (bs : list Z)
    (s' : FxSerializerBaseSection) : Prop :=
  s' = put bs s /\ Index s + Z.of_nat (length bs) <= Size s.

(** What a schema write [f] of the type [t] guarantees. *)
Definition schema_write_ok (t : CType) (f : TState -> Res TState) : Prop :=
  forall r ts r' ts', schema_inv ts -> f (r, ts) = Ok (r', ts') ->
    schema_inv ts' /\ extends r ts r' ts' /\ known r' ts' t.

(** The registry and the type section of a program state. *)
Definition types_of (st : State) : FxSerializerTypeSection := TypeSection (writer st).
Definition data_of (st : State) : FxSerializerBaseSection := DataSection (writer st).

(** What serializing a value of type [t] does to the schema. *)
Definition schema_kept (t : CType) (f : State -> Res State) : Prop :=
  forall st st', schema_inv (types_of st) -> f st = Ok st' ->
    schema_inv (types_of st')
    /\ extends (registry st) (types_of st) (registry st') (types_of st')
    /\ Forall (known (registry st') (types_of st')) (struct_types t).

Definition schema_untouched (t : CType) (f : State -> Res State) : Prop :=
  forall st st', Forall (known (registry st) (types_of st)) (struct_types t) ->
    f st = Ok st' ->
    registry st' = registry st /\ types_of st' = types_of st.

(** ** The example of the repository

    [TestStructB { int32 A = 5; int32 B = 10; }] and
    [TestStructA { int32 X = 30; int32 Y = 15; float32 Z = 3; TestStructB Other; }]
    (the members the round trip supports), in an archive of 128 bytes per
    section.  [sizeof] is 12 and 28 on x86-64: each struct also holds the
    [const uint16 SerializerTypeId_] that [FX_SERIALIZABLE_MEMBERS]
    declares. *)

Definition TestStructB (A B : Z) : Value := VStruct "TestStructB" 12 [VInt32 A; VInt32 B].

Definition float32_3 : Z := 0x40400000.      (* 3.0f *)
Definition float32_3_5 : Z := 0x40600000.    (* 3.5f *)

Definition TestStructA_fields (X Y Zbits A B : Z) : list Value :=
  [VInt32 X; VInt32 Y; VFloat32 Zbits; TestStructB A B].

Definition TestStructA_types : list CType :=
  [TInt32; TInt32; TFloat32; TStruct "TestStructB" 12 [TInt32; TInt32]].

Definition hash_A : Z := FxHashStr (bytes_of_string "TestStructA").
Definition hash_B : Z := FxHashStr (bytes_of_string "TestStructC").

Definition example_start : State :=
  {| registry := construct (VStruct "TestStructA" 28 (TestStructA_fields 30 15 float32_3 5 10))
                   registry_init;
     writer := FxSerializerIO_new 128 (replicate 128 0) (replicate 128 0) |}.

Definition state_after (res : Res State) (otherwise : State) : State :=
  match res with
  | Ok st => st
  | Abort _ => otherwise
  end.

Definition example_written : State :=
  state_after (WriteTo hash_A "TestStructA" 28 (TestStructA_fields 30 15 float32_3 5 10)
                 example_start) example_start.

Definition example_more_records : list (Z * list Value) :=
  [(hash_B, TestStructA_fields 7 3 float32_3 1 2);
   (0, TestStructA_fields (-1) 0 0 0 (-2))].

Definition example_written_thrice : State :=
  state_after (WriteRecords "TestStructA" 28 example_more_records example_written)
    example_written.

(** ** Records as byte strings

    [[0x0B][TypeId:u16][NameHash:u32] <field bytes> [0xB0]] *)

Definition frame (type_id name_hash : Z) (payload : list Z) : list Z :=
  [DataIdentHeader] ++ be16 type_id ++ be32 name_hash ++ payload ++ [DataIdentFooter].

(** The bytes of a value when struct types have the ids [ids]: a nested
    struct is a whole record of its own, with name hash 0. *)
Fixpoint encode_value (ids : CType -> Z) (v : Value) : list Z :=
  match v with
  | VInt32 x => be32 x
  | VFloat32 f => be32 (default 0 (float32_to_uint32 f))
  | VString bytes =>
      be16 (uint32 (Z.of_nat (length bytes)))
      ++ take (Z.to_nat (uint32 (Z.of_nat (length bytes)))) bytes
  | VOther _ _ => []
  | VStruct _ _ fields =>
      frame (ids (type_of v)) 0 (concat (map (encode_value ids) fields))
  end.

Definition encode_fields (ids : CType -> Z) (fields : list Value) : list Z :=
  concat (map (encode_value ids) fields).

(** The ids a registry has assigned (0 for a type without one). *)
Definition ids_of (r : FxSerializeUtil CType) (t : CType) : Z := default 0 (tid r t).

(** The layout the specification describes: the fields of a nested struct
    inline, without a header or footer of their own. *)
Fixpoint inline_value (v : Value) : list Z :=
  match v with
  | VStruct _ _ fields => concat (map inline_value fields)
  | _ => encode_value (fun _ => 0) v
  end.

Definition specified_record (type_id name_hash : Z) (fields : list Value) : list Z :=
  frame type_id name_hash (concat (map inline_value fields)).

(** The bytes a call stored in the data section between two states. *)
Definition bytes_between (s s' : FxSerializerBaseSection) : list Z :=
  take (Z.to_nat (Index s' - Index s)) (drop (Z.to_nat (Index s)) (Data s')).

(** Values the decoder gives back as they were written: [int32]s, [float32]s
    that a conversion to [uint32] and back leaves unchanged, members of
    types the serializer skips on both sides, and structs of these.  A
    string is written but not read. *)
Fixpoint reads_back (v : Value) : bool :=
  match v with
  | VInt32 x => (- 2 ^ 31 <=? x) && (x <? 2 ^ 31)
  | VFloat32 f =>
      match float32_to_uint32 f with
      | Some u => bool_decide (uint32_to_float32 u = f)
      | None => false
      end
  | VString _ => false
  | VOther _ _ => true
  | VStruct _ _ fields => forallb reads_back fields
  end.

(** Serializing [v] stores [encode_value] of it, under the ids of any
    registry [rf] that keeps the ids assigned by the end of the call. *)
Definition emits_value (v : Value) : Prop :=
  forall st st' rf,
    schema_inv (types_of st) -> wf_section (data_of st) ->
    FxSerializeValue v st = Ok st' ->
    (forall t j, tid (registry st') t = Some j -> tid rf t = Some j) ->
    emits (data_of st) (encode_value (ids_of rf) v) (data_of st').

(** A string of 2^32 + 5 bytes and a program with a data section of 16
    bytes. *)
Definition huge_string : list Z := replicate (Z.to_nat (2 ^ 32 + 5)) 0.

Definition tiny_state : State :=
  {| registry := registry_init;
     writer := FxSerializerIO_new 16 (replicate 16 0) (replicate 16 0) |}.

(** Deserializing into a destination of the type of [v], from a section
    with the bytes of [v] under the cursor, gives [v] back and moves the
    cursor past these bytes. *)
Definition reads_value (v : Value) : Prop :=
  forall dest r rest ids,
    wf_section r -> type_of dest = type_of v -> reads_back v = true ->
    bytes_at r (encode_value ids v ++ rest) ->
    FxDeserializeValue dest r
    = Ok (v, advance (Z.of_nat (length (encode_value ids v))) r).

(** The example with [Z = 3.5f]; a struct with a string member
    [{ int32 = 1; std::string = "hi"; int32 = 2 }], of 48 bytes with its
    [SerializerTypeId_]; the example written under name hash 0. *)
Definition example_written_3_5 : State :=
  state_after (WriteTo hash_A "TestStructA" 28 (TestStructA_fields 30 15 float32_3_5 5 10)
                 example_start) example_start.

Definition WithString_fields (a : Z) (s : list Z) (b : Z) : list Value :=
  [VInt32 a; VString s; VInt32 b].

Definition example_written_string : State :=
  state_after (WriteTo hash_A "WithString" 48 (WithString_fields 1 [104; 105] 2)
                 example_start) example_start.

Definition example_written_nameless : State :=
  state_after (WriteTo 0 "TestStructA" 28 (TestStructA_fields 30 15 float32_3 5 10)
                 example_start) example_start.

(** The data section of a state with the cursor back at the start, as a
    reader finds it. *)
Definition rewound (st : State) : FxSerializerBaseSection := set_Index 0 (data_of st).

(** ** Example files and a small archive *)

(** An archive made with [buffer_size = 4], its buffers zeroed. *)
Definition small_archive : FxSerializerIO :=
  FxSerializerIO_new 4 [0; 0; 0; 0] [0; 0; 0; 0].

(** A file with a good file signature, two type bytes and a wrong data
    signature; a file whose type section declares 5 bytes; a file with a
    wrong file signature; a good file. *)
Definition file_bad_data_signature : list Z :=
  fwrite_u32 FX_SERIALIZER_IO_FILE_SIGNATURE ++ fwrite_u32 2 ++ [1; 2]
  ++ fwrite_u32 0 ++ fwrite_u32 0.

Definition file_types_too_long : list Z :=
  fwrite_u32 FX_SERIALIZER_IO_FILE_SIGNATURE ++ fwrite_u32 5 ++ [1; 2; 3; 4; 5]
  ++ fwrite_u32 FX_SERIALIZER_IO_SECTION_DATA_SIGNATURE ++ fwrite_u32 0.

Definition file_bad_signature : list Z :=
  fwrite_u32 0 ++ fwrite_u32 2 ++ [1; 2]
  ++ fwrite_u32 FX_SERIALIZER_IO_SECTION_DATA_SIGNATURE ++ fwrite_u32 0.

Definition file_good : list Z :=
  fwrite_u32 FX_SERIALIZER_IO_FILE_SIGNATURE ++ fwrite_u32 2 ++ [1; 2]
  ++ fwrite_u32 FX_SERIALIZER_IO_SECTION_DATA_SIGNATURE ++ fwrite_u32 3 ++ [7; 8; 9].

(** A section of four bytes that is full. *)
Definition full_section : FxSerializerBaseSection :=
  {| Data := [1; 2; 3; 4]; Index := 4; Size := 4 |}.

(** A string of 2^32 - 1 bytes. *)
Definition string_4GiB : list Z := replicate (Z.to_nat (2 ^ 32 - 1)) 0.

(** ** Every type of a record has its entry *)

Definition members (t : CType) : list CType :=
  match t with
  | TStruct _ _ ms => ms
  | _ => []
  end.

(** A type and the types of its members, to any depth. *)
Fixpoint all_types (t : CType) : list CType :=
  match t with
  | TStruct _ _ ms => t :: concat (map all_types ms)
  | _ => [t]
  end.

(** No two types share an id (as long as fewer than 65537 types have
    asked for one). *)
Definition registry_injective (r : FxSerializeUtil CType) : Prop :=
  forall t t' j j', tid r t = Some j -> tid r t' = Some j' -> uint16 j = uint16 j' -> t = t'.

Definition registry_le (r r' : FxSerializeUtil CType) : Prop :=
  forall t j, tid r t = Some j -> tid r' t = Some j.

(** Every written id is the id of a type, and the member types of a type
    with an entry have entries. *)
Definition closed (r : FxSerializeUtil CType) (ts : FxSerializerTypeSection) : Prop :=
  (forall j, IsTypePreviouslyWritten j ts = true ->
     exists t j', tid r t = Some j' /\ uint16 j' = uint16 j)
  /\ (forall t, known r ts t -> Forall (known r ts) (members t)).

Definition schema_write_closed (f : TState -> Res TState) : Prop :=
  forall rf r ts r' ts',
    schema_inv ts -> closed r ts -> registry_injective rf ->
    f (r, ts) = Ok (r', ts') -> registry_le r' rf -> closed r' ts'.

Definition serialize_closed (f : State -> Res State) : Prop :=
  forall rf st st',
    schema_inv (types_of st) -> closed (registry st) (types_of st) ->
    registry_injective rf ->
    f st = Ok st' -> registry_le (registry st') rf ->
    closed (registry st') (types_of st').

(** ** FxHash.hpp: the overload with a length

    [FxHashStr(str, length)] hashes at most [length] characters and
    returns early at a NUL.  [str] holds the bytes before the terminator;
    the byte at the terminator's position reads as 0. *)
Fixpoint FxHashStr_length_from (hash : Z) (str : list Z) (length : nat) : Z :=
  match length with
  | O => hash
  | S length' =>
      match str with
      | [] => hash
      | ch :: str' =>
          let ch := uint8 ch in
          if decide (ch = 0) then hash
          else FxHashStr_length_from (uint32 (Z.lxor hash ch * FX_HASH_FNV1A_PRIME))
                 str' length'
      end
  end.

Definition FxHashStr_length (str : list Z) (length : Z) : Z :=
  FxHashStr_length_from FX_HASH_FNV1A_SEED str (Z.to_nat (uint32 length)).

(** The [n] bytes under the cursor, as [uint8]s. *)
Definition under_cursor (n : nat) (s : FxSerializerBaseSection) : list Z :=
  map uint8 (take n (drop (Z.to_nat (Index s)) (Data s))).

(** A section with one byte written and 2^32 - 1 more bytes asked for. *)
Definition one_byte_written : FxSerializerBaseSection :=
  {| Data := [7; 0; 0; 0]; Index := 1; Size := 4 |}.

(** ** Reading the schema back *)

(** The entry that goes with a schema write of [args] under the ids of [r]. *)
Definition entry_of (r : FxSerializeUtil CType) (type_id type_size : Z) (args : list CType)
  : SchemaEntry :=
  mkSchemaEntry (uint16 type_id) (uint16 type_size)
    (map (fun arg => (sizeof arg, ids_of r arg)) args).

(** The first entry with the id [id] among the entries [es] written from
    offset [pos] on, and its offset. *)
Fixpoint lookup_entry (pos : Z) (es : list SchemaEntry) (id : Z)
  : option (Z * SchemaEntry) :=
  match es with
  | [] => None
  | e :: es' =>
      if decide (uint16 (entry_id e) = uint16 id) then Some (pos, e)
      else lookup_entry (pos + Z.of_nat (length (encode_entry e))) es' id
  end.

(** The type with the id [id] as the entries [es] describe it, its members
    resolved to the depth [depth]. *)
Fixpoint decode_type (es : list SchemaEntry) (depth : nat) (id : Z)
  : option FxSerializedType :=
  match depth with
  | O => None
  | S depth' =>
      match lookup_entry 0 es id with
      | None => None
      | Some (_, e) =>
          match mapM (fun m : Z * Z => decode_type es depth' m.2) (entry_members e) with
          | Some Members =>
              Some (mkSerializedType (uint16 (entry_id e)) (uint16 (entry_size e)) Members)
          | None => None
          end
      end
  end.

(** The entries of the example's type section. *)
Definition example_entries : list SchemaEntry :=
  [mkSchemaEntry 3 4 []; mkSchemaEntry 4 4 [];
   mkSchemaEntry 1 12 [(4, 3); (4, 3)];
   mkSchemaEntry 2 28 [(4, 3); (4, 3); (4, 4); (12, 1)]].

Definition example_tree : FxSerializedType :=
  mkSerializedType 2 28
    [mkSerializedType 3 4 []; mkSerializedType 3 4 []; mkSerializedType 4 4 [];
     mkSerializedType 1 12 [mkSerializedType 3 4 []; mkSerializedType 3 4 []]].

(** An entry that lists itself as its first member. *)
Definition cyclic_section : FxSerializerBaseSection :=
  {| Data := encode_entry (mkSchemaEntry 1 4 [(4, 1)]); Index := 11; Size := 11 |}.

(** ** The printing functions

    What a function prints is the list of its [printf] calls, each with
    the values of its arguments. *)
Inductive Printed : Type :=
  | TypesBanner (count : nat)                   (* "\n=== Types(%zu) ===\n" *)
  | StartSanityIncorrect (start_sanity : Z)     (* "Start sanity is incorrect! %X != %X\n" *)
  | TypeLine (first_read second_read : Z)       (* "Type (Sz=%d, Type=%d)\n" *)
  | MemberLine (member_type_id member_size : Z) (* "\tMember Type ID: %d (size: %d)\n" *)
  | EndSanityIncorrect (end_sanity : Z)         (* "End sanity is incorrect! %x != %x\n" *)
  | MagicStart (value : Z)                      (* "\nMagic Start: " and the byte *)
  | TypeIDLine (type_id : Z)                    (* "\nType ID    : " and its two bytes *)
  | NameHashLine (name_hash : Z)                (* "\nName Hash  : " and its four bytes *)
  | TypeSummary (Sz : Z) (Members : nat)        (* "Type {Sz:%d, Members: %zu}\n" *)
  | MemberSummary (member_Id member_Sz : Z)     (* "Member(%d, Sz: %d)\n" *)
  | TotalSize (total_members_size : Z)          (* "Total size of members: %u\n" *)
  | MagicEnd (value : Z).                       (* "Magic End: " and the byte *)

(** The members loop of [PrintType]. *)
Fixpoint print_members (n : nat) (s : FxSerializerBaseSection)
  : Res (list Printed * FxSerializerBaseSection) :=
  match n with
  | O => Ok ([], s)
  | S n' =>
      '(member_size, s) ← Read16 s;
      '(member_type_id, s) ← Read16 s;
      '(out, s) ← print_members n' s;
      Ok (MemberLine member_type_id member_size :: out, s)
  end.

(** [PrintType].  The two [Read16()] calls are arguments of one [printf];
    [TypeLine] holds their values in the order the calls were made, which
    the compiler chooses. *)
Definition PrintType (index : Z) (s : FxSerializerBaseSection)
  : Res (list Printed * FxSerializerBaseSection) :=
  let s := set_Index (uint32 index) s in
  '(start_sanity, s) ← Read8 s;
  if decide (start_sanity ≠ TypeIdentHeader)
  then Ok ([StartSanityIncorrect start_sanity], s)
  else
    '(first_read, s) ← Read16 s;
    '(second_read, s) ← Read16 s;
    '(num_members, s) ← Read8 s;
    '(out, s) ← print_members (Z.to_nat num_members) s;
    '(end_sanity, s) ← Read8 s;
    if decide (end_sanity ≠ TypeIdentFooter)
    then Ok (TypeLine first_read second_read :: out ++ [EndSanityIncorrect end_sanity], s)
    else Ok (TypeLine first_read second_read :: out, s).

Fixpoint print_types (entries : list TypeEntry) (s : FxSerializerBaseSection)
  : Res (list Printed * FxSerializerBaseSection) :=
  match entries with
  | [] => Ok ([], s)
  | entry :: entries' =>
      '(out1, s) ← PrintType (Offset entry) s;
      '(out2, s) ← print_types entries' s;
      Ok (out1 ++ out2, s)
  end.

Definition PrintAllTypes (ts : FxSerializerTypeSection)
  : Res (list Printed * FxSerializerTypeSection) :=
  '(out, s) ← print_types (mRegisteredTypeIds ts) (Base ts);
  Ok (TypesBanner (length (mRegisteredTypeIds ts)) :: out,
      {| Base := s; mRegisteredTypeIds := mRegisteredTypeIds ts |}).

(** The fields of an [FxSerializedType]. *)
Definition type_Id (t : FxSerializedType) : Z :=
  match t with mkSerializedType Id _ _ => Id end.
Definition type_Size (t : FxSerializedType) : Z :=
  match t with mkSerializedType _ Size _ => Size end.
Definition type_Members (t : FxSerializedType) : list FxSerializedType :=
  match t with mkSerializedType _ _ Members => Members end.

(** [total_members_size] after the loop of [PrintReadableEntry]. *)
Definition total_members_size (Members : list FxSerializedType) : Z :=
  fold_left (fun total member => uint32 (total + type_Size member)) Members 0.

(** [PrintReadableEntry]; [fuel] bounds the recursion of [ReadType]. *)
Definition PrintReadableEntry (fuel : nat) (start_index : Z) (io : FxSerializerIO)
  : Res (list Printed * FxSerializerIO) :=
  let old_index := Index (DataSection io) in
  let data := set_Index (uint32 start_index) (DataSection io) in
  '(magic_start, data) ← Read8 data;
  '(type_id, data) ← Read16 data;
  '(name_hash, data) ← Read32 data;
  '(index, types) ← FindIndexFromTypeId type_id (Base (TypeSection io));
  '(entry_type, types) ← ReadType fuel index types;
  let total := total_members_size (type_Members entry_type) in
  let data := set_Index (uint32 (Index data + total)) data in
  '(magic_end, data) ← Read8 data;
  Ok ([MagicStart magic_start; TypeIDLine type_id; NameHashLine name_hash;
       TypeSummary (type_Size entry_type) (length (type_Members entry_type))]
      ++ map (fun member => MemberSummary (type_Id member) (type_Size member))
           (type_Members entry_type)
      ++ [TotalSize total; MagicEnd magic_end],
      {| TypeSection := {| Base := types;
                           mRegisteredTypeIds := mRegisteredTypeIds (TypeSection io) |};
         DataSection := set_Index old_index data |}).

(** The lines [PrintType] prints for a well-formed entry. *)
Definition printed_entry (e : SchemaEntry) : list Printed :=
  TypeLine (uint16 (entry_id e)) (uint16 (entry_size e))
  :: map (fun m : Z * Z => MemberLine (uint16 m.2) (uint16 m.1)) (entry_members e).

(** The 24 bytes [PrintReadableEntry] steps over in the example's record:
    [X], [Y], [Z], the header of the nested record, its [A] and the first
    byte of its [B]. *)
Definition example_skipped : list Z :=
  be32 30 ++ be32 15 ++ be32 3 ++ [DataIdentHeader; 0; 1; 0; 0; 0; 0] ++ be32 5 ++ [0].

(** ** A reader's archive and the structs of [main]

    An archive as a second program makes it, its buffers holding whatever
    [malloc] returned (0xCD here). *)
Definition example_reader : FxSerializerIO :=
  FxSerializerIO_new 128 (replicate 128 0xCD) (replicate 128 0xCD).


(** [TestStructA] of [main]: [FX_SERIALIZABLE_MEMBERS(X, Y, Z, Other, HW, ch)],
    with [sizeof] as libstdc++ on x86-64 gives them. *)
Definition main_TestStructB (A B : Z) : Value :=
  VStruct "TestStructB" 12 [VInt32 A; VInt32 B].

Definition main_fields (X Y Zbits A B : Z) (HW : list Z) : list Value :=
  [VInt32 X; VInt32 Y; VFloat32 Zbits; main_TestStructB A B; VString HW; VOther "bool" 1].

Definition hello_world : list Z := bytes_of_string "Hello, World".

Definition main_start : State :=
  {| registry := construct (VStruct "TestStructA" 72 (main_fields 7 3 float32_3 5 10 hello_world))
                   registry_init;
     writer := FxSerializerIO_new 128 (replicate 128 0) (replicate 128 0) |}.

Definition main_written : State :=
  state_after (WriteTo hash_A "TestStructA" 72 (main_fields 7 3 float32_3 5 10 hello_world)
                 main_start) main_start.

(** [TestStructC { int32 Value = 100 }], written after [TestStructA]. *)
Definition main_written_twice : State :=
  state_after (WriteTo hash_B "TestStructC" 8 [VInt32 100] main_written) main_written.

(** The bytes a value takes in the data section. *)
Fixpoint value_size (v : Value) : Z :=
  match v with
  | VInt32 _ => 4
  | VFloat32 _ => 4
  | VString bytes => 2 + uint32 (Z.of_nat (length bytes))
  | VOther _ _ => 0
  | VStruct _ _ fields => 8 + fold_right (fun f total => value_size f + total) 0 fields
  end.

Definition record_size (fields : list Value) : Z :=
  8 + fold_right (fun f total => value_size f + total) 0 fields.


(** A call that stopped did so at an assertion (or, for the recursion of
    [ReadType], at the bound of the model): it made no access outside the
    buffer. *)
Definition guarded {A : Type} (res : Res A) : Prop :=
  match res with
  | Ok _ => True
  | Abort f => f = AssertionFailed \/ f = OutOfFuel
  end.

(** A section whose last byte, never written, happens to be 0xEF. *)
Definition stray_marker_section : FxSerializerBaseSection :=
  {| Data := encode_entry (mkSchemaEntry 1 4 []) ++ [TypeIdentHeader]; Index := 7; Size := 8 |}.

(** ** The schema a program wrote, read back *)

(** The nesting depth of a type, and the type tree [ReadType] returns for
    it under the ids [ids]. *)
Fixpoint height (t : CType) : nat :=
  match t with
  | TStruct _ _ ms => S (list_max (map height ms))
  | _ => O
  end.

Fixpoint tree_of (ids : CType -> Z) (t : CType) : FxSerializedType :=
  mkSerializedType (uint16 (ids t)) (uint16 (sizeof t))
    match t with
    | TStruct _ _ ms => map (tree_of ids) ms
    | _ => []
    end.

(** [e] is the entry of a type that has an id and whose members have
    entries; every entry of the section is of this kind. *)
Definition describes (r : FxSerializeUtil CType) (ts : FxSerializerTypeSection)
    (e : SchemaEntry) : Prop :=
  exists t i, tid r t = Some i /\ e = entry_of r i (sizeof t) (members t)
              /\ Forall (known r ts) (members t).

Definition described (r : FxSerializeUtil CType) (ts : FxSerializerTypeSection) : Prop :=
  exists es, holds_entries ts es /\ Forall (describes r ts) es.

Definition schema_write_described (f : TState -> Res TState) : Prop :=
  forall r ts r' ts',
    wf_section (Base ts) -> described r ts -> f (r, ts) = Ok (r', ts') -> described r' ts'.

Definition serialize_described (f : State -> Res State) : Prop :=
  forall st st',
    wf_section (Base (types_of st)) -> described (registry st) (types_of st) ->
    f st = Ok st' -> described (registry st') (types_of st').

(** The entry of type 3 with 0x00 where its end marker should be. *)
Definition unterminated_section : FxSerializerBaseSection :=
  {| Data := entry_body (mkSchemaEntry 3 4 []) ++ [0]; Index := 7; Size := 7 |}.

(** * Properties *)

(** ** Machine integers *)

Lemma uint8_range z : is_uint8 (uint8 z).
Proof. unfold is_uint8, uint8. apply Z.mod_pos_bound. lia. Qed.

Lemma uint16_range z : is_uint16 (uint16 z).
Proof. unfold is_uint16, uint16. apply Z.mod_pos_bound. lia. Qed.

Lemma uint32_range z : is_uint32 (uint32 z).
Proof. unfold is_uint32, uint32. apply Z.mod_pos_bound. lia. Qed.

Lemma uint8_id z : is_uint8 z -> uint8 z = z.
Proof. unfold is_uint8, uint8. intros. apply Z.mod_small. lia. Qed.

Lemma uint16_id z : is_uint16 z -> uint16 z = z.
Proof. unfold is_uint16, uint16. intros. apply Z.mod_small. lia. Qed.

Lemma uint32_id z : is_uint32 z -> uint32 z = z.
Proof. unfold is_uint32, uint32. intros. apply Z.mod_small. lia. Qed.

Lemma uint8_idemp z : uint8 (uint8 z) = uint8 z.
Proof. apply uint8_id, uint8_range. Qed.

Lemma uint16_idemp z : uint16 (uint16 z) = uint16 z.
Proof. apply uint16_id, uint16_range. Qed.

Lemma uint32_idemp z : uint32 (uint32 z) = uint32 z.
Proof. apply uint32_id, uint32_range. Qed.

Lemma uint16_uint32 z : uint16 (uint32 z) = uint16 z.
Proof.
  unfold uint16, uint32.
  apply Z.mod_mod_divide. exists (2 ^ 16). reflexivity.
Qed.

Lemma testbit_above (l n i : Z) : 0 <= l < 2 ^ n -> n <= i -> Z.testbit l i = false.
Proof.
  intros Hl Hi.
  destruct (decide (l = 0)) as [->|]; [apply Z.bits_0|].
  apply Z.bits_above_log2; [lia|].
  assert (0 <= n) by (destruct (decide (0 <= n)); [done|]; rewrite Z.pow_neg_r in Hl; lia).
  apply Z.lt_le_trans with n; [|done].
  apply Z.log2_lt_pow2; lia.
Qed.

Lemma lor_shift_add (h l n : Z) :
  0 <= n -> 0 <= l < 2 ^ n -> Z.lor (h * 2 ^ n) l = h * 2 ^ n + l.
Proof.
  intros Hn Hl.
  assert (Z.land (h * 2 ^ n) l = 0) as Hland.
  { apply Z.bits_inj'; intros i Hi; rewrite Z.land_spec, Z.bits_0.
    destruct (decide (i < n)).
    - rewrite Z.mul_pow2_bits_low by lia; reflexivity.
    - rewrite (testbit_above l n i), andb_false_r by lia; reflexivity. }
  rewrite Z.add_nocarry_lxor, Z.lxor_lor; auto.
Qed.

(** The two bytes [Write16] stores are read back by [Read16] as the value. *)
Lemma join16 (v : Z) :
  uint16 (Z.lor (uint16 (uint16 (uint8 (uint8 (uint16 v ≫ 8))) ≪ 8))
                (uint8 (uint8 (uint16 v)))) = uint16 v.
Proof.
  pose proof (uint16_range v) as Hv. unfold is_uint16 in Hv.
  set (w := uint16 v) in *. clearbody w.
  rewrite !uint8_idemp.
  rewrite Z.shiftr_div_pow2, Z.shiftl_mul_pow2 by lia.
  assert (0 <= w / 2 ^ 8 < 2 ^ 8) as Hh.
  { split; [apply Z.div_pos; lia|apply Z.div_lt_upper_bound; lia]. }
  rewrite (uint8_id (w / 2 ^ 8)) by exact Hh.
  rewrite (uint16_id (w / 2 ^ 8)) by (unfold is_uint16; lia).
  rewrite (uint16_id (w / 2 ^ 8 * 2 ^ 8)) by (unfold is_uint16; lia).
  rewrite lor_shift_add by (try lia; apply uint8_range).
  unfold uint8. rewrite Z.mul_comm, <- Z.div_mod by lia.
  apply uint16_id. exact Hv.
Qed.

Lemma join32 (v : Z) :
  Z.lor (uint32 (uint32 (uint16 (uint32 v ≫ 16)) ≪ 16)) (uint32 (uint16 (uint32 v)))
  = uint32 v.
Proof.
  pose proof (uint32_range v) as Hv. unfold is_uint32 in Hv.
  set (w := uint32 v) in *. clearbody w.
  rewrite Z.shiftr_div_pow2, Z.shiftl_mul_pow2 by lia.
  assert (0 <= w / 2 ^ 16 < 2 ^ 16) as Hh.
  { split; [apply Z.div_pos; lia|apply Z.div_lt_upper_bound; lia]. }
  rewrite (uint16_id (w / 2 ^ 16)) by exact Hh.
  rewrite (uint32_id (w / 2 ^ 16)) by (unfold is_uint32; lia).
  rewrite (uint32_id (w / 2 ^ 16 * 2 ^ 16)) by (unfold is_uint32; lia).
  pose proof (uint16_range w) as Hl. unfold is_uint16 in Hl.
  rewrite (uint32_id (uint16 w)) by (unfold is_uint32; lia).
  rewrite lor_shift_add by lia.
  unfold uint16. rewrite Z.mul_comm, <- Z.div_mod by lia. reflexivity.
Qed.

Lemma int32_of_uint32_inv (v : Z) : is_int32 v -> int32_of_uint32 (uint32 v) = v.
Proof.
  unfold is_int32, int32_of_uint32, uint32. intros Hv.
  destruct (decide (0 <= v)).
  - rewrite Z.mod_small by lia. destruct (decide _); lia.
  - replace (v mod 2 ^ 32) with (v + 2 ^ 32).
    + destruct (decide _); lia.
    + symmetry. rewrite <- (Z.mod_add v 1) by lia. apply Z.mod_small. lia.
Qed.

(** ** Section buffers: what a write stores and what a read returns *)

Lemma wf_put bs s :
  wf_section s -> Index s + Z.of_nat (length bs) <= Size s -> wf_section (put bs s).
Proof.
  unfold wf_section, put. cbn. intros (Hl & Hi & Hs) Hb.
  rewrite !length_app, length_take, length_drop. lia.
Qed.

Lemma put_nil s : wf_section s -> put [] s = s.
Proof.
  unfold put. destruct s as [d i n]. cbn. intros (Hl & Hi & Hs).
  rewrite Nat.add_0_r, take_drop. f_equal. lia.
Qed.

Lemma put_put bs1 bs2 s :
  wf_section s -> Index s + Z.of_nat (length bs1) <= Size s ->
  put bs2 (put bs1 s) = put (bs1 ++ bs2) s.
Proof.
  unfold wf_section, put. destruct s as [d i n]. cbn. intros (Hl & Hi & Hs) Hb.
  f_equal; [|rewrite length_app; lia].
  assert (Z.to_nat (i + Z.of_nat (length bs1))
          = length (take (Z.to_nat i) d ++ bs1)) as E
    by (rewrite length_app, length_take; lia).
  rewrite E, (app_assoc (take _ d) bs1), take_app_length, drop_app_add, drop_drop.
  rewrite <- !app_assoc. do 3 f_equal.
  rewrite !length_app. f_equal. lia.
Qed.

Lemma written_put bs s :
  wf_section s -> Index s + Z.of_nat (length bs) <= Size s ->
  written (put bs s) = written s ++ bs.
Proof.
  unfold wf_section, put, written. destruct s as [d i n]. cbn. intros (Hl & Hi & Hs) Hb.
  replace (Z.to_nat (i + Z.of_nat (length bs)))
    with (length (take (Z.to_nat i) d ++ bs))
    by (rewrite length_app, length_take; lia).
  rewrite app_assoc. apply take_app_length.
Qed.

Lemma store_put v s d :
  wf_section s -> Index s < Size s -> store (Data s) (Index s) v = Ok d ->
  {| Data := d; Index := Index s + 1; Size := Size s |} = put [v] s.
Proof.
  unfold wf_section, put, store. destruct s as [d0 i n]. cbn. intros (Hl & Hi & Hs) Hlt.
  destruct (decide _) as [Hb|]; [|discriminate]. intros [= <-].
  f_equal. rewrite insert_take_drop by done. cbn. do 3 f_equal. lia.
Qed.

Lemma store_fits d i v d' : store d i v = Ok d' -> (Z.to_nat i < length d)%nat.
Proof. unfold store. destruct (decide _); [done|discriminate]. Qed.

Lemma Write8_put value s s' :
  wf_section s -> Write8 value s = Ok s' ->
  s' = put [uint8 value] s /\ Index s + 1 <= Size s.
Proof.
  intros Hwf. unfold Write8. destruct (decide _) as [Hlt|]; [|discriminate].
  destruct (store _ _ _) as [d|] eqn:Hst; [|discriminate]. cbn. intros [= <-].
  split; [|lia]. rewrite <- (store_put _ _ _ Hwf Hlt Hst).
  f_equal. apply uint32_id. unfold is_uint32. destruct Hwf as (? & ? & ?). lia.
Qed.

Lemma Write16_put value16 s s' :
  wf_section s -> Write16 value16 s = Ok s' ->
  s' = put (be16 value16) s /\ Index s + 2 <= Size s.
Proof.
  intros Hwf. unfold Write16. destruct (decide _) as [Hle|]; [|discriminate].
  destruct (store _ _ _) as [d1|] eqn:Hst1; [|discriminate]. cbn.
  destruct (store d1 _ _) as [d2|] eqn:Hst2; [|discriminate]. cbn. intros [= <-].
  pose proof Hwf as (Hl & Hi & Hs).
  pose proof (store_fits _ _ _ _ Hst1) as Hf1.
  assert (Index s < Size s) as Hlt by lia.
  pose proof (store_put _ _ _ Hwf Hlt Hst1) as E1.
  rewrite (uint32_id (Index s + 1)) in * by (unfold is_uint32; lia).
  set (s1 := {| Data := d1; Index := Index s + 1; Size := Size s |}) in *.
  assert (wf_section s1) as Hwf1.
  { rewrite E1. apply wf_put; [done|cbn; lia]. }
  pose proof (store_fits _ _ _ _ Hst2) as Hf2.
  assert (Index s1 < Size s1) as Hlt1.
  { destruct Hwf1 as (Hl1 & _). cbn in *. lia. }
  pose proof (store_put _ s1 _ Hwf1 Hlt1 Hst2) as E2. cbn in E2, Hlt1.
  rewrite (uint32_id (Index s + 1 + 1)) by (unfold is_uint32; lia).
  split; [|lia]. rewrite E2, E1, put_put by (done || cbn; lia). reflexivity.
Qed.

Lemma be16_length v : length (be16 v) = 2%nat.
Proof. reflexivity. Qed.

Lemma be32_length v : length (be32 v) = 4%nat.
Proof. reflexivity. Qed.

Lemma be16_uint16 v : be16 (uint16 v) = be16 v.
Proof. unfold be16. rewrite uint16_idemp. reflexivity. Qed.

Lemma Write32_put value32 s s' :
  wf_section s -> Write32 value32 s = Ok s' ->
  s' = put (be32 value32) s /\ Index s + 4 <= Size s.
Proof.
  intros Hwf. unfold Write32.
  destruct (Write16 _ s) as [s1|] eqn:H1; [|discriminate]. cbn. intros H2.
  apply Write16_put in H1 as [-> Hb1]; [|done].
  apply Write16_put in H2 as [-> Hb2]; [|apply wf_put; [done|cbn; lia]].
  cbn in Hb2. rewrite put_put by (done || cbn; lia).
  unfold be32. rewrite !be16_uint16. split; [done|lia].
Qed.

Lemma WriteBuffer_put size data s s' :
  wf_section s -> WriteBuffer size data s = Ok s' ->
  s' = put (take (Z.to_nat (uint32 size)) data) s
  /\ Index s + uint32 size <= Size s
  /\ (Z.to_nat (uint32 size) <= length data)%nat.
Proof.
  intros Hwf. unfold WriteBuffer. destruct (decide _) as [Hle|]; [|discriminate].
  unfold memcpy. destruct (decide _) as [[Hsrc Hdst]|]; [|discriminate]. cbn.
  intros [= <-]. pose proof Hwf as (Hl & Hi & Hs).
  pose proof (uint32_range size) as Hr. unfold is_uint32 in Hr.
  assert (Index s + uint32 size <= Size s) as Hfit by lia.
  split; [|done]. unfold put. rewrite length_take, Nat.min_l by done.
  f_equal. rewrite Z2Nat.id by lia. apply uint32_id. unfold is_uint32. lia.
Qed.

Lemma WriteHeader_put type_id name_hash s s' :
  wf_section s -> WriteHeader type_id name_hash s = Ok s' ->
  s' = put ([DataIdentHeader] ++ be16 type_id ++ be32 name_hash) s
  /\ Index s + 7 <= Size s.
Proof.
  intros Hwf. unfold WriteHeader.
  destruct (Write8 _ s) as [s1|] eqn:H1; [|discriminate]. cbn.
  destruct (Write16 _ s1) as [s2|] eqn:H2; [|discriminate]. cbn. intros H3.
  apply Write8_put in H1 as [-> Hb1]; [|done].
  assert (wf_section (put [uint8 DataIdentHeader] s)) as Hwf1
    by (apply wf_put; [done|cbn; lia]).
  apply Write16_put in H2 as [-> Hb2]; [|done]. cbn in Hb2.
  assert (wf_section (put (be16 (uint16 type_id)) (put [uint8 DataIdentHeader] s))) as Hwf2
    by (apply wf_put; [done|cbn; lia]).
  apply Write32_put in H3 as [-> Hb3]; [|done]. cbn in Hb3.
  rewrite !put_put by (done || cbn; lia).
  split; [|lia]. rewrite be16_uint16. unfold be32. rewrite !uint32_idemp. reflexivity.
Qed.

Lemma wf_advance n s :
  wf_section s -> 0 <= n -> Index s + n <= Size s -> wf_section (advance n s).
Proof. unfold wf_section, advance. cbn. lia. Qed.

Lemma advance_advance n m s : advance m (advance n s) = advance (n + m) s.
Proof. unfold advance, set_Index. cbn. f_equal. lia. Qed.

Lemma advance_0 s : advance 0 s = s.
Proof. destruct s. unfold advance, set_Index. cbn. f_equal. lia. Qed.

Lemma bytes_at_cons b rest r :
  wf_section r -> bytes_at r (b :: rest) ->
  Data r !! Z.to_nat (Index r) = Some b /\ Index r + 1 <= Size r
  /\ bytes_at (advance 1 r) rest.
Proof.
  unfold wf_section, bytes_at, advance. cbn. intros (Hl & Hi & Hs) Hb.
  destruct (drop (Z.to_nat (Index r)) (Data r)) as [|x tl] eqn:Hd; [discriminate|].
  cbn in Hb. injection Hb as -> Hrest.
  assert (Data r !! Z.to_nat (Index r) = Some b) as Hlk.
  { rewrite <- (Nat.add_0_r (Z.to_nat (Index r))), <- lookup_drop, Hd. reflexivity. }
  split; [done|]. apply lookup_lt_Some in Hlk. split; [lia|].
  replace (Z.to_nat (Index r + 1)) with (Z.to_nat (Index r) + 1)%nat by lia.
  rewrite <- drop_drop, Hd. exact Hrest.
Qed.

Lemma bytes_at_app bs1 bs2 r :
  wf_section r -> bytes_at r (bs1 ++ bs2) ->
  bytes_at r bs1 /\ Index r + Z.of_nat (length bs1) <= Size r
  /\ bytes_at (advance (Z.of_nat (length bs1)) r) bs2.
Proof.
  revert r. induction bs1 as [|b bs1 IH]; intros r Hwf Hb.
  - cbn. rewrite advance_0. destruct Hwf as (? & ? & ?).
    split; [reflexivity|]. split; [lia|done].
  - cbn [app] in Hb. apply bytes_at_cons in Hb as (Hlk & Hfit & Hb); [|done].
    apply IH in Hb as (H1 & Hfit1 & H2); [|apply wf_advance; [done|lia..]].
    rewrite advance_advance in H2. cbn [advance set_Index Index Size] in Hfit1.
    split; [|split; [cbn [length]; lia|]].
    + unfold bytes_at in *. cbn [advance set_Index Index Data length] in *.
      rewrite (drop_S _ b _ Hlk). cbn. f_equal.
      replace (Z.to_nat (Index r + 1)) with (S (Z.to_nat (Index r))) in H1
        by (destruct Hwf as (? & ? & ?); lia).
      exact H1.
    + replace (Z.of_nat (length (b :: bs1))) with (1 + Z.of_nat (length bs1))
        by (cbn [length]; lia).
      exact H2.
Qed.

Lemma bytes_at_length bs r :
  wf_section r -> bytes_at r bs -> Index r + Z.of_nat (length bs) <= Size r.
Proof.
  intros Hwf Hb. rewrite <- (app_nil_r bs) in Hb.
  apply bytes_at_app in Hb as (_ & H & _); done.
Qed.

Lemma bytes_at_put bs s :
  wf_section s -> Index s + Z.of_nat (length bs) <= Size s ->
  bytes_at (set_Index (Index s) (put bs s)) bs.
Proof.
  unfold wf_section, bytes_at, put. cbn. intros (Hl & Hi & Hs) Hb.
  rewrite drop_app_length'; [|rewrite length_take; lia].
  apply take_app_length.
Qed.

Lemma Read8_at b rest r :
  wf_section r -> bytes_at r (b :: rest) ->
  Read8 r = Ok (uint8 b, advance 1 r).
Proof.
  intros Hwf Hb. pose proof Hwf as (Hl & Hi & Hs).
  apply bytes_at_cons in Hb as (Hlk & Hfit & _); [|done].
  unfold Read8, load.
  rewrite (uint32_id (Index r + 1)) by (unfold is_uint32; lia).
  destruct (decide _); [|lia]. rewrite Hlk. reflexivity.
Qed.

Lemma Read16_at b1 b2 rest r :
  wf_section r -> bytes_at r (b1 :: b2 :: rest) ->
  Read16 r = Ok (uint16 (Z.lor (uint16 (uint16 (uint8 b1) ≪ 8)) (uint8 b2)), advance 2 r).
Proof.
  intros Hwf Hb. pose proof Hwf as (Hl & Hi & Hs).
  apply bytes_at_cons in Hb as (Hlk1 & Hfit1 & Hb); [|done].
  apply bytes_at_cons in Hb as (Hlk2 & Hfit2 & _); [|apply wf_advance; [done|lia..]].
  cbn [advance set_Index Index Data Size] in Hlk2, Hfit2.
  unfold Read16, load.
  rewrite (uint32_id (Index r + 2)) by (unfold is_uint32; lia).
  rewrite (uint32_id (Index r + 1)) by (unfold is_uint32; lia).
  rewrite (uint32_id (Index r + 1 + 1)) by (unfold is_uint32; lia).
  destruct (decide _); [|lia]. rewrite Hlk1. cbn. rewrite Hlk2. cbn.
  unfold advance. do 3 f_equal. lia.
Qed.

Lemma Read16_be16 v rest r :
  wf_section r -> bytes_at r (be16 v ++ rest) ->
  Read16 r = Ok (uint16 v, advance 2 r).
Proof.
  intros Hwf Hb. unfold be16 in Hb. cbn [app] in Hb.
  rewrite (Read16_at _ _ _ _ Hwf Hb), join16. reflexivity.
Qed.

Lemma Read32_be32 v rest r :
  wf_section r -> bytes_at r (be32 v ++ rest) ->
  Read32 r = Ok (uint32 v, advance 4 r).
Proof.
  intros Hwf Hb. unfold be32 in Hb. rewrite <- app_assoc in Hb.
  pose proof Hb as Hb1.
  apply bytes_at_app in Hb as (_ & Hfit & Hb2); [|done].
  rewrite be16_length in Hfit, Hb2.
  pose proof (bytes_at_length _ _ (wf_advance 2 _ Hwf ltac:(lia) ltac:(lia)) Hb2) as Hfit2.
  unfold Read32.
  rewrite (Read16_be16 _ _ _ Hwf Hb1). cbn.
  rewrite (Read16_be16 _ _ _ (wf_advance 2 _ Hwf ltac:(lia) ltac:(lia)) Hb2). cbn.
  rewrite advance_advance, join32. reflexivity.
Qed.

(** ** The type-id registry *)

Section RegistryFacts.
Context {T : Type} `{EqDecision T}.
Implicit Types (r : FxSerializeUtil T) (t : T) (o l : list T).

Lemma first_requests_init : first_requests (T := T) [] registry_init.
Proof.
  repeat split; cbn; try done. constructor.
Qed.

Lemma GetTypeId_known o r t k :
  first_requests o r -> o !! k = Some t ->
  GetTypeId t r = (uint16 (Z.of_nat k + 1), r).
Proof.
  intros (_ & _ & _ & Hk) Hlk. unfold GetTypeId, GetTypeId_.
  rewrite (Hk _ _ Hlk). reflexivity.
Qed.

Lemma GetTypeId_new o r t :
  first_requests o r -> t ∉ o ->
  exists r', GetTypeId t r = (uint16 (Z.of_nat (length o) + 1), r')
             /\ first_requests (o ++ [t]) r'.
Proof.
  intros (Hnd & Hc & Hno & Hk) Hnew. unfold GetTypeId, GetTypeId_.
  rewrite (Hno _ Hnew), Hc. eexists. split.
  - f_equal. unfold uint16. rewrite Zplus_mod_idemp_l. reflexivity.
  - repeat split; cbn.
    + apply NoDup_app. repeat split; [done| |apply NoDup_singleton].
      intros x Hx ->%list_elem_of_singleton. done.
    + rewrite length_app. cbn. unfold uint16. rewrite Zplus_mod_idemp_l.
      f_equal. lia.
    + intros t' Hn. rewrite elem_of_app, list_elem_of_singleton in Hn.
      destruct (decide (t' = t)) as [->|]; [tauto|]. apply Hno. tauto.
    + intros k t' Hlk. apply lookup_app_Some in Hlk as [Hlk|[Hge Hlk]].
      * destruct (decide (t' = t)) as [->|].
        { exfalso. apply Hnew. eapply list_elem_of_lookup_2. exact Hlk. }
        apply Hk. exact Hlk.
      * apply list_lookup_singleton_Some in Hlk as [Hz <-].
        destruct (decide (t = t)); [|done].
        unfold uint16. rewrite Zplus_mod_idemp_l. do 2 f_equal. lia.
Qed.

(** A request either finds the id assigned earlier or takes the next one. *)
Lemma GetTypeId_step o r t :
  first_requests o r ->
  exists o' r' k, GetTypeId t r = (uint16 (Z.of_nat k + 1), r')
    /\ first_requests o' r' /\ o' !! k = Some t
    /\ (o' = o \/ ((t ∉ o) /\ o' = o ++ [t])).
Proof.
  intros Hfr. destruct (decide (t ∈ o)) as [Hin|Hnew].
  - apply list_elem_of_lookup_1 in Hin as [k Hlk].
    exists o, r, k. rewrite (GetTypeId_known _ _ _ _ Hfr Hlk). auto.
  - destruct (GetTypeId_new _ _ _ Hfr Hnew) as (r' & E & Hfr').
    exists (o ++ [t]), r', (length o). split; [done|]. split; [done|]. split; [|auto].
    rewrite lookup_app_r, Nat.sub_diag by lia. reflexivity.
Qed.

End RegistryFacts.

Section RegistryRuns.
Context {T : Type} `{EqDecision T}.
Implicit Types (r : FxSerializeUtil T) (t : T) (o l : list T).

Lemma first_request_order_cons o t l :
  first_request_order o (t :: l)
  = first_request_order (if decide (t ∈ o) then o else o ++ [t]) l.
Proof. reflexivity. Qed.

Lemma first_request_order_prefix o l : o `prefix_of` first_request_order o l.
Proof.
  revert o. induction l as [|t l IH]; intros o; [done|].
  rewrite first_request_order_cons.
  destruct (decide (t ∈ o)); [apply IH|].
  etrans; [|apply IH]. by apply prefix_app_r.
Qed.

Lemma first_request_order_NoDup o l :
  NoDup (o ++ l) -> first_request_order o l = o ++ l.
Proof.
  revert o. induction l as [|t l IH]; intros o Hnd.
  - by rewrite app_nil_r.
  - rewrite first_request_order_cons.
    apply NoDup_app in Hnd as Hnd'. destruct Hnd' as (_ & Hdisj & _).
    destruct (decide (t ∈ o)) as [Hin|_].
    + exfalso. apply (Hdisj _ Hin). left.
    + rewrite IH, <- app_assoc; [done|]. by rewrite <- app_assoc.
Qed.

(** Every request of a run returns the rank of its type in the order of
    first requests, plus one, reduced to 16 bits. *)
Lemma requests_rank l : forall o r,
  first_requests o r ->
  first_requests (first_request_order o l) (requests l r).2
  /\ forall i t, l !! i = Some t ->
       exists k, first_request_order o l !! k = Some t
                 /\ (requests l r).1 !! i = Some (uint16 (Z.of_nat k + 1)).
Proof.
  induction l as [|t l IH]; intros o r Hfr.
  - split; [done|]. intros i t Hlk. by rewrite lookup_nil in Hlk.
  - rewrite first_request_order_cons. cbn [requests].
    destruct (GetTypeId_step o r t Hfr) as (o' & r' & k & E & Hfr' & Hk & Ho').
    rewrite E.
    assert (o' = if decide (t ∈ o) then o else o ++ [t]) as Eo.
    { destruct Ho' as [->|[Hn ->]].
      - destruct (decide (t ∈ o)) as [|Hn]; [done|].
        exfalso. apply Hn. eapply list_elem_of_lookup_2. exact Hk.
      - destruct (decide (t ∈ o)); done. }
    rewrite <- Eo. destruct (IH o' r' Hfr') as [Hfin Hids].
    destruct (requests l r') as [ids r''] eqn:El. cbn in *.
    split; [done|]. intros [|i] t' Hlk; cbn in *.
    + injection Hlk as <-. exists k. split; [|done].
      eapply prefix_lookup_Some; [exact Hk|apply first_request_order_prefix].
    + apply Hids. exact Hlk.
Qed.

Lemma rank_unique o k1 k2 t :
  NoDup o -> o !! k1 = Some t -> o !! k2 = Some t -> k1 = k2.
Proof. intros Hnd H1 H2. eapply NoDup_lookup; eauto. Qed.

End RegistryRuns.

Lemma requests_length {T : Type} `{EqDecision T} (l : list T) (r : FxSerializeUtil T) :
  length (requests l r).1 = length l.
Proof.
  revert r. induction l as [|t l IH]; intros r; [done|]. cbn.
  destruct (GetTypeId t r) as [i r1]. specialize (IH r1).
  destruct (requests l r1) as [ids r2]. cbn in *. by rewrite IH.
Qed.

(** C8 (amended).  Over one registry lifetime in which fewer than 65536
    distinct types request an id: repeated requests for a type return the
    same id; distinct types get distinct ids; the k-th distinct type to ask
    (counting from 0, in the order of first requests) gets id k + 1; and no
    request returns 0. *)
Theorem GetTypeId_idempotent_injective_sequential
    {T : Type} `{EqDecision T} (l : list T) :
  Z.of_nat (length (distinct_types l)) < 2 ^ 16 ->
  (forall i j t, l !! i = Some t -> l !! j = Some t ->
     ids_of_run l !! i = ids_of_run l !! j)
  /\ (forall i j t u, l !! i = Some t -> l !! j = Some u -> t ≠ u ->
       ids_of_run l !! i ≠ ids_of_run l !! j)
  /\ (NoDup (distinct_types l) /\ forall i t, l !! i = Some t ->
        exists k, distinct_types l !! k = Some t
                  /\ ids_of_run l !! i = Some (Z.of_nat k + 1))
  /\ (forall i, ids_of_run l !! i ≠ Some 0).
Proof.
  intros Hlt. unfold distinct_types, ids_of_run in *.
  set (o := first_request_order [] l) in *.
  set (ids := (requests l registry_init).1).
  destruct (requests_rank l [] registry_init first_requests_init) as [Hfr Hids].
  fold o in Hfr, Hids. fold ids in Hids.
  pose proof Hfr as (Hnd & _).
  assert (forall i t, l !! i = Some t ->
            exists k, o !! k = Some t /\ ids !! i = Some (Z.of_nat k + 1)) as Hseq.
  { intros i t Hlk. destruct (Hids i t Hlk) as (k & Hk & Hi). exists k. split; [done|].
    rewrite Hi. f_equal. apply uint16_id. apply lookup_lt_Some in Hk.
    unfold is_uint16. lia. }
  split; [|split; [|split; [done|]]].
  - intros i j t Hi Hj.
    destruct (Hseq i t Hi) as (k1 & Hk1 & ->), (Hseq j t Hj) as (k2 & Hk2 & ->).
    by rewrite (rank_unique o k1 k2 t).
  - intros i j t u Hi Hj Hne.
    destruct (Hseq i t Hi) as (k1 & Hk1 & ->), (Hseq j u Hj) as (k2 & Hk2 & ->).
    intros [= E]. apply Hne. assert (k1 = k2) as -> by lia. congruence.
  - intros i Hi0. destruct (l !! i) as [t|] eqn:Hlk.
    + destruct (Hseq i t Hlk) as (k & _ & E). rewrite E in Hi0.
      injection Hi0. lia.
    + apply lookup_ge_None in Hlk. apply lookup_lt_Some in Hi0.
      unfold ids in Hi0. rewrite requests_length in Hi0. lia.
Qed.

Lemma GetTypeId_idempotent_injective_sequential_witness :
  (forall i j t, example_run !! i = Some t -> example_run !! j = Some t ->
     ids_of_run example_run !! i = ids_of_run example_run !! j)
  /\ (forall i j t u, example_run !! i = Some t -> example_run !! j = Some u -> t ≠ u ->
       ids_of_run example_run !! i ≠ ids_of_run example_run !! j)
  /\ (NoDup (distinct_types example_run) /\ forall i t, example_run !! i = Some t ->
        exists k, distinct_types example_run !! k = Some t
                  /\ ids_of_run example_run !! i = Some (Z.of_nat k + 1))
  /\ (forall i, ids_of_run example_run !! i ≠ Some 0).
Proof.
  apply (GetTypeId_idempotent_injective_sequential example_run).
  vm_compute. reflexivity.
Defined.

(** C8 as stated fails: [SerializeTypeIdCount] is a [uint16].  With 65537
    distinct types (here the numbers 0 to 65536), each requesting once, the
    65536th request returns id 0 and the 65537th returns id 1, the id of
    the first type. *)
Lemma GetTypeId_counterexample :
  (types_65537 !! Z.to_nat 65535 = Some (Z.to_nat 65535)
   /\ ids_of_run types_65537 !! Z.to_nat 65535 = Some 0)
  /\ (types_65537 !! 0%nat = Some 0%nat
      /\ ids_of_run types_65537 !! 0%nat = Some 1)
  /\ (types_65537 !! Z.to_nat 65536 = Some (Z.to_nat 65536)
      /\ ids_of_run types_65537 !! Z.to_nat 65536 = Some 1).
Proof.
  unfold ids_of_run, types_65537.
  set (l := seq 0 (Z.to_nat 65537)). set (ids := (requests l registry_init).1).
  destruct (requests_rank l [] registry_init first_requests_init) as [_ Hids].
  rewrite first_request_order_NoDup in Hids by apply NoDup_seq.
  fold ids in Hids. change ([] ++ l) with l in Hids.
  assert (forall i, (i < Z.to_nat 65537)%nat ->
            l !! i = Some i /\ ids !! i = Some (uint16 (Z.of_nat i + 1))) as Hall.
  { intros i Hi. assert (l !! i = Some i) as Hl by (apply lookup_seq; lia).
    split; [done|]. destruct (Hids i i Hl) as (k & Hk & ->).
    apply lookup_seq in Hk as [E _]. cbn in E. by subst. }
  split; [|split].
  - destruct (Hall (Z.to_nat 65535)) as [-> ->]; [lia|]. split; [done|].
    rewrite Z2Nat.id by lia. reflexivity.
  - destruct (Hall 0%nat) as [-> ->]; [lia|]. split; reflexivity.
  - destruct (Hall (Z.to_nat 65536)) as [-> ->]; [lia|]. split; [done|].
    rewrite Z2Nat.id by lia. reflexivity.
Qed.

(** ** The schema lookups leave the cursor where it was *)

Lemma moves_cursor_only_bind {A B : Type} s (m : Res (A * FxSerializerBaseSection))
    (k : A * FxSerializerBaseSection -> Res (B * FxSerializerBaseSection)) :
  moves_cursor_only s m ->
  (forall a s', Data s' = Data s -> Size s' = Size s -> moves_cursor_only s (k (a, s'))) ->
  moves_cursor_only s (m ≫= k).
Proof.
  destruct m as [[a s']|f]; cbn; [|done]. intros [HD HS] Hk. by apply Hk.
Qed.

Lemma moves_cursor_only_eq {A : Type} s1 s2 (m : Res (A * FxSerializerBaseSection)) :
  Data s1 = Data s2 -> Size s1 = Size s2 ->
  moves_cursor_only s1 m -> moves_cursor_only s2 m.
Proof.
  intros HD HS. destruct m as [[a s']|f]; cbn; [|done]. intros [? ?]. split; congruence.
Qed.

Lemma Read8_cursor s : moves_cursor_only s (Read8 s).
Proof.
  unfold Read8. destruct (decide _); [|done].
  destruct (load (Data s) (Index s)); cbn; done.
Qed.

Lemma Read16_cursor s : moves_cursor_only s (Read16 s).
Proof.
  unfold Read16. destruct (decide _); [|done].
  destruct (load (Data s) (Index s)); cbn; [|done]. destruct (load _ _); cbn; done.
Qed.

Lemma Read32_cursor s : moves_cursor_only s (Read32 s).
Proof.
  unfold Read32. apply moves_cursor_only_bind; [apply Read16_cursor|].
  intros h s1 HD HS. cbn. apply moves_cursor_only_bind.
  - eapply moves_cursor_only_eq; [..|apply Read16_cursor]; done.
  - intros l s2 HD2 HS2. cbn. done.
Qed.

Ltac cursor_step lem :=
  apply moves_cursor_only_bind;
  [ eapply moves_cursor_only_eq; [..|apply lem]; congruence
  | let HD := fresh "HD" in let HS := fresh "HS" in
    intros ? ? HD HS; cbn ].

Lemma skip_members_cursor n : forall s,
  match skip_members n s with
  | Ok s' => Data s' = Data s /\ Size s' = Size s
  | Abort _ => True
  end.
Proof.
  induction n as [|n IH]; intros s; cbn; [done|].
  pose proof (Read16_cursor s) as H1.
  destruct (Read16 s) as [[x s1]|]; cbn in *; [|done]. destruct H1 as [HD1 HS1].
  pose proof (Read16_cursor s1) as H2.
  destruct (Read16 s1) as [[y s2]|]; cbn in *; [|done]. destruct H2 as [HD2 HS2].
  specialize (IH s2). destruct (skip_members n s2); [|done].
  destruct IH. split; congruence.
Qed.

Lemma find_loop_cursor fuel id : forall entry_index s,
  moves_cursor_only s (find_loop fuel id entry_index s).
Proof.
  induction fuel as [|fuel IH]; intros entry_index s; cbn.
  - destruct (decide _); cbn; done.
  - destruct (decide _); [|cbn; done].
    cursor_step Read8_cursor. destruct (decide _); [cbn; done|].
    cursor_step Read16_cursor. destruct (decide _); [cbn; done|].
    cursor_step Read16_cursor. cursor_step Read8_cursor.
    match goal with |- context [skip_members ?n ?s0] =>
      pose proof (skip_members_cursor n s0) as Hsk;
      destruct (skip_members n s0) as [s5|]; cbn; [|done] end.
    destruct Hsk as [HD5 HS5].
    cursor_step Read8_cursor. destruct (decide _); [cbn; split; congruence|].
    eapply moves_cursor_only_eq; [..|apply IH]; congruence.
Qed.

Lemma set_Index_restore s s' :
  Data s' = Data s -> Size s' = Size s -> set_Index (Index s) s' = s.
Proof. destruct s, s'. unfold set_Index. cbn. by intros -> ->. Qed.

Lemma FindIndexFromTypeId_restores id s : restores s (FindIndexFromTypeId id s).
Proof.
  unfold FindIndexFromTypeId.
  pose proof (find_loop_cursor (S (Z.to_nat (Size s))) (uint16 id) 0 (set_Index 0 s)) as H.
  destruct (find_loop _ _ _ _) as [[r s']|]; [|done].
  cbn in *. destruct H. by apply set_Index_restore.
Qed.

#[local] Arguments FindIndexFromTypeId : simpl never.

Lemma read_members_cursor
    (rec : Z -> FxSerializerBaseSection -> Res (FxSerializedType * FxSerializerBaseSection)) :
  (forall index s, restores s (rec index s)) ->
  forall n Members s, moves_cursor_only s (read_members rec n Members s).
Proof.
  intros Hrec. induction n as [|n IH]; intros Members s; cbn; [done|].
  cursor_step Read16_cursor. cursor_step Read16_cursor.
  match goal with |- context [FindIndexFromTypeId ?i ?s0] =>
    pose proof (FindIndexFromTypeId_restores i s0) as HF;
    destruct (FindIndexFromTypeId i s0) as [[mi s3]|]; cbn in *; [|done] end.
  subst s3.
  match goal with |- context [rec ?i ?s0] =>
    pose proof (Hrec i s0) as HR;
    destruct (rec i s0) as [[m s4]|]; cbn in *; [|done] end.
  subst s4. eapply moves_cursor_only_eq; [..|apply IH]; congruence.
Qed.

Lemma ReadType_restores fuel : forall index s, restores s (ReadType fuel index s).
Proof.
  induction fuel as [|fuel IH]; intros index s; cbn; [done|].
  assert (forall A (m : Res (A * FxSerializerBaseSection)) B
            (k : A * FxSerializerBaseSection -> Res (B * FxSerializerBaseSection)),
            moves_cursor_only s m ->
            (forall a s', Data s' = Data s -> Size s' = Size s -> restores s (k (a, s'))) ->
            restores s (m ≫= k)) as Hbind.
  { intros A [[a s']|f] B k; cbn; [|done]. intros [HD HS] Hk. by apply Hk. }
  apply Hbind; [eapply (moves_cursor_only_eq (set_Index (uint32 index) s));
                [..|apply Read8_cursor]; done|].
  intros h s1 HD1 HS1. cbn. destruct (decide _); [cbn; by apply set_Index_restore|].
  apply Hbind; [eapply moves_cursor_only_eq; [..|apply Read16_cursor]; done|].
  intros ti s2 HD2 HS2. cbn.
  apply Hbind; [eapply moves_cursor_only_eq; [..|apply Read16_cursor]; done|].
  intros tsz s3 HD3 HS3. cbn.
  apply Hbind; [eapply moves_cursor_only_eq; [..|apply Read8_cursor]; done|].
  intros nm s4 HD4 HS4. cbn.
  apply Hbind; [eapply moves_cursor_only_eq; [..|apply (read_members_cursor _ IH)]; done|].
  intros ms s5 HD5 HS5. cbn.
  apply Hbind; [eapply moves_cursor_only_eq; [..|apply Read8_cursor]; done|].
  intros ft s6 HD6 HS6. cbn. by apply set_Index_restore.
Qed.

(** C10.  [FindIndexFromTypeId] and [ReadType] hand the section back with
    the cursor (and everything else) as it was before the call, on every
    path on which they return: found, not found, marker mismatch, and at
    every depth of the recursive resolution of a schema tree. *)
Theorem lookups_restore_Index :
  (forall id s, restores s (FindIndexFromTypeId id s))
  /\ (forall fuel index s, restores s (ReadType fuel index s)).
Proof. split; [apply FindIndexFromTypeId_restores|apply ReadType_restores]. Qed.

(** ** [FindIndexFromTypeId] on a section of schema entries *)

Lemma Read8_step b rest r :
  wf_section r -> bytes_at r (b :: rest) ->
  Read8 r = Ok (uint8 b, advance 1 r)
  /\ wf_section (advance 1 r) /\ bytes_at (advance 1 r) rest.
Proof.
  intros Hwf Hb. split; [by eapply Read8_at|].
  apply bytes_at_cons in Hb as (_ & Hfit & Hb); [|done].
  split; [apply wf_advance; [done|lia..]|done].
Qed.

Lemma Read16_step v rest r :
  wf_section r -> bytes_at r (be16 v ++ rest) ->
  Read16 r = Ok (uint16 v, advance 2 r)
  /\ wf_section (advance 2 r) /\ bytes_at (advance 2 r) rest.
Proof.
  intros Hwf Hb. split; [by eapply Read16_be16|].
  apply bytes_at_app in Hb as (_ & Hfit & Hb); [|done].
  rewrite be16_length in *. split; [apply wf_advance; [done|lia..]|done].
Qed.

Lemma Read32_step v rest r :
  wf_section r -> bytes_at r (be32 v ++ rest) ->
  Read32 r = Ok (uint32 v, advance 4 r)
  /\ wf_section (advance 4 r) /\ bytes_at (advance 4 r) rest.
Proof.
  intros Hwf Hb. split; [by eapply Read32_be32|].
  apply bytes_at_app in Hb as (_ & Hfit & Hb); [|done].
  rewrite be32_length in *. split; [apply wf_advance; [done|lia..]|done].
Qed.

Lemma encode_member_length m : length (encode_member m) = 4%nat.
Proof. reflexivity. Qed.

Lemma encode_members_length ms :
  length (concat (map encode_member ms)) = (4 * length ms)%nat.
Proof. induction ms as [|m ms IH]; [done|]. cbn [map concat]. rewrite length_app, IH. cbn. lia. Qed.

Lemma entry_body_length e :
  length (entry_body e) = (6 + 4 * length (entry_members e))%nat.
Proof.
  unfold entry_body. rewrite !length_app, encode_members_length. cbn. lia.
Qed.

Lemma encode_entry_length e :
  length (encode_entry e) = (7 + 4 * length (entry_members e))%nat.
Proof.
  unfold encode_entry. rewrite length_app, entry_body_length. cbn. lia.
Qed.

Lemma skip_members_step ms : forall rest r,
  wf_section r -> bytes_at r (concat (map encode_member ms) ++ rest) ->
  skip_members (length ms) r = Ok (advance (4 * Z.of_nat (length ms)) r)
  /\ wf_section (advance (4 * Z.of_nat (length ms)) r)
  /\ bytes_at (advance (4 * Z.of_nat (length ms)) r) rest.
Proof.
  induction ms as [|[msz mid] ms IH]; intros rest r Hwf Hb.
  - cbn in *. rewrite advance_0. done.
  - cbn [map concat length skip_members] in *. unfold encode_member in Hb at 1.
    cbn [fst snd] in Hb. rewrite <- !app_assoc in Hb.
    destruct (Read16_step _ _ _ Hwf Hb) as (-> & Hwf1 & Hb1). cbn.
    destruct (Read16_step _ _ _ Hwf1 Hb1) as (-> & Hwf2 & Hb2). cbn.
    rewrite advance_advance in *.
    destruct (IH _ _ Hwf2 Hb2) as (-> & Hwf3 & Hb3).
    rewrite advance_advance in *.
    replace (4 * Z.of_nat (S (length ms))) with (2 + 2 + 4 * Z.of_nat (length ms)) by lia.
    done.
Qed.

Lemma bytes_at_nonempty b rest r :
  wf_section r -> bytes_at r (b :: rest) -> Index r < Size r.
Proof. intros Hwf Hb. apply bytes_at_cons in Hb as (_ & ? & _); [lia|done]. Qed.

Lemma uint8_header : uint8 TypeIdentHeader = TypeIdentHeader.
Proof. reflexivity. Qed.

Lemma uint8_footer : uint8 TypeIdentFooter = TypeIdentFooter.
Proof. reflexivity. Qed.

(** One turn of the loop over an entry with another id whose end marker
    is the byte [b]. *)
Lemma find_loop_body fuel id entry_index e b rest r :
  wf_section r -> bytes_at r (entry_body e ++ b :: rest) ->
  uint16 (entry_id e) ≠ id -> (length (entry_members e) < 256)%nat ->
  find_loop (S fuel) id entry_index r
  = (if decide (uint8 b ≠ TypeIdentFooter)
     then Ok (Index r, advance (Z.of_nat (length (entry_body e)) + 1) r)
     else find_loop fuel id (Index r) (advance (Z.of_nat (length (entry_body e)) + 1) r))
  /\ wf_section (advance (Z.of_nat (length (entry_body e)) + 1) r)
  /\ bytes_at (advance (Z.of_nat (length (entry_body e)) + 1) r) rest.
Proof.
  intros Hwf Hb Hid Hn.
  assert (Z.of_nat (length (entry_body e)) + 1
          = 1 + (2 + (2 + (1 + (4 * Z.of_nat (length (entry_members e)) + 1))))) as ->
    by (rewrite entry_body_length; lia).
  unfold entry_body in Hb. rewrite <- !app_assoc in Hb. cbn [app] in Hb.
  cbn [find_loop]. destruct (decide _) as [_|Hge];
    [|exfalso; apply Hge; by eapply bytes_at_nonempty].
  destruct (Read8_step _ _ _ Hwf Hb) as (-> & Hwf1 & Hb1). cbn.
  rewrite uint8_header. destruct (decide _) as [|_]; [done|].
  destruct (Read16_step _ _ _ Hwf1 Hb1) as (-> & Hwf2 & Hb2). cbn.
  destruct (decide _) as [|_]; [done|].
  destruct (Read16_step _ _ _ Hwf2 Hb2) as (-> & Hwf3 & Hb3). cbn.
  destruct (Read8_step _ _ _ Hwf3 Hb3) as (-> & Hwf4 & Hb4). cbn.
  rewrite uint8_idemp, (uint8_id (Z.of_nat _)) by (unfold is_uint8; lia).
  rewrite Nat2Z.id.
  destruct (skip_members_step _ _ _ Hwf4 Hb4) as (-> & Hwf5 & Hb5). cbn.
  destruct (Read8_step _ _ _ Hwf5 Hb5) as (-> & Hwf6 & Hb6). cbn.
  rewrite !advance_advance in *. done.
Qed.

Lemma find_loop_step fuel id entry_index e rest r :
  wf_section r -> bytes_at r (encode_entry e ++ rest) ->
  uint16 (entry_id e) ≠ id -> (length (entry_members e) < 256)%nat ->
  find_loop (S fuel) id entry_index r
  = find_loop fuel id (Index r) (advance (Z.of_nat (length (encode_entry e))) r)
  /\ wf_section (advance (Z.of_nat (length (encode_entry e))) r)
  /\ bytes_at (advance (Z.of_nat (length (encode_entry e))) r) rest.
Proof.
  intros Hwf Hb Hid Hn. unfold encode_entry in *.
  rewrite <- app_assoc in Hb. cbn [app] in Hb.
  destruct (find_loop_body fuel id entry_index e _ rest r Hwf Hb Hid Hn) as (E & Hwf1 & Hb1).
  rewrite uint8_footer in E. destruct (decide _) as [|_] in E; [done|].
  rewrite length_app, Nat2Z.inj_add. done.
Qed.

(** The loop over a run of entries with other ids. *)
Lemma find_loop_steps id es : forall fuel entry_index rest r,
  wf_section r -> bytes_at r (encode_entries es ++ rest) ->
  Forall (steps_over id) es ->
  find_loop (length es + fuel) (uint16 id) entry_index r
  = find_loop fuel (uint16 id) (scan_entry_index entry_index (Index r) es)
      (advance (Z.of_nat (length (encode_entries es))) r)
  /\ wf_section (advance (Z.of_nat (length (encode_entries es))) r)
  /\ bytes_at (advance (Z.of_nat (length (encode_entries es))) r) rest.
Proof.
  induction es as [|e es IH]; intros fuel entry_index rest r Hwf Hb Hall.
  - cbn in *. rewrite advance_0. done.
  - apply Forall_cons in Hall as [[Hid Hn] Hall].
    unfold encode_entries in *. cbn [map concat length Nat.add] in *.
    rewrite <- app_assoc in Hb.
    destruct (find_loop_step (length es + fuel) (uint16 id) entry_index e _ r Hwf Hb Hid Hn)
      as (-> & Hwf1 & Hb1).
    destruct (IH fuel (Index r) rest _ Hwf1 Hb1 Hall) as (-> & Hwf2 & Hb2).
    rewrite advance_advance in *. rewrite length_app, Nat2Z.inj_add.
    cbn [scan_entry_index advance set_Index Index]. done.
Qed.

Lemma wf_rewind s : wf_section s -> wf_section (set_Index 0 s).
Proof. unfold wf_section. cbn. lia. Qed.

Lemma bytes_at_rewind s : bytes_at (set_Index 0 s) (Data s).
Proof. unfold bytes_at. cbn. apply firstn_all. Qed.

Lemma encode_entries_length_ge es : (length es <= length (encode_entries es))%nat.
Proof.
  induction es as [|e es IH]; [done|]. unfold encode_entries in *. cbn [map concat].
  rewrite length_app, encode_entry_length. cbn [length]. lia.
Qed.

(** The outcome of a lookup, once the loop has returned. *)
Lemma FindIndexFromTypeId_of_loop id s entry_index offset s' :
  find_loop (S (Z.to_nat (Size s))) (uint16 id) 0 (set_Index 0 s) = Ok (entry_index, s') ->
  entry_index = offset ->
  FindIndexFromTypeId id s = Ok (offset, s).
Proof.
  intros E <-. pose proof (FindIndexFromTypeId_restores id s) as H.
  unfold FindIndexFromTypeId in *. rewrite E in *. cbn in *. by rewrite H.
Qed.

(** C4 (amended).  On a section that starts with well-formed entries [es]
    with other ids, the lookup steps over them and then
    - at a byte that is not the 0xEF marker, or at an entry whose end
      marker is not 0xBE, stops and returns the offset at which that entry
      starts (0 when it is the first one);
    - at an entry with the searched id, returns the offset of this entry;
    - at the end of the buffer, returns the offset of the last entry it
      stepped over (0 when there is none).
    In each case the result is an offset of the same kind; nothing in it
    tells a marker mismatch from a hit or from an exhausted scan. *)
Theorem FindIndexFromTypeId_returns_offset
    (s : FxSerializerBaseSection) (id : Z) (es : list SchemaEntry) (tail : list Z) :
  wf_section s -> Data s = encode_entries es ++ tail -> Forall (steps_over id) es ->
  (forall b tl, tail = b :: tl -> uint8 b ≠ TypeIdentHeader ->
     FindIndexFromTypeId id s = Ok (Z.of_nat (length (encode_entries es)), s))
  /\ (forall e b tl, tail = entry_body e ++ b :: tl -> steps_over id e ->
        uint8 b ≠ TypeIdentFooter ->
        FindIndexFromTypeId id s = Ok (Z.of_nat (length (encode_entries es)), s))
  /\ (forall e tl, tail = encode_entry e ++ tl -> uint16 (entry_id e) = uint16 id ->
        FindIndexFromTypeId id s = Ok (Z.of_nat (length (encode_entries es)), s))
  /\ (tail = [] -> FindIndexFromTypeId id s = Ok (scan_entry_index 0 0 es, s)).
Proof.
  intros Hwf HD Hall.
  pose proof (wf_rewind s Hwf) as Hwf0.
  pose proof (bytes_at_rewind s) as Hb0. rewrite HD in Hb0.
  assert (exists fuel, S (Z.to_nat (Size s)) = (length es + S fuel)%nat) as [fuel Hfuel].
  { exists (Z.to_nat (Size s) - length es)%nat.
    pose proof (encode_entries_length_ge es) as Hl.
    destruct Hwf as (HS & _). rewrite HD, length_app in HS. lia. }
  destruct (find_loop_steps id es (S fuel) 0 tail _ Hwf0 Hb0 Hall) as (E & Hwf1 & Hb1).
  rewrite <- Hfuel in E. cbn [set_Index Index] in E.
  set (n := Z.of_nat (length (encode_entries es))) in *.
  assert (Index (advance n (set_Index 0 s)) = n) as Hidx by (cbn; lia).
  split; [|split; [|split]].
  - intros b tl -> Hne. eapply FindIndexFromTypeId_of_loop; [|exact Hidx]. rewrite E.
    cbn [find_loop]. destruct (decide _) as [_|Hge];
      [|exfalso; apply Hge; by eapply bytes_at_nonempty].
    destruct (Read8_step _ _ _ Hwf1 Hb1) as (-> & _). cbn [mbind Res_bind].
    destruct (decide _) as [_|]; [|done]. reflexivity.
  - intros e b tl -> [Hid Hn] Hne.
    destruct (find_loop_body fuel (uint16 id) (scan_entry_index 0 0 es) e b tl _
                Hwf1 Hb1 Hid Hn) as (E2 & _).
    destruct (decide _) as [_|] in E2; [|done].
    eapply FindIndexFromTypeId_of_loop; [|exact Hidx]. rewrite E, E2. reflexivity.
  - intros e tl -> Hid. eapply FindIndexFromTypeId_of_loop; [|exact Hidx]. rewrite E.
    unfold encode_entry, entry_body in Hb1. rewrite <- !app_assoc in Hb1. cbn [app] in Hb1.
    cbn [find_loop]. destruct (decide _) as [_|Hge];
      [|exfalso; apply Hge; by eapply bytes_at_nonempty].
    destruct (Read8_step _ _ _ Hwf1 Hb1) as (-> & Hwf2 & Hb2). cbn [mbind Res_bind].
    rewrite uint8_header. destruct (decide _) as [Hx|_]; [by destruct Hx|].
    destruct (Read16_step _ _ _ Hwf2 Hb2) as (-> & _). cbn [mbind Res_bind].
    destruct (decide _) as [_|]; [|done]. reflexivity.
  - intros ->. eapply FindIndexFromTypeId_of_loop; [|reflexivity]. rewrite E.
    rewrite app_nil_r in HD. destruct Hwf as (HS & _).
    cbn [find_loop]. destruct (decide _) as [Hlt|_]; [|reflexivity].
    exfalso. rewrite Hidx in Hlt. cbn in Hlt. rewrite HD in HS. lia.
Qed.

Lemma FindIndexFromTypeId_returns_offset_witness :
  (forall b tl, encode_entry entry_1 ++ [0] = b :: tl -> uint8 b ≠ TypeIdentHeader ->
     FindIndexFromTypeId 1 two_entry_section
     = Ok (Z.of_nat (length (encode_entries [entry_3])), two_entry_section))
  /\ (forall e b tl, encode_entry entry_1 ++ [0] = entry_body e ++ b :: tl ->
        steps_over 1 e -> uint8 b ≠ TypeIdentFooter ->
        FindIndexFromTypeId 1 two_entry_section
        = Ok (Z.of_nat (length (encode_entries [entry_3])), two_entry_section))
  /\ (forall e tl, encode_entry entry_1 ++ [0] = encode_entry e ++ tl ->
        uint16 (entry_id e) = uint16 1 ->
        FindIndexFromTypeId 1 two_entry_section
        = Ok (Z.of_nat (length (encode_entries [entry_3])), two_entry_section))
  /\ (encode_entry entry_1 ++ [0] = [] ->
      FindIndexFromTypeId 1 two_entry_section
      = Ok (scan_entry_index 0 0 [entry_3], two_entry_section)).
Proof.
  apply (FindIndexFromTypeId_returns_offset two_entry_section 1 [entry_3]
           (encode_entry entry_1 ++ [0])).
  - unfold wf_section. cbn. lia.
  - reflexivity.
  - constructor; [|constructor].
    split; [vm_compute; discriminate|cbn; lia].
Defined.

(** C4 as stated fails.  A first byte that is not 0xEF makes the lookup
    return 0, the failing position; a section that holds exactly the entry
    of type 1 makes the lookup of type 1 (a hit) and the lookup of type 2
    (an exhausted scan) return 0 as well. *)
Lemma FindIndexFromTypeId_counterexample :
  load (Data corrupt_section) 0 = Ok 0
  /\ FindIndexFromTypeId 1 corrupt_section = Ok (0, corrupt_section)
  /\ FindIndexFromTypeId 1 one_entry_section = Ok (0, one_entry_section)
  /\ FindIndexFromTypeId 2 one_entry_section = Ok (0, one_entry_section).
Proof. repeat split; vm_compute; reflexivity. Qed.

(** The lookups do return on each path: hit, absent id ending in the free
    byte (a marker mismatch), and a schema tree with members. *)
Example FindIndexFromTypeId_paths :
  FindIndexFromTypeId 1 two_entry_section = Ok (7, two_entry_section)
  /\ FindIndexFromTypeId 9 two_entry_section = Ok (22, two_entry_section)
  /\ FindIndexFromTypeId 2 one_entry_section = Ok (0, one_entry_section).
Proof. repeat split; vm_compute; reflexivity. Qed.

Example ReadType_paths :
  ReadType 2 7 two_entry_section
  = Ok (mkSerializedType 1 8 [mkSerializedType 3 4 []; mkSerializedType 3 4 []],
        two_entry_section)
  /\ ReadType 1 22 two_entry_section = Ok (mkSerializedType 0 0 [], two_entry_section)
  /\ ReadType 1 7 two_entry_section = Abort OutOfFuel.
Proof. repeat split; vm_compute; reflexivity. Qed.

(** The loop of [FindIndexFromTypeId] ends: every turn moves the cursor
    forward inside the buffer. *)
Lemma Read8_ok s b s' :
  wf_section s -> Read8 s = Ok (b, s') ->
  wf_section s' /\ Index s' = Index s + 1 /\ Size s' = Size s.
Proof.
  unfold wf_section, Read8, load. intros (Hl & Hi & Hs).
  destruct (decide _); [|discriminate].
  destruct (Data s !! Z.to_nat (Index s)) eqn:Hlk; [|discriminate]. cbn.
  intros [= <- <-]. apply lookup_lt_Some in Hlk. cbn.
  rewrite (uint32_id (Index s + 1)) by (unfold is_uint32; lia). lia.
Qed.

Lemma Read16_ok s v s' :
  wf_section s -> Read16 s = Ok (v, s') ->
  wf_section s' /\ Index s' = Index s + 2 /\ Size s' = Size s.
Proof.
  unfold wf_section, Read16, load. intros (Hl & Hi & Hs).
  destruct (decide _); [|discriminate].
  destruct (Data s !! Z.to_nat (Index s)) eqn:Hlk1; [|discriminate]. cbn.
  apply lookup_lt_Some in Hlk1.
  rewrite (uint32_id (Index s + 1)) by (unfold is_uint32; lia).
  destruct (Data s !! Z.to_nat (Index s + 1)) eqn:Hlk2; [|discriminate]. cbn.
  apply lookup_lt_Some in Hlk2.
  intros [= <- <-]. cbn.
  rewrite (uint32_id (Index s + 1 + 1)) by (unfold is_uint32; lia). lia.
Qed.

Lemma Read8_fault s f : Read8 s = Abort f -> f ≠ OutOfFuel.
Proof.
  unfold Read8, load. destruct (decide _); [|by intros [= <-]].
  destruct (Data s !! _); cbn; [discriminate|by intros [= <-]].
Qed.

Lemma Read16_fault s f : Read16 s = Abort f -> f ≠ OutOfFuel.
Proof.
  unfold Read16, load. destruct (decide _); [|by intros [= <-]].
  destruct (Data s !! Z.to_nat (Index s)); cbn; [|by intros [= <-]].
  destruct (Data s !! _); cbn; [discriminate|by intros [= <-]].
Qed.

Lemma skip_members_ok n : forall s,
  wf_section s ->
  match skip_members n s with
  | Ok s' => wf_section s' /\ Index s <= Index s' /\ Size s' = Size s
  | Abort f => f ≠ OutOfFuel
  end.
Proof.
  induction n as [|n IH]; intros s Hwf; cbn; [split; [done|lia]|].
  destruct (Read16 s) as [[x s1]|f] eqn:E1; cbn; [|by eapply Read16_fault].
  apply Read16_ok in E1 as (Hwf1 & Hi1 & HS1); [|done].
  destruct (Read16 s1) as [[y s2]|f] eqn:E2; cbn; [|by eapply Read16_fault].
  apply Read16_ok in E2 as (Hwf2 & Hi2 & HS2); [|done].
  specialize (IH s2 Hwf2). destruct (skip_members n s2); [|done].
  destruct IH as (? & ? & ?). split; [done|lia].
Qed.

Lemma find_loop_ends fuel id : forall entry_index s,
  wf_section s -> (Z.to_nat (Size s - Index s) <= fuel)%nat ->
  find_loop fuel id entry_index s ≠ Abort OutOfFuel.
Proof.
  induction fuel as [|fuel IH]; intros entry_index s Hwf Hfuel; cbn [find_loop].
  - destruct (decide _); [lia|done].
  - destruct (decide _); [|done].
    destruct (Read8 s) as [[h s1]|f] eqn:E1; cbn;
      [|intros [= ->]; by eapply Read8_fault].
    apply Read8_ok in E1 as (Hwf1 & Hi1 & HS1); [|done].
    destruct (decide _); [done|].
    destruct (Read16 s1) as [[ti s2]|f] eqn:E2; cbn;
      [|intros [= ->]; by eapply Read16_fault].
    apply Read16_ok in E2 as (Hwf2 & Hi2 & HS2); [|done].
    destruct (decide _); [done|].
    destruct (Read16 s2) as [[sz s3]|f] eqn:E3; cbn;
      [|intros [= ->]; by eapply Read16_fault].
    apply Read16_ok in E3 as (Hwf3 & Hi3 & HS3); [|done].
    destruct (Read8 s3) as [[nm s4]|f] eqn:E4; cbn;
      [|intros [= ->]; by eapply Read8_fault].
    apply Read8_ok in E4 as (Hwf4 & Hi4 & HS4); [|done].
    pose proof (skip_members_ok (Z.to_nat nm) s4 Hwf4) as Hsk.
    destruct (skip_members _ s4) as [s5|f]; cbn; [|by intros [= ->]].
    destruct Hsk as (Hwf5 & Hi5 & HS5).
    destruct (Read8 s5) as [[ft s6]|f] eqn:E6; cbn;
      [|intros [= ->]; by eapply Read8_fault].
    apply Read8_ok in E6 as (Hwf6 & Hi6 & HS6); [|done].
    destruct (decide _); [done|].
    apply IH; [done|]. lia.
Qed.

(** On a section as [Create] makes it, [FindIndexFromTypeId] returns or
    stops at a failed [assert] or at the end of the allocation. *)
Lemma FindIndexFromTypeId_ends id s :
  wf_section s -> FindIndexFromTypeId id s ≠ Abort OutOfFuel.
Proof.
  intros Hwf. unfold FindIndexFromTypeId.
  pose proof (find_loop_ends (S (Z.to_nat (Size s))) (uint16 id) 0 (set_Index 0 s)
                (wf_rewind s Hwf)) as H.
  destruct (find_loop _ _ _ _) as [[r s']|f]; cbn; [done|].
  intros [= ->]. apply H; [|done]. cbn. lia.
Qed.

(** ** Writes as emitted byte strings *)

Lemma emits_wf s bs s' : wf_section s -> emits s bs s' -> wf_section s'.
Proof. intros Hwf [-> Hfit]. by apply wf_put. Qed.

Lemma emits_nil s : wf_section s -> emits s [] s.
Proof.
  intros Hwf. split; [by rewrite put_nil|]. destruct Hwf as (_ & ? & _). cbn. lia.
Qed.

Lemma emits_app s bs1 s1 bs2 s2 :
  wf_section s -> emits s bs1 s1 -> emits s1 bs2 s2 -> emits s (bs1 ++ bs2) s2.
Proof.
  intros Hwf [-> Hfit1] [-> Hfit2]. cbn in Hfit2.
  split; [by rewrite put_put|]. rewrite length_app. lia.
Qed.

Lemma emits_written s bs s' :
  wf_section s -> emits s bs s' -> written s' = written s ++ bs.
Proof. intros Hwf [-> Hfit]. by apply written_put. Qed.

Lemma emits_Index s bs s' :
  emits s bs s' -> Index s' = Index s + Z.of_nat (length bs).
Proof. by intros [-> _]. Qed.

Lemma Write8_emits value s s' :
  wf_section s -> Write8 value s = Ok s' -> emits s [uint8 value] s'.
Proof. intros Hwf H. apply Write8_put in H as [-> ?]; [|done]. split; [done|cbn; lia]. Qed.

Lemma Write16_emits value s s' :
  wf_section s -> Write16 value s = Ok s' -> emits s (be16 value) s'.
Proof. intros Hwf H. apply Write16_put in H as [-> ?]; [|done]. split; [done|cbn; lia]. Qed.

Lemma Write32_emits value s s' :
  wf_section s -> Write32 value s = Ok s' -> emits s (be32 value) s'.
Proof. intros Hwf H. apply Write32_put in H as [-> ?]; [|done]. split; [done|cbn; lia]. Qed.

Lemma WriteBuffer_emits size data s s' :
  wf_section s -> WriteBuffer size data s = Ok s' ->
  emits s (take (Z.to_nat (uint32 size)) data) s'
  /\ (Z.to_nat (uint32 size) <= length data)%nat.
Proof.
  intros Hwf H. apply WriteBuffer_put in H as (-> & ? & ?); [|done].
  pose proof (uint32_range size) as Hr. unfold is_uint32 in Hr.
  split; [|done]. split; [done|]. rewrite length_take. lia.
Qed.

Lemma WriteHeader_emits type_id name_hash s s' :
  wf_section s -> WriteHeader type_id name_hash s = Ok s' ->
  emits s ([DataIdentHeader] ++ be16 type_id ++ be32 name_hash) s'.
Proof.
  intros Hwf H. apply WriteHeader_put in H as [-> ?]; [|done]. split; [done|cbn; lia].
Qed.

(** ** Induction over nested types and values *)

Lemma CType_ind' (P : CType -> Prop) :
  P TInt32 -> P TFloat32 -> P TString -> (forall n s, P (TOther n s)) ->
  (forall n s ms, Forall P ms -> P (TStruct n s ms)) ->
  forall t, P t.
Proof.
  intros H1 H2 H3 H4 H5. fix IH 1. intros [| | |n s|n s ms].
  - exact H1.
  - exact H2.
  - exact H3.
  - apply H4.
  - apply H5. induction ms as [|m ms IHms]; constructor; [apply IH|apply IHms].
Qed.

Lemma Value_ind' (P : Value -> Prop) :
  (forall v, P (VInt32 v)) -> (forall b, P (VFloat32 b)) -> (forall s, P (VString s)) ->
  (forall n s, P (VOther n s)) ->
  (forall n s fs, Forall P fs -> P (VStruct n s fs)) ->
  forall v, P v.
Proof.
  intros H1 H2 H3 H4 H5. fix IH 1. intros [v|b|s|n s|n s fs].
  - apply H1.
  - apply H2.
  - apply H3.
  - apply H4.
  - apply H5. induction fs as [|f fs IHfs]; constructor; [apply IH|apply IHfs].
Qed.

(** ** The registry only grows *)

Lemma GetTypeId_assigns t (r : FxSerializeUtil CType) i r' :
  GetTypeId t r = (i, r') ->
  tid r' t = Some i /\ (forall t' j, tid r t' = Some j -> tid r' t' = Some j).
Proof.
  unfold GetTypeId, GetTypeId_. destruct (tid r t) as [j|] eqn:E.
  - intros [= <- <-]. done.
  - intros [= <- <-]. cbn. destruct (decide (t = t)); [|done]. split; [done|].
    intros t' j Hj. destruct (decide (t' = t)) as [->|]; [congruence|done].
Qed.

Lemma GetTypeId_assigned t (r : FxSerializeUtil CType) i :
  tid r t = Some i -> GetTypeId t r = (i, r).
Proof. unfold GetTypeId, GetTypeId_. by intros ->. Qed.

Lemma extends_refl r ts : extends r ts r ts.
Proof. by split. Qed.

Lemma extends_trans r1 ts1 r2 ts2 r3 ts3 :
  extends r1 ts1 r2 ts2 -> extends r2 ts2 r3 ts3 -> extends r1 ts1 r3 ts3.
Proof. intros [A1 B1] [A2 B2]. split; eauto. Qed.

Lemma known_extends r ts r' ts' t : extends r ts r' ts' -> known r ts t -> known r' ts' t.
Proof. intros [A B] (i & Hi & Hw). exists i. eauto. Qed.

Lemma written_iff i ts :
  IsTypePreviouslyWritten i ts = true <-> uint16 i ∈ map Id (mRegisteredTypeIds ts).
Proof.
  unfold IsTypePreviouslyWritten. rewrite existsb_exists, list_elem_of_fmap. split.
  - intros (tp & Hin & Hb). apply bool_decide_eq_true in Hb.
    exists tp. split; [done|]. by apply list_elem_of_In.
  - intros (tp & Hid & Hin). exists tp. split; [by apply list_elem_of_In|].
    by apply bool_decide_eq_true.
Qed.

Lemma written_uint16 i ts :
  IsTypePreviouslyWritten (uint16 i) ts = IsTypePreviouslyWritten i ts.
Proof. unfold IsTypePreviouslyWritten. by rewrite uint16_idemp. Qed.

Lemma registered_at_ids pos es : map Id (registered_at pos es) = map entry_id es.
Proof. revert pos. induction es as [|e es IH]; intros pos; cbn; [done|]. by rewrite IH. Qed.

Lemma registered_at_app pos es1 es2 :
  registered_at pos (es1 ++ es2)
  = registered_at pos es1
    ++ registered_at (pos + Z.of_nat (length (encode_entries es1))) es2.
Proof.
  revert pos. induction es1 as [|e es1 IH]; intros pos.
  - cbn. f_equal. lia.
  - cbn [app registered_at]. rewrite IH. unfold encode_entries. cbn [map concat app].
    rewrite length_app. do 3 f_equal. lia.
Qed.

Lemma encode_entries_app es1 es2 :
  encode_entries (es1 ++ es2) = encode_entries es1 ++ encode_entries es2.
Proof. unfold encode_entries. by rewrite map_app, concat_app. Qed.

(** ** Schema writes keep one entry per id *)

Lemma write_member_emits arg r s r' s' :
  wf_section s -> write_member arg (r, s) = Ok (r', s') ->
  exists i, GetTypeId arg r = (i, r') /\ emits s (encode_member (sizeof arg, i)) s'.
Proof.
  intros Hwf. unfold write_member. cbn [fst snd].
  destruct (GetTypeId arg r) as [i r1] eqn:EG.
  destruct (Write16 _ s) as [s1|] eqn:E1; [|discriminate]. cbn [mbind Res_bind].
  destruct (Write16 _ s1) as [s2|] eqn:E2; [|discriminate]. cbn [mbind Res_bind].
  intros [= <- <-]. exists i. split; [done|].
  apply Write16_emits in E1; [|done].
  apply Write16_emits in E2; [|by eapply emits_wf].
  rewrite be16_uint16 in E1, E2. unfold encode_member. cbn [fst snd].
  by eapply emits_app.
Qed.

Lemma write_members_emits args : forall r s r' s',
  wf_section s -> for_each write_member args (r, s) = Ok (r', s') ->
  exists ms, length ms = length args
    /\ emits s (concat (map encode_member ms)) s'
    /\ (forall t j, tid r t = Some j -> tid r' t = Some j).
Proof.
  induction args as [|arg args IH]; intros r s r' s' Hwf; cbn [for_each].
  - intros [= <- <-]. exists []. split; [done|]. split; [by apply emits_nil|done].
  - destruct (write_member arg (r, s)) as [[r1 s1]|] eqn:E1; [|discriminate].
    cbn [mbind Res_bind]. intros E2.
    apply write_member_emits in E1 as (i & EG & Hem1); [|done].
    apply IH in E2 as (ms & Hlen & Hem2 & Hmono); [|by eapply emits_wf].
    exists ((sizeof arg, i) :: ms). split; [cbn; by rewrite Hlen|].
    split; [cbn [map concat]; by eapply emits_app|].
    apply GetTypeId_assigns in EG as [_ Hm1]. eauto.
Qed.

Lemma written_length s : wf_section s -> Z.of_nat (length (written s)) = Index s.
Proof. unfold wf_section, written. intros (? & ? & ?). rewrite length_take. lia. Qed.

Lemma WriteTypeWithoutChecks_inv type_id type_size args r ts r' ts' :
  schema_inv ts ->
  WriteTypeWithoutChecks type_id type_size args (r, ts) = Ok (r', ts') ->
  schema_inv ts' /\ extends r ts r' ts' /\ IsTypePreviouslyWritten type_id ts' = true.
Proof.
  intros [Hwf (es & Hbytes & Hreg & Hnd & Hrange)]. unfold WriteTypeWithoutChecks.
  cbn [fst snd]. rewrite written_uint16.
  destruct (IsTypePreviouslyWritten type_id ts) eqn:Hw.
  { intros [= <- <-]. split; [split; [done|by exists es]|]. split; [apply extends_refl|done]. }
  destruct (Write8 _ (Base ts)) as [s1|] eqn:E1; [|discriminate]. cbn [mbind Res_bind].
  destruct (Write16 _ s1) as [s2|] eqn:E2; [|discriminate]. cbn [mbind Res_bind].
  destruct (Write16 _ s2) as [s3|] eqn:E3; [|discriminate]. cbn [mbind Res_bind].
  destruct (Write8 _ s3) as [s4|] eqn:E4; [|discriminate]. cbn [mbind Res_bind].
  destruct (for_each write_member args (r, s4)) as [[r5 s5]|] eqn:E5; [|discriminate].
  cbn [mbind Res_bind].
  destruct (Write8 _ s5) as [s6|] eqn:E6; [|discriminate]. cbn [mbind Res_bind].
  intros [= <- <-].
  apply Write8_emits in E1; [|done]. pose proof (emits_wf _ _ _ Hwf E1) as Hwf1.
  apply Write16_emits in E2; [|done]. pose proof (emits_wf _ _ _ Hwf1 E2) as Hwf2.
  apply Write16_emits in E3; [|done]. pose proof (emits_wf _ _ _ Hwf2 E3) as Hwf3.
  apply Write8_emits in E4; [|done]. pose proof (emits_wf _ _ _ Hwf3 E4) as Hwf4.
  apply write_members_emits in E5 as (ms & Hlen & E5 & Hmono); [|done].
  pose proof (emits_wf _ _ _ Hwf4 E5) as Hwf5.
  apply Write8_emits in E6; [|done]. pose proof (emits_wf _ _ _ Hwf5 E6) as Hwf6.
  set (e := mkSchemaEntry (uint16 type_id) (uint16 type_size) ms).
  assert (emits (Base ts) (encode_entry e) s6) as Hem.
  { unfold encode_entry, entry_body, e. cbn [entry_id entry_size entry_members].
    rewrite Hlen. rewrite uint8_header in E1. rewrite uint8_footer in E6.
    rewrite <- !app_assoc.
    eapply emits_app; [done|exact E1|]. eapply emits_app; [done|exact E2|].
    eapply emits_app; [done|exact E3|]. eapply emits_app; [done|exact E4|].
    eapply emits_app; [done|exact E5|exact E6]. }
  assert (uint16 type_id ∉ map entry_id es) as Hnew.
  { intros Hin. rewrite <- (registered_at_ids 0), <- Hreg in Hin.
    apply written_iff in Hin. congruence. }
  split; [|split].
  - split; [done|]. exists (es ++ [e]). split; [|split; [|split]].
    + cbn [Base]. rewrite (emits_written _ _ _ Hwf Hem), Hbytes, encode_entries_app.
      unfold encode_entries at 3. cbn [map concat]. by rewrite app_nil_r.
    + cbn [mRegisteredTypeIds]. rewrite registered_at_app, Hreg. f_equal. cbn.
      f_equal. f_equal. rewrite <- Hbytes, written_length by done. lia.
    + rewrite map_app. apply NoDup_app. split; [done|]. split; [|apply NoDup_singleton].
      intros x Hx Hx'. apply list_elem_of_singleton in Hx'. subst x. done.
    + apply Forall_app. split; [done|]. constructor; [apply uint16_range|constructor].
  - split; [done|]. intros i Hi. apply written_iff. apply written_iff in Hi.
    cbn [mRegisteredTypeIds]. rewrite map_app. apply elem_of_app. by left.
  - apply written_iff. cbn [mRegisteredTypeIds]. rewrite map_app. apply elem_of_app.
    right. cbn. apply list_elem_of_singleton. done.
Qed.

Lemma WriteTypeForTypeId_eq t r ts :
  WriteTypeForTypeId t (r, ts)
  = let '(type_id, r1) := GetTypeId t r in
    if IsTypePreviouslyWritten type_id ts then Ok (r1, ts)
    else match t with
         | TStruct _ size members =>
             let '(SerializerTypeId_, r2) := GetTypeId t (construct_type t r1) in
             WriteTypeAndMembers SerializerTypeId_ size members (r2, ts)
         | _ => WriteTypeWithoutChecks type_id (sizeof t) [] (r1, ts)
         end.
Proof. destruct t; reflexivity. Qed.

Lemma construct_type_keeps t : forall (r : FxSerializeUtil CType) t' j,
  tid r t' = Some j -> tid (construct_type t r) t' = Some j.
Proof.
  induction t as [| | |n sz|n sz members IH] using CType_ind'; intros r t' j Hj; try done.
  cbn [construct_type].
  assert (forall r0, tid r0 t' = Some j ->
            tid (fold_left (fun r m => construct_type m r) members r0) t' = Some j) as Hfold.
  { clear r Hj. induction IH as [|m members Hm _ IHm]; intros r0 Hj; cbn; [done|].
    apply IHm. by apply Hm. }
  destruct (GetTypeId _ _) as [i r1] eqn:EG. cbn.
  apply GetTypeId_assigns in EG as [_ Hkeep]. apply Hkeep. by apply Hfold.
Qed.

Lemma for_each_schema_writes (f : CType -> TState -> Res TState) members :
  Forall (fun t => schema_write_ok t (f t)) members ->
  forall r ts r' ts', schema_inv ts -> for_each f members (r, ts) = Ok (r', ts') ->
    schema_inv ts' /\ extends r ts r' ts'.
Proof.
  induction 1 as [|t members Ht _ IH]; intros r ts r' ts' Hinv; cbn [for_each].
  - intros [= <- <-]. split; [done|apply extends_refl].
  - destruct (f t (r, ts)) as [[r1 ts1]|] eqn:E1; [|discriminate]. cbn [mbind Res_bind].
    intros E2. apply Ht in E1 as (Hinv1 & Hext1 & _); [|done].
    apply IH in E2 as (Hinv2 & Hext2); [|done].
    split; [done|by eapply extends_trans].
Qed.

Lemma WriteTypeAndMembers__inv (f : CType -> TState -> Res TState)
    type_id type_size members r ts r' ts' :
  Forall (fun t => schema_write_ok t (f t)) members ->
  schema_inv ts ->
  WriteTypeAndMembers_ f type_id type_size members (r, ts) = Ok (r', ts') ->
  schema_inv ts' /\ extends r ts r' ts' /\ IsTypePreviouslyWritten type_id ts' = true.
Proof.
  intros Hall Hinv. unfold WriteTypeAndMembers_. cbn [fst snd]. rewrite written_uint16.
  destruct (IsTypePreviouslyWritten type_id ts) eqn:Hw.
  { intros [= <- <-]. split; [done|]. split; [apply extends_refl|done]. }
  destruct (for_each f members (r, ts)) as [[r1 ts1]|] eqn:E1; [|discriminate].
  cbn [mbind Res_bind]. intros E2.
  apply (for_each_schema_writes f members Hall) in E1 as (Hinv1 & Hext1); [|done].
  apply WriteTypeWithoutChecks_inv in E2 as (Hinv2 & Hext2 & Hw2); [|done].
  split; [done|]. split; [by eapply extends_trans|]. by rewrite written_uint16 in Hw2.
Qed.

Lemma WriteTypeForTypeId_inv t : schema_write_ok t (WriteTypeForTypeId t).
Proof.
  induction t as [| | |n sz|n sz members IH] using CType_ind';
    intros r ts r' ts' Hinv; rewrite WriteTypeForTypeId_eq.
  1-4: destruct (GetTypeId _ r) as [i r1] eqn:EG;
       apply GetTypeId_assigns in EG as [Hi Hm];
       destruct (IsTypePreviouslyWritten i ts) eqn:Hw;
       [ intros [= <- <-]; split; [done|]; split; [by split|by exists i]
       | intros E; apply WriteTypeWithoutChecks_inv in E as (Hinv' & [Hm' Hw'] & Hk); [|done];
         split; [done|]; split; [split; eauto|exists i; eauto] ].
  destruct (GetTypeId _ r) as [i r1] eqn:EG.
  apply GetTypeId_assigns in EG as [Hi Hm].
  destruct (IsTypePreviouslyWritten i ts) eqn:Hw.
  { intros [= <- <-]. split; [done|]. split; [by split|by exists i]. }
  rewrite (GetTypeId_assigned _ _ _ (construct_type_keeps _ _ _ _ Hi)). intros E.
  apply WriteTypeAndMembers__inv in E as (Hinv' & [Hm' Hw'] & Hk); [|done..].
  pose proof (construct_type_keeps (TStruct n sz members) r1) as Hc.
  split; [done|]. split; [split; eauto|exists i; eauto].
Qed.

Lemma WriteTypeAndMembers_inv type_id type_size members r ts r' ts' :
  schema_inv ts ->
  WriteTypeAndMembers type_id type_size members (r, ts) = Ok (r', ts') ->
  schema_inv ts' /\ extends r ts r' ts' /\ IsTypePreviouslyWritten type_id ts' = true.
Proof.
  apply WriteTypeAndMembers__inv. apply Forall_forall. intros t _.
  apply WriteTypeForTypeId_inv.
Qed.

Lemma WriteTypeTo_inv n sz members r ts r' ts' :
  schema_inv ts ->
  WriteTypeTo (TStruct n sz members) (r, ts) = Ok (r', ts') ->
  schema_inv ts' /\ extends r ts r' ts' /\ known r' ts' (TStruct n sz members).
Proof.
  intros Hinv. unfold WriteTypeTo. cbn [fst snd].
  destruct (GetTypeId _ r) as [i r1] eqn:EG.
  apply GetTypeId_assigns in EG as [Hi Hm]. intros E.
  apply WriteTypeAndMembers_inv in E as (Hinv' & [Hm' Hw'] & Hk); [|done].
  split; [done|]. split; [split; eauto|exists i; eauto].
Qed.

(** ** Serializing values keeps one entry per id *)

Lemma on_data_inv f st st' :
  on_data f st = Ok st' ->
  registry st' = registry st /\ types_of st' = types_of st
  /\ f (data_of st) = Ok (data_of st').
Proof.
  unfold on_data, types_of, data_of. destruct (f _) as [ds|]; [|discriminate].
  cbn. by intros [= <-].
Qed.

Lemma on_types_inv f st st' :
  on_types f st = Ok st' ->
  f (registry st, types_of st) = Ok (registry st', types_of st')
  /\ data_of st' = data_of st.
Proof.
  unfold on_types, types_of, data_of. destruct (f _) as [[r ts]|]; [|discriminate].
  cbn. by intros [= <-].
Qed.

Lemma FxSerializeValue_eq value st :
  FxSerializeValue value st
  = match value with
    | VInt32 v => on_data (Write32 (uint32 v)) st
    | VFloat32 f =>
        match float32_to_uint32 f with
        | Some u => on_data (Write32 u) st
        | None => Abort Undefined
        end
    | VString bytes =>
        let str_size := uint32 (Z.of_nat (length bytes)) in
        st ← on_data (Write16 (uint16 str_size)) st;
        on_data (WriteBuffer str_size bytes) st
    | VOther _ _ => Ok st
    | VStruct name size fields =>
        WriteTo 0 name size fields st
    end.
Proof. destruct value; reflexivity. Qed.

Lemma schema_kept_data t f :
  struct_types t = [] ->
  (forall st st', f st = Ok st' ->
     registry st' = registry st /\ types_of st' = types_of st) ->
  schema_kept t f.
Proof.
  intros Ht Hf st st' Hinv E. apply Hf in E as [-> ->]. rewrite Ht.
  split; [done|]. split; [apply extends_refl|constructor].
Qed.

Lemma for_each_schema_kept (f : Value -> State -> Res State) fields :
  Forall (fun v => schema_kept (type_of v) (f v)) fields ->
  forall st st', schema_inv (types_of st) -> for_each f fields st = Ok st' ->
    schema_inv (types_of st')
    /\ extends (registry st) (types_of st) (registry st') (types_of st')
    /\ Forall (known (registry st') (types_of st'))
         (concat (map struct_types (map type_of fields))).
Proof.
  induction 1 as [|v fields Hv _ IH]; intros st st' Hinv; cbn [for_each].
  - intros [= <-]. split; [done|]. split; [apply extends_refl|constructor].
  - destruct (f v st) as [st1|] eqn:E1; [|discriminate]. cbn [mbind Res_bind].
    intros E2. apply Hv in E1 as (Hinv1 & Hext1 & Hk1); [|done].
    apply IH in E2 as (Hinv2 & Hext2 & Hk2); [|done].
    split; [done|]. split; [by eapply extends_trans|].
    cbn [map concat]. apply Forall_app. split; [|done].
    eapply Forall_impl; [exact Hk1|]. intros t. by apply known_extends.
Qed.

Lemma WriteTo__schema_kept (f : Value -> State -> Res State) name_hash n sz fields :
  Forall (fun v => schema_kept (type_of v) (f v)) fields ->
  schema_kept (TStruct n sz (map type_of fields))
    (WriteTo_ f name_hash (TStruct n sz (map type_of fields)) fields).
Proof.
  intros Hall st st' Hinv. unfold WriteTo_.
  destruct (on_types _ st) as [st1|] eqn:E1; [|discriminate]. cbn [mbind Res_bind].
  apply on_types_inv in E1 as [E1 _].
  apply WriteTypeTo_inv in E1 as (Hinv1 & Hext1 & Hk1); [|done].
  destruct Hk1 as (i & Hi & Hw). rewrite (GetTypeId_assigned _ _ _ Hi).
  unfold FxSerializeStruct_.
  destruct (on_data _ _) as [st2|] eqn:E2; [|discriminate]. cbn [mbind Res_bind].
  apply on_data_inv in E2 as (Hr2 & Ht2 & _).
  change (registry st2 = registry st1) in Hr2. change (types_of st2 = types_of st1) in Ht2.
  destruct (for_each f fields st2) as [st3|] eqn:E3; [|discriminate]. cbn [mbind Res_bind].
  intros E4. apply on_data_inv in E4 as (Hr4 & Ht4 & _).
  apply (for_each_schema_kept f fields Hall) in E3 as (Hinv3 & Hext3 & Hk3);
    [|by rewrite Ht2].
  rewrite Hr2, Ht2 in Hext3. rewrite Hr4, Ht4.
  split; [done|]. split; [by eapply extends_trans|].
  cbn [struct_types]. constructor; [|done].
  eapply known_extends; [exact Hext3|]. by exists i.
Qed.

Lemma FxSerializeValue_schema_kept v : schema_kept (type_of v) (FxSerializeValue v).
Proof.
  induction v as [x|b|s|n sz|n sz fields IH] using Value_ind'.
  - apply schema_kept_data; [done|]. intros st st' E. cbn in E.
    apply on_data_inv in E. tauto.
  - apply schema_kept_data; [done|]. intros st st' E. cbn in E.
    destruct (float32_to_uint32 b); [|discriminate]. apply on_data_inv in E. tauto.
  - apply schema_kept_data; [done|]. intros st st' E. cbn in E.
    destruct (on_data _ st) as [st1|] eqn:E1; [|discriminate]. cbn in E.
    apply on_data_inv in E1 as (Hr1 & Ht1 & _). apply on_data_inv in E as (Hr & Ht & _).
    split; congruence.
  - apply schema_kept_data; [done|]. intros st st' [= <-]. done.
  - intros st st'. rewrite FxSerializeValue_eq. cbn [type_of].
    apply (WriteTo__schema_kept FxSerializeValue 0 n sz fields IH).
Qed.

Lemma WriteTo_schema_kept name_hash n sz fields :
  schema_kept (TStruct n sz (map type_of fields)) (WriteTo name_hash n sz fields).
Proof.
  apply (WriteTo__schema_kept FxSerializeValue). apply Forall_forall. intros v _.
  apply FxSerializeValue_schema_kept.
Qed.

(** ** Writing a type that is already there changes nothing *)

Lemma WriteTypeWithoutChecks_noop type_id type_size args r ts :
  IsTypePreviouslyWritten type_id ts = true ->
  WriteTypeWithoutChecks type_id type_size args (r, ts) = Ok (r, ts).
Proof.
  intros Hw. unfold WriteTypeWithoutChecks. cbn [fst snd].
  by rewrite written_uint16, Hw.
Qed.

Lemma WriteTypeAndMembers_noop type_id type_size args r ts :
  IsTypePreviouslyWritten type_id ts = true ->
  WriteTypeAndMembers type_id type_size args (r, ts) = Ok (r, ts).
Proof.
  intros Hw. unfold WriteTypeAndMembers, WriteTypeAndMembers_. cbn [fst snd].
  by rewrite written_uint16, Hw.
Qed.

Lemma WriteTypeForTypeId_noop t r ts :
  known r ts t -> WriteTypeForTypeId t (r, ts) = Ok (r, ts).
Proof.
  intros (i & Hi & Hw). rewrite WriteTypeForTypeId_eq, (GetTypeId_assigned _ _ _ Hi).
  by rewrite Hw.
Qed.

Lemma WriteTypeTo_noop t r ts : known r ts t -> WriteTypeTo t (r, ts) = Ok (r, ts).
Proof.
  intros (i & Hi & Hw). destruct t; try done. unfold WriteTypeTo. cbn [fst snd].
  rewrite (GetTypeId_assigned _ _ _ Hi). by apply WriteTypeAndMembers_noop.
Qed.

Lemma for_each_schema_untouched (f : Value -> State -> Res State) fields :
  Forall (fun v => schema_untouched (type_of v) (f v)) fields ->
  forall st st',
    Forall (known (registry st) (types_of st))
      (concat (map struct_types (map type_of fields))) ->
    for_each f fields st = Ok st' ->
    registry st' = registry st /\ types_of st' = types_of st.
Proof.
  induction 1 as [|v fields Hv _ IH]; intros st st' Hk; cbn [for_each].
  - by intros [= <-].
  - cbn [map concat] in Hk. apply Forall_app in Hk as [Hk1 Hk2].
    destruct (f v st) as [st1|] eqn:E1; [|discriminate]. cbn [mbind Res_bind].
    intros E2. apply Hv in E1 as [Hr1 Ht1]; [|done].
    apply IH in E2 as [Hr2 Ht2]; [|by rewrite Hr1, Ht1].
    split; congruence.
Qed.

Lemma WriteTo__schema_untouched (f : Value -> State -> Res State) name_hash n sz fields :
  Forall (fun v => schema_untouched (type_of v) (f v)) fields ->
  schema_untouched (TStruct n sz (map type_of fields))
    (WriteTo_ f name_hash (TStruct n sz (map type_of fields)) fields).
Proof.
  intros Hall st st' Hk. cbn [struct_types] in Hk. apply Forall_cons in Hk as [Hk Hks].
  unfold WriteTo_.
  destruct (on_types _ st) as [st1|] eqn:E1; [|discriminate]. cbn [mbind Res_bind].
  apply on_types_inv in E1 as [E1 _]. rewrite (WriteTypeTo_noop _ _ _ Hk) in E1.
  injection E1 as Hr1 Ht1. destruct Hk as (i & Hi & Hw).
  rewrite <- Hr1, (GetTypeId_assigned _ _ _ Hi).
  unfold FxSerializeStruct_.
  destruct (on_data _ _) as [st2|] eqn:E2; [|discriminate]. cbn [mbind Res_bind].
  apply on_data_inv in E2 as (Hr2 & Ht2 & _).
  change (registry st2 = registry st) in Hr2. change (types_of st2 = types_of st1) in Ht2.
  destruct (for_each f fields st2) as [st3|] eqn:E3; [|discriminate]. cbn [mbind Res_bind].
  intros E4. apply on_data_inv in E4 as (Hr4 & Ht4 & _).
  apply (for_each_schema_untouched f fields Hall) in E3 as [Hr3 Ht3];
    [|by rewrite Hr2, Ht2, <- Ht1].
  split; congruence.
Qed.

Lemma FxSerializeValue_schema_untouched v :
  schema_untouched (type_of v) (FxSerializeValue v).
Proof.
  induction v as [x|b|s|n sz|n sz fields IH] using Value_ind'; intros st st' Hk.
  - cbn. intros E. apply on_data_inv in E. tauto.
  - cbn. destruct (float32_to_uint32 b); [|discriminate].
    intros E. apply on_data_inv in E. tauto.
  - cbn. destruct (on_data _ st) as [st1|] eqn:E1; [|discriminate]. cbn. intros E.
    apply on_data_inv in E1 as (Hr1 & Ht1 & _). apply on_data_inv in E as (Hr & Ht & _).
    split; congruence.
  - by intros [= <-].
  - revert Hk. rewrite FxSerializeValue_eq. cbn [type_of].
    apply (WriteTo__schema_untouched FxSerializeValue 0 n sz fields IH).
Qed.

Lemma WriteTo_schema_untouched name_hash n sz fields :
  schema_untouched (TStruct n sz (map type_of fields)) (WriteTo name_hash n sz fields).
Proof.
  apply (WriteTo__schema_untouched FxSerializeValue). apply Forall_forall. intros v _.
  apply FxSerializeValue_schema_untouched.
Qed.

Lemma WriteRecords_schema_untouched n sz tys records : forall st st',
  Forall (fun rec => map type_of rec.2 = tys) records ->
  Forall (known (registry st) (types_of st)) (struct_types (TStruct n sz tys)) ->
  WriteRecords n sz records st = Ok st' ->
  registry st' = registry st /\ types_of st' = types_of st.
Proof.
  unfold WriteRecords.
  induction records as [|[h fields] records IH]; intros st st' Hty Hk; cbn [for_each].
  - by intros [= <-].
  - apply Forall_cons in Hty as [Hty1 Hty]. cbn [fst snd] in *. subst tys.
    destruct (WriteTo h n sz fields st) as [st1|] eqn:E1; [|discriminate].
    cbn [mbind Res_bind]. intros E2.
    apply WriteTo_schema_untouched in E1 as [Hr1 Ht1]; [|done].
    apply IH in E2 as [Hr2 Ht2]; [|done|by rewrite Hr1, Ht1].
    split; congruence.
Qed.

Lemma schema_inv_new buffer_size tblock dblock :
  Z.of_nat (length tblock) = uint32 buffer_size ->
  schema_inv (TypeSection (FxSerializerIO_new buffer_size tblock dblock)).
Proof.
  intros Hlen. pose proof (uint32_range buffer_size) as Hr. unfold is_uint32 in Hr.
  split; [unfold wf_section; cbn; lia|]. exists [].
  repeat split; cbn; try done; constructor.
Qed.

(** ** What a record looks like in the data section *)

Lemma be32_uint32 v : be32 (uint32 v) = be32 v.
Proof. unfold be32. by rewrite uint32_idemp. Qed.

Lemma on_data_emits f bs st st' :
  (forall s s', wf_section s -> f s = Ok s' -> emits s bs s') ->
  wf_section (data_of st) -> on_data f st = Ok st' ->
  emits (data_of st) bs (data_of st')
  /\ registry st' = registry st /\ types_of st' = types_of st.
Proof.
  intros Hf Hwf E. apply on_data_inv in E as (Hr & Ht & E). split; [by apply Hf|done].
Qed.

Lemma fields_emit fields :
  Forall emits_value fields ->
  forall st st' rf,
    schema_inv (types_of st) -> wf_section (data_of st) ->
    for_each FxSerializeValue fields st = Ok st' ->
    (forall t j, tid (registry st') t = Some j -> tid rf t = Some j) ->
    emits (data_of st) (encode_fields (ids_of rf) fields) (data_of st').
Proof.
  unfold encode_fields.
  induction 1 as [|v fields Hv _ IH]; intros st st' rf Hinv Hwf; cbn [for_each].
  - intros [= <-] _. by apply emits_nil.
  - destruct (FxSerializeValue v st) as [st1|] eqn:E1; [|discriminate].
    cbn [mbind Res_bind]. intros E2 Hrf.
    pose proof (FxSerializeValue_schema_kept v st st1 Hinv E1) as (Hinv1 & _ & _).
    assert (forall t j, tid (registry st1) t = Some j -> tid (registry st') t = Some j)
      as Hmono.
    { eapply (for_each_schema_kept FxSerializeValue fields); [|exact Hinv1|exact E2].
      apply Forall_forall. intros w _. apply FxSerializeValue_schema_kept. }
    assert (emits (data_of st) (encode_value (ids_of rf) v) (data_of st1)) as Hem1
      by (eapply Hv; eauto).
    cbn [map concat]. eapply emits_app; [done|exact Hem1|].
    eapply IH; eauto. by eapply emits_wf.
Qed.

Lemma WriteTo_emits_frame name_hash n sz fields st st' rf :
  Forall emits_value fields ->
  schema_inv (types_of st) -> wf_section (data_of st) ->
  WriteTo name_hash n sz fields st = Ok st' ->
  (forall t j, tid (registry st') t = Some j -> tid rf t = Some j) ->
  emits (data_of st)
    (frame (ids_of rf (TStruct n sz (map type_of fields))) name_hash
       (encode_fields (ids_of rf) fields))
    (data_of st')
  /\ exists i, tid (registry st') (TStruct n sz (map type_of fields)) = Some i.
Proof.
  intros Hall Hinv Hwf E Hrf. unfold WriteTo, WriteTo_ in E.
  destruct (on_types _ st) as [st1|] eqn:E1; [|discriminate]. cbn [mbind Res_bind] in E.
  apply on_types_inv in E1 as [E1 Hd1].
  apply WriteTypeTo_inv in E1 as (Hinv1 & _ & (i & Hi & _)); [|done].
  rewrite (GetTypeId_assigned _ _ _ Hi) in E. unfold FxSerializeStruct_ in E.
  destruct (on_data _ _) as [st2|] eqn:E2; [|discriminate]. cbn [mbind Res_bind] in E.
  destruct (for_each FxSerializeValue fields st2) as [st3|] eqn:E3; [|discriminate].
  cbn [mbind Res_bind] in E.
  eapply on_data_emits in E2 as (Hem2 & Hr2 & Ht2);
    [|intros s s'; apply WriteHeader_emits|by change (wf_section (data_of st1)); rewrite Hd1].
  change (emits (data_of st1) ([DataIdentHeader] ++ be16 (uint16 i)
                               ++ be32 (uint32 name_hash)) (data_of st2)) in Hem2.
  change (registry st2 = registry st1) in Hr2. change (types_of st2 = types_of st1) in Ht2.
  rewrite Hd1 in Hem2. pose proof (emits_wf _ _ _ Hwf Hem2) as Hwf2.
  assert (schema_inv (types_of st2)) as Hinv2 by (by rewrite Ht2).
  assert (forall t j, tid (registry st2) t = Some j -> tid (registry st3) t = Some j)
    as Hmono.
  { pose proof E3 as E3'.
    eapply (for_each_schema_kept FxSerializeValue fields) in E3' as (_ & [Hle _] & _);
      [exact Hle| |exact Hinv2].
    apply Forall_forall. intros w _. apply FxSerializeValue_schema_kept. }
  pose proof (on_data_inv _ _ _ E) as (Hr4 & _ & _).
  assert (tid (registry st') (TStruct n sz (map type_of fields)) = Some i) as Hi'.
  { rewrite Hr4. apply Hmono. by rewrite Hr2. }
  split; [|by exists i].
  assert (emits (data_of st2) (encode_fields (ids_of rf) fields) (data_of st3)) as Hem3.
  { eapply fields_emit; eauto. intros t j Hj. apply Hrf. by rewrite Hr4. }
  pose proof (emits_wf _ _ _ Hwf2 Hem3) as Hwf3.
  eapply on_data_emits in E as (Hem4 & _ & _);
    [|intros s s'; apply Write8_emits|done].
  change [uint8 DataIdentFooter] with [DataIdentFooter] in Hem4.
  unfold frame, ids_of. rewrite (Hrf _ _ Hi'). cbn [default].
  rewrite be16_uint16, be32_uint32 in Hem2.
  rewrite !app_assoc. eapply emits_app; [done| |exact Hem4].
  eapply emits_app; [done| |exact Hem3]. by rewrite <- !app_assoc.
Qed.

Lemma FxSerializeValue_emits v : emits_value v.
Proof.
  induction v as [x|b|s|n sz|n sz fields IH] using Value_ind';
    intros st st' rf Hinv Hwf E Hrf.
  - cbn in E. eapply on_data_emits in E as (E & _); [exact E| |done].
    intros s0 s' Hwf0 E0. apply Write32_emits in E0; [|done].
    by rewrite be32_uint32 in E0.
  - cbn in E. cbn [encode_value]. destruct (float32_to_uint32 b) as [u|]; [|discriminate].
    eapply on_data_emits in E as (E & _); [exact E| |done].
    intros s0 s'. apply Write32_emits.
  - cbn in E. cbn [encode_value].
    destruct (on_data _ st) as [st1|] eqn:E1; [|discriminate]. cbn [mbind Res_bind] in E.
    eapply on_data_emits in E1 as (E1 & _); [|intros s0 s'; apply Write16_emits|done].
    rewrite be16_uint16 in E1.
    eapply on_data_emits in E as (E & _);
      [|intros s0 s' Hwf0 E0; by apply WriteBuffer_emits in E0 as [E0 _]
       |by eapply emits_wf].
    rewrite uint32_idemp in E. by eapply emits_app.
  - injection E as <-. by apply emits_nil.
  - rewrite FxSerializeValue_eq in E. cbn [encode_value type_of].
    by eapply WriteTo_emits_frame.
Qed.

Lemma WriteTo_emits name_hash n sz fields st st' :
  schema_inv (types_of st) -> wf_section (data_of st) ->
  WriteTo name_hash n sz fields st = Ok st' ->
  emits (data_of st)
    (frame (ids_of (registry st') (TStruct n sz (map type_of fields))) name_hash
       (encode_fields (ids_of (registry st')) fields))
    (data_of st').
Proof.
  intros Hinv Hwf E. eapply WriteTo_emits_frame; eauto.
  apply Forall_forall. intros v _. apply FxSerializeValue_emits.
Qed.

(** Well-formedness of a concrete section, by computation. *)
Ltac solve_wf := unfold wf_section; vm_compute; repeat split; congruence.

(** C3 (amended).  [WriteTo] stores one record,
    [0x0B, TypeId, NameHash, fields, 0xB0]; a field that is itself a
    serializable struct is stored inline, in declared order, as a whole
    record of its own: header [0x0B], its type id, name hash 0, its fields,
    footer [0xB0]. *)
Theorem WriteTo_frames_every_struct
    (name_hash : Z) (n : string) (sz : Z) (fields : list Value) (st st' : State) :
  schema_inv (types_of st) -> wf_section (data_of st) ->
  WriteTo name_hash n sz fields st = Ok st' ->
  emits (data_of st)
    (frame (ids_of (registry st') (TStruct n sz (map type_of fields))) name_hash
       (encode_fields (ids_of (registry st')) fields))
    (data_of st')
  /\ forall ids m msz mfields,
       encode_value ids (VStruct m msz mfields)
       = [DataIdentHeader] ++ be16 (ids (TStruct m msz (map type_of mfields)))
         ++ be32 0 ++ encode_fields ids mfields ++ [DataIdentFooter].
Proof.
  intros Hinv Hwf E. split; [by apply WriteTo_emits|reflexivity].
Qed.

Lemma WriteTo_frames_every_struct_witness :
  emits (data_of example_start)
    (frame (ids_of (registry example_written) (TStruct "TestStructA" 28
              (map type_of (TestStructA_fields 30 15 float32_3 5 10)))) hash_A
       (encode_fields (ids_of (registry example_written))
          (TestStructA_fields 30 15 float32_3 5 10)))
    (data_of example_written)
  /\ forall ids m msz mfields,
       encode_value ids (VStruct m msz mfields)
       = [DataIdentHeader] ++ be16 (ids (TStruct m msz (map type_of mfields)))
         ++ be32 0 ++ encode_fields ids mfields ++ [DataIdentFooter].
Proof.
  apply (WriteTo_frames_every_struct hash_A "TestStructA" 28
           (TestStructA_fields 30 15 float32_3 5 10) example_start example_written).
  - apply schema_inv_new. reflexivity.
  - solve_wf.
  - vm_compute. reflexivity.
Defined.

(** C3 as stated fails.  The record of the example holds the header and the
    footer of the nested [TestStructB] (type id 1, name hash 0) between the
    fields of [TestStructA]: 36 bytes, not the 28 bytes of the layout with
    the nested fields inline. *)
Lemma nested_record_counterexample :
  WriteTo hash_A "TestStructA" 28 (TestStructA_fields 30 15 float32_3 5 10) example_start
  = Ok example_written
  /\ written (data_of example_written)
     = frame 2 hash_A (be32 30 ++ be32 15 ++ be32 3 ++ frame 1 0 (be32 5 ++ be32 10))
  /\ written (data_of example_written)
     ≠ specified_record 2 hash_A (TestStructA_fields 30 15 float32_3 5 10).
Proof.
  split; [vm_compute; reflexivity|]. split; [vm_compute; reflexivity|].
  vm_compute. discriminate.
Qed.

(** ** Strings *)

Lemma Write16_fits value16 s :
  wf_section s -> Index s + 2 <= Size s ->
  Write16 value16 s = Ok (put (be16 value16) s).
Proof.
  intros Hwf Hfit. destruct (Write16 value16 s) as [s'|f] eqn:E.
  - apply Write16_put in E as [-> _]; done.
  - exfalso. pose proof Hwf as (Hl & Hi & Hs). unfold Write16, store in E.
    rewrite (uint32_id (Index s + 2)) in E by (unfold is_uint32; lia).
    rewrite (uint32_id (Index s + 1)) in E by (unfold is_uint32; lia).
    destruct (decide (Index s + 2 <= Size s)); [|done].
    destruct (decide (Z.to_nat (Index s) < length (Data s))%nat); [|lia].
    cbn in E. rewrite length_insert in E.
    destruct (decide (Z.to_nat (Index s + 1) < length (Data s))%nat); [|lia].
    cbn in E. discriminate.
Qed.

Lemma WriteBuffer_fits size data s :
  wf_section s -> (Z.to_nat (uint32 size) <= length data)%nat ->
  Index s + uint32 size <= Size s ->
  WriteBuffer size data s = Ok (put (take (Z.to_nat (uint32 size)) data) s).
Proof.
  intros Hwf Hsrc Hfit. destruct (WriteBuffer size data s) as [s'|f] eqn:E.
  - apply WriteBuffer_put in E as (-> & _); done.
  - exfalso. pose proof Hwf as (Hl & Hi & Hs).
    pose proof (uint32_range size) as Hr. unfold is_uint32 in Hr.
    unfold WriteBuffer, memcpy in E.
    rewrite (uint32_id (Index s + uint32 size)) in E by (unfold is_uint32; lia).
    destruct (decide (Index s + uint32 size <= Size s)); [|done].
    destruct (decide _) as [|Hn] in E; [discriminate|]. apply Hn. lia.
Qed.

(** What [FxSerializeValue] stores for a string of any length. *)
Lemma string_emits bytes st st' :
  wf_section (data_of st) -> FxSerializeValue (VString bytes) st = Ok st' ->
  emits (data_of st)
    (be16 (Z.of_nat (length bytes) mod 2 ^ 16)
     ++ take (Z.to_nat (Z.of_nat (length bytes) mod 2 ^ 32)) bytes)
    (data_of st').
Proof.
  intros Hwf E. rewrite FxSerializeValue_eq in E. cbn zeta in E.
  destruct (on_data _ st) as [st1|] eqn:E1; [|discriminate]. cbn [mbind Res_bind] in E.
  eapply on_data_emits in E1 as (E1 & _); [|intros s0 s'; apply Write16_emits|done].
  eapply on_data_emits in E as (E & _);
    [|intros s0 s' Hwf0 E0; by apply WriteBuffer_emits in E0 as [E0 _]
     |by eapply emits_wf].
  rewrite uint16_uint32 in E1. rewrite uint32_idemp in E.
  eapply emits_app; [done|exact E1|exact E].
Qed.

(** C9 (amended).  For a string of fewer than 2^32 bytes, serialization
    stores a 16-bit length field equal to the byte length reduced modulo
    2^16, followed by all the bytes of the string; up to 65535 bytes the
    field equals the number of bytes stored after it, beyond that it does
    not. *)
Theorem string_length_field (bytes : list Z) (st st' : State) :
  wf_section (data_of st) -> Z.of_nat (length bytes) < 2 ^ 32 ->
  FxSerializeValue (VString bytes) st = Ok st' ->
  emits (data_of st) (be16 (Z.of_nat (length bytes) mod 2 ^ 16) ++ bytes) (data_of st')
  /\ is_uint16 (Z.of_nat (length bytes) mod 2 ^ 16)
  /\ (Z.of_nat (length bytes) <= 65535 ->
      Z.of_nat (length bytes) mod 2 ^ 16 = Z.of_nat (length bytes))
  /\ (65535 < Z.of_nat (length bytes) ->
      Z.of_nat (length bytes) mod 2 ^ 16 ≠ Z.of_nat (length bytes)).
Proof.
  intros Hwf Hlen E. apply string_emits in E; [|done].
  rewrite (Z.mod_small _ (2 ^ 32)), Nat2Z.id, firstn_all in E by lia.
  split; [done|]. split; [apply uint16_range|]. split.
  - intros Hle. apply Z.mod_small. lia.
  - intros Hgt. pose proof (uint16_range (Z.of_nat (length bytes))) as Hr.
    unfold is_uint16, uint16 in Hr. lia.
Qed.

Lemma string_length_field_witness :
  emits (data_of tiny_state) (be16 (Z.of_nat (length [104; 105]) mod 2 ^ 16) ++ [104; 105])
    (put [0; 2; 104; 105] (data_of tiny_state))
  /\ is_uint16 (Z.of_nat (length [104; 105]) mod 2 ^ 16)
  /\ (Z.of_nat (length [104; 105]) <= 65535 ->
      Z.of_nat (length [104; 105]) mod 2 ^ 16 = Z.of_nat (length [104; 105]))
  /\ (65535 < Z.of_nat (length [104; 105]) ->
      Z.of_nat (length [104; 105]) mod 2 ^ 16 ≠ Z.of_nat (length [104; 105])).
Proof.
  apply (string_length_field [104; 105] tiny_state
           {| registry := registry tiny_state;
              writer := {| TypeSection := types_of tiny_state;
                           DataSection := put [0; 2; 104; 105] (data_of tiny_state) |} |}).
  - solve_wf.
  - cbn. lia.
  - vm_compute. reflexivity.
Defined.

(** C9 as stated fails for a string of 2^32 or more bytes: [str_size] is a
    [uint32].  For 2^32 + 5 bytes the length field is 5 and 5 bytes follow
    it: not all the bytes of the string, and a length field that equals
    the number of bytes stored although the string is longer than 65535. *)
Lemma long_string_counterexample :
  Z.of_nat (length huge_string) = 2 ^ 32 + 5
  /\ FxSerializeValue (VString huge_string) tiny_state
     = Ok {| registry := registry tiny_state;
             writer := {| TypeSection := types_of tiny_state;
                          DataSection := put (be16 5 ++ [0; 0; 0; 0; 0])
                                           (data_of tiny_state) |} |}.
Proof.
  assert (Z.of_nat (length huge_string) = 2 ^ 32 + 5) as Hlen.
  { unfold huge_string. rewrite length_replicate. apply Z2Nat.id. lia. }
  split; [exact Hlen|].
  assert (uint32 (2 ^ 32 + 5) = 5) as H32 by reflexivity.
  assert (uint16 5 = 5) as H16 by reflexivity.
  assert (wf_section (data_of tiny_state)) as Hwf by solve_wf.
  assert (take (Z.to_nat 5) huge_string = [0; 0; 0; 0; 0]) as Htake.
  { unfold huge_string. rewrite take_replicate.
    replace (Z.to_nat 5 `min` Z.to_nat (2 ^ 32 + 5))%nat with 5%nat by lia. reflexivity. }
  rewrite FxSerializeValue_eq. cbn zeta. rewrite Hlen, H32, H16.
  unfold on_data at 2. fold (data_of tiny_state).
  rewrite (Write16_fits 5 _ Hwf) by (vm_compute; congruence). cbn [mbind Res_bind].
  unfold on_data. cbn [writer DataSection registry TypeSection].
  rewrite WriteBuffer_fits.
  - cbn [mbind Res_bind]. rewrite put_put by (done || vm_compute; congruence).
    change (uint32 5) with 5. rewrite Htake. reflexivity.
  - apply wf_put; [done|vm_compute; congruence].
  - change (uint32 5) with 5. apply Nat2Z.inj_le. rewrite Hlen. lia.
  - vm_compute. congruence.
Qed.

(** ** Reading a record back *)

Lemma shift_nonneg m ex :
  0 <= m -> 0 <= (if decide (0 <= ex) then m ≪ ex else m ≫ (- ex)).
Proof.
  intros Hm. destruct (decide _).
  - by apply Z.shiftl_nonneg.
  - by apply Z.shiftr_nonneg.
Qed.

Lemma float32_to_uint32_range b u : float32_to_uint32 b = Some u -> is_uint32 u.
Proof.
  unfold float32_to_uint32, is_uint32.
  destruct (decide (_ = 255)); [discriminate|].
  match goal with |- context [if decide (0 <= ?ex) then ?m ≪ _ else _] =>
    assert (0 <= m) as Hm
      by (pose proof (Z.mod_pos_bound b (2 ^ 23)); destruct (decide _); lia);
    pose proof (shift_nonneg m ex Hm) as Ht;
    generalize dependent (if decide (0 <= ex) then m ≪ ex else m ≫ (- ex))
  end.
  intros t Ht. destruct (Z.testbit b 31).
  - destruct (decide (t = 0)); [|discriminate]. intros [= <-]. lia.
  - destruct (decide (t < 2 ^ 32)); [|discriminate]. intros [= <-]. lia.
Qed.

(** Which floats survive [static_cast<uint32>] and the conversion back:
    the positive ones with a whole value below 2^32 (biased exponent [e]
    from 127 to 158, fraction bits below 2^(150 - e) zero), and +0.0. *)
Lemma float32_fields e frac :
  0 <= e < 2 ^ 8 -> 0 <= frac < 2 ^ 23 ->
  ((e ≪ 23 + frac) ≫ 23) mod 2 ^ 8 = e
  /\ (e ≪ 23 + frac) mod 2 ^ 23 = frac
  /\ Z.testbit (e ≪ 23 + frac) 31 = false.
Proof.
  intros He Hf. rewrite Z.shiftl_mul_pow2, Z.shiftr_div_pow2 by lia.
  split; [|split].
  - rewrite Z.div_add_l, (Z.div_small frac), Z.add_0_r by lia. apply Z.mod_small. lia.
  - rewrite Z.add_comm, Z.mod_add by lia. apply Z.mod_small. lia.
  - apply (testbit_above _ 31); lia.
Qed.

Lemma float32_to_uint32_whole e frac :
  127 <= e <= 158 -> 0 <= frac < 2 ^ 23 ->
  float32_to_uint32 (e ≪ 23 + frac)
  = Some (if decide (150 <= e) then (2 ^ 23 + frac) * 2 ^ (e - 150)
          else (2 ^ 23 + frac) / 2 ^ (150 - e)).
Proof.
  intros He Hf. unfold float32_to_uint32.
  destruct (float32_fields e frac) as (-> & -> & ->); [lia..|].
  destruct (decide (e = 255)); [lia|]. destruct (decide (e = 0)); [lia|].
  destruct (decide (0 <= e - 150)); destruct (decide (150 <= e)); try lia.
  - rewrite Z.shiftl_mul_pow2 by lia. destruct (decide _) as [|Hn]; [done|].
    exfalso. apply Hn.
    assert (2 ^ (e - 150) <= 2 ^ 8) by (apply Z.pow_le_mono_r; lia).
    assert (0 < 2 ^ (e - 150)) by (apply Z.pow_pos_nonneg; lia). nia.
  - rewrite Z.shiftr_div_pow2 by lia. replace (- (e - 150)) with (150 - e) by lia.
    destruct (decide _) as [|Hn]; [done|]. exfalso. apply Hn.
    assert (0 < 2 ^ (150 - e)) by (apply Z.pow_pos_nonneg; lia).
    apply Z.div_lt_upper_bound; [done|]. nia.
Qed.

Lemma uint32_to_float32_whole_hi e frac :
  150 <= e <= 158 -> 0 <= frac < 2 ^ 23 ->
  uint32_to_float32 ((2 ^ 23 + frac) * 2 ^ (e - 150)) = e ≪ 23 + frac.
Proof.
  intros He Hf. set (m := 2 ^ 23 + frac). set (x := e - 150).
  assert (0 < 2 ^ x) as Hp by (apply Z.pow_pos_nonneg; lia).
  assert (Z.log2 (m * 2 ^ x) = 23 + x) as Hlog.
  { apply Z.log2_unique; [lia|]. replace (Z.succ (23 + x)) with (24 + x) by lia.
    rewrite !Z.pow_add_r by lia. unfold m. nia. }
  unfold uint32_to_float32. destruct (decide _) as [|_]; [unfold m in *; nia|].
  rewrite Hlog. destruct (decide (23 + x <= 23)).
  - assert (x = 0) as Hx by lia. rewrite Hx in *. replace (23 - (23 + 0)) with 0 by lia.
    rewrite Z.shiftl_0_r, Z.pow_0_r, Z.mul_1_r.
    replace (23 + 0 + 127) with e by lia. unfold m. lia.
  - replace (23 + x - 23) with x by lia.
    rewrite Z.shiftr_div_pow2, Z.div_mul, Z.mod_mul by lia.
    assert (0 < 2 ^ (x - 1)) by (apply Z.pow_pos_nonneg; lia).
    destruct (decide _) as [[|[? _]]|_]; [lia..|].
    replace (23 + x + 127) with e by lia. unfold m. lia.
Qed.

Lemma uint32_to_float32_whole_lo e frac :
  127 <= e < 150 -> 0 <= frac < 2 ^ 23 -> frac mod 2 ^ (150 - e) = 0 ->
  uint32_to_float32 ((2 ^ 23 + frac) / 2 ^ (150 - e)) = e ≪ 23 + frac.
Proof.
  intros He Hf Hz. set (d := 150 - e) in *.
  assert (0 < 2 ^ d) as Hp by (apply Z.pow_pos_nonneg; lia).
  assert (2 ^ 23 = 2 ^ (23 - d) * 2 ^ d) as H23 by (rewrite <- Z.pow_add_r by lia; f_equal; lia).
  apply Z.mod_divide in Hz as [q Hq]; [|lia].
  assert ((2 ^ 23 + frac) / 2 ^ d = 2 ^ (23 - d) + q) as Ht.
  { rewrite H23, Hq, <- Z.mul_add_distr_r, Z.div_mul by lia. reflexivity. }
  rewrite Ht. set (t := 2 ^ (23 - d) + q).
  assert (0 < 2 ^ (23 - d)) as Hp2 by (apply Z.pow_pos_nonneg; lia).
  assert (0 <= q < 2 ^ (23 - d)) as Hqr by nia.
  assert (Z.log2 t = 23 - d) as Hlog.
  { apply Z.log2_unique; [lia|]. replace (Z.succ (23 - d)) with (23 - d + 1) by lia.
    rewrite Z.pow_add_r by lia. unfold t. lia. }
  unfold uint32_to_float32. destruct (decide _) as [|_]; [unfold t in *; lia|].
  rewrite Hlog. destruct (decide _) as [_|]; [|lia].
  replace (23 - (23 - d)) with d by lia. rewrite !Z.shiftl_mul_pow2 by lia.
  replace (23 - d + 127) with e by lia. unfold t.
  rewrite (Z.mul_add_distr_r (2 ^ (23 - d)) q), <- H23, <- Hq. lia.
Qed.

Lemma whole_float32_reads_back e frac :
  127 <= e <= 158 -> 0 <= frac < 2 ^ 23 ->
  (e < 150 -> frac mod 2 ^ (150 - e) = 0) ->
  reads_back (VFloat32 (e ≪ 23 + frac)) = true.
Proof.
  intros He Hf Hz. cbn [reads_back]. rewrite float32_to_uint32_whole by done.
  apply bool_decide_eq_true. destruct (decide _).
  - apply uint32_to_float32_whole_hi; lia.
  - apply uint32_to_float32_whole_lo; [lia|done|]. apply Hz. lia.
Qed.

Example float32_reads_back_examples :
  reads_back (VFloat32 float32_3) = true
  /\ reads_back (VFloat32 0) = true
  /\ reads_back (VFloat32 float32_3_5) = false
  /\ float32_to_uint32 float32_3_5 = Some 3
  /\ uint32_to_float32 3 = float32_3.
Proof. repeat split; vm_compute; reflexivity. Qed.

Lemma FxDeserializeValue_eq dest data :
  FxDeserializeValue dest data
  = match dest with
    | VInt32 _ => '(u, data) ← Read32 data; Ok (VInt32 (int32_of_uint32 u), data)
    | VFloat32 _ => '(u, data) ← Read32 data; Ok (VFloat32 (uint32_to_float32 u), data)
    | VString bytes => Ok (VString bytes, data)
    | VOther name size => Ok (VOther name size, data)
    | VStruct name size fields =>
        '(_, fields, data) ← FxDeserializeStruct 0 fields data;
        Ok (VStruct name size fields, data)
    end.
Proof. destruct dest; reflexivity. Qed.

Lemma bytes_at_skip bs rest r :
  wf_section r -> bytes_at r (bs ++ rest) ->
  wf_section (advance (Z.of_nat (length bs)) r)
  /\ bytes_at (advance (Z.of_nat (length bs)) r) rest.
Proof.
  intros Hwf Hb. apply bytes_at_app in Hb as (_ & Hfit & Hb); [|done].
  split; [apply wf_advance; [done|lia..]|done].
Qed.

Lemma fields_read fields :
  Forall reads_value fields ->
  forall dests r rest ids,
    wf_section r -> map type_of dests = map type_of fields ->
    forallb reads_back fields = true ->
    bytes_at r (encode_fields ids fields ++ rest) ->
    map_each FxDeserializeValue dests r
    = Ok (fields, advance (Z.of_nat (length (encode_fields ids fields))) r).
Proof.
  unfold encode_fields.
  induction 1 as [|v fields Hv _ IH]; intros dests r rest ids Hwf Hty Hrb Hb.
  - destruct dests; [|discriminate]. cbn. by rewrite advance_0.
  - destruct dests as [|d dests]; [discriminate|]. cbn [map] in Hty.
    injection Hty as Hty1 Hty. cbn [forallb] in Hrb. apply andb_true_iff in Hrb as [Hrb1 Hrb].
    cbn [map concat] in *. rewrite <- app_assoc in Hb.
    cbn [map_each]. rewrite (Hv d r _ ids Hwf Hty1 Hrb1 Hb). cbn [mbind Res_bind].
    apply bytes_at_skip in Hb as [Hwf1 Hb1]; [|done].
    rewrite (IH dests _ rest ids Hwf1 Hty Hrb Hb1). cbn [mbind Res_bind].
    rewrite advance_advance, length_app, Nat2Z.inj_add. reflexivity.
Qed.

Lemma frame_length type_id name_hash payload :
  length (frame type_id name_hash payload) = (8 + length payload)%nat.
Proof. unfold frame. rewrite !length_app. cbn. lia. Qed.

(** Decoding a record whose stored name hash is 0 or the requested one. *)
Lemma FxDeserializeStruct_reads name_hash fields dests r rest ids type_id stored :
  Forall reads_value fields ->
  wf_section r -> map type_of dests = map type_of fields ->
  forallb reads_back fields = true ->
  uint32 stored = 0 \/ uint32 stored = uint32 name_hash ->
  bytes_at r (frame type_id stored (encode_fields ids fields) ++ rest) ->
  FxDeserializeStruct name_hash dests r
  = Ok (ReadDone, fields,
        advance (Z.of_nat (length (frame type_id stored (encode_fields ids fields)))) r).
Proof.
  intros Hall Hwf Hty Hrb Hhash Hb. rewrite frame_length.
  unfold frame in Hb. rewrite <- !app_assoc in Hb. cbn [app] in Hb.
  unfold FxDeserializeStruct, FxDeserializeStruct_.
  destruct (Read8_step _ _ _ Hwf Hb) as (-> & Hwf1 & Hb1). cbn [mbind Res_bind].
  change (uint8 DataIdentHeader) with DataIdentHeader.
  destruct (decide (DataIdentHeader ≠ DataIdentHeader)) as [Hx|_]; [by destruct Hx|].
  destruct (Read16_step _ _ _ Hwf1 Hb1) as (-> & Hwf2 & Hb2). cbn [mbind Res_bind].
  destruct (Read32_step _ _ _ Hwf2 Hb2) as (-> & Hwf3 & Hb3). cbn [mbind Res_bind].
  destruct (decide _) as [[H0 Hne]|_]; [destruct Hhash; congruence|].
  rewrite (fields_read fields Hall dests _ _ ids Hwf3 Hty Hrb Hb3). cbn [mbind Res_bind].
  apply bytes_at_skip in Hb3 as [Hwf4 Hb4]; [|done].
  destruct (Read8_step _ _ _ Hwf4 Hb4) as (-> & _). cbn [mbind Res_bind].
  change (uint8 DataIdentFooter) with DataIdentFooter.
  destruct (decide (DataIdentFooter ≠ DataIdentFooter)) as [Hx|_]; [by destruct Hx|].
  rewrite !advance_advance. do 3 f_equal. lia.
Qed.

Lemma FxDeserializeValue_reads v : reads_value v.
Proof.
  induction v as [x|b|s|n sz|n sz fields IH] using Value_ind';
    intros dest r rest ids Hwf Hty Hrb Hb; rewrite FxDeserializeValue_eq.
  - destruct dest; try discriminate. cbn [encode_value] in *.
    apply andb_true_iff in Hrb as [H1 H2]. apply Z.leb_le in H1. apply Z.ltb_lt in H2.
    destruct (Read32_step _ _ _ Hwf Hb) as (-> & _). cbn [mbind Res_bind].
    rewrite int32_of_uint32_inv by (unfold is_int32; lia). reflexivity.
  - destruct dest; try discriminate. cbn [encode_value reads_back] in *.
    destruct (float32_to_uint32 b) as [u|] eqn:Eu; [|discriminate].
    apply bool_decide_eq_true in Hrb. change (default 0 (Some u)) with u in *.
    destruct (Read32_step _ _ _ Hwf Hb) as (-> & _). cbn [mbind Res_bind].
    rewrite (uint32_id u) by (by eapply float32_to_uint32_range). by rewrite Hrb.
  - discriminate.
  - destruct dest; try discriminate. injection Hty as -> ->.
    cbn [encode_value length]. by rewrite advance_0.
  - destruct dest as [| | | |n' sz' dests]; try discriminate.
    cbn [type_of] in Hty. injection Hty as -> -> Hty. cbn [encode_value reads_back] in *.
    rewrite (FxDeserializeStruct_reads 0 fields dests r rest ids
               (ids (TStruct n sz (map type_of fields))) 0 IH Hwf Hty Hrb);
      [|by left|done].
    reflexivity.
Qed.

Lemma bytes_between_emits s bs s' :
  wf_section s -> emits s bs s' -> bytes_between s s' = bs.
Proof.
  intros Hwf [-> Hfit]. unfold bytes_between. cbn [Index put].
  replace (Z.to_nat (Index s + Z.of_nat (length bs) - Index s)) with (length bs) by lia.
  apply (bytes_at_put bs s Hwf Hfit).
Qed.

(** C1 (amended).  Take a struct whose fields are [int32]s, [float32]s
    that the conversion to [uint32] and back leaves unchanged (whole
    numbers from 0 to 2^32 - 1 that a [float32] represents), members of
    types the serializer skips, and nested structs of such fields; no
    strings.  If [WriteTo] stores it, then [ReadFrom], under the same name
    hash (or any, when the record was stored under name hash 0), into a
    destination of the same struct type, from a section that has the bytes
    of the record under its cursor, succeeds, leaves every field of the
    destination equal to the field written, nested fields included, and
    leaves the cursor behind the record. *)
Theorem WriteTo_ReadFrom_roundtrip
    (name_hash read_hash : Z) (n : string) (sz : Z) (fields dests : list Value)
    (st st' : State) (r : FxSerializerBaseSection) :
  schema_inv (types_of st) -> wf_section (data_of st) ->
  forallb reads_back fields = true ->
  map type_of dests = map type_of fields ->
  WriteTo name_hash n sz fields st = Ok st' ->
  wf_section r -> bytes_at r (bytes_between (data_of st) (data_of st')) ->
  uint32 name_hash = 0 \/ uint32 name_hash = uint32 read_hash ->
  ReadFrom read_hash dests r
  = Ok (ReadDone, fields, advance (Index (data_of st') - Index (data_of st)) r).
Proof.
  intros Hinv Hwf Hrb Hty E Hwfr Hb Hhash.
  pose proof (WriteTo_emits _ _ _ _ _ _ Hinv Hwf E) as Hem.
  rewrite (bytes_between_emits _ _ _ Hwf Hem) in Hb.
  rewrite (emits_Index _ _ _ Hem).
  rewrite <- (app_nil_r (frame _ _ _)) in Hb.
  unfold ReadFrom.
  erewrite FxDeserializeStruct_reads; [|apply Forall_forall; intros v _;
    apply FxDeserializeValue_reads|done..].
  do 3 f_equal. lia.
Qed.

Lemma WriteTo_ReadFrom_roundtrip_witness :
  ReadFrom hash_A (TestStructA_fields 0 0 0 0 0) (rewound example_written)
  = Ok (ReadDone, TestStructA_fields 30 15 float32_3 5 10,
        advance (Index (data_of example_written) - Index (data_of example_start))
          (rewound example_written)).
Proof.
  apply (WriteTo_ReadFrom_roundtrip hash_A hash_A "TestStructA" 28
           (TestStructA_fields 30 15 float32_3 5 10) (TestStructA_fields 0 0 0 0 0)
           example_start example_written (rewound example_written)).
  - apply schema_inv_new. reflexivity.
  - solve_wf.
  - vm_compute. reflexivity.
  - reflexivity.
  - vm_compute. reflexivity.
  - solve_wf.
  - vm_compute. reflexivity.
  - right. reflexivity.
Defined.

(** C1 as stated fails.  A [float32] member 3.5 is written as the integer 3
    and read back as 3.0; a string member is written (length and bytes)
    but [FxDeserializeValue] has no specialisation for [std::string], so
    the destination string stays as it was, the next member is decoded
    from the bytes of the string and the footer check fails. *)
Lemma roundtrip_counterexample :
  (WriteTo hash_A "TestStructA" 28 (TestStructA_fields 30 15 float32_3_5 5 10) example_start
   = Ok example_written_3_5
   /\ ReadFrom hash_A (TestStructA_fields 0 0 0 0 0) (rewound example_written_3_5)
      = Ok (ReadDone, TestStructA_fields 30 15 float32_3 5 10,
            advance 36 (rewound example_written_3_5)))
  /\ (WriteTo hash_A "WithString" 48 (WithString_fields 1 [104; 105] 2) example_start
      = Ok example_written_string
      /\ ReadFrom hash_A (WithString_fields 0 [] 0) (rewound example_written_string)
         = Ok (FooterIsIncorrect, WithString_fields 1 [] 157801,
               advance 16 (rewound example_written_string))).
Proof. repeat split; vm_compute; reflexivity. Qed.

(** ** The name check *)

(** C2 (amended).  For every record read: if the stored name hash is
    non-zero and differs from the requested one, the read stops with "Name
    hashes are not equal!" and leaves the destination as it was; if the
    stored name hash is zero the name check is disabled: the outcome is
    the same for every requested hash and is never a name mismatch. *)
Theorem name_check_uses_stored_hash
    (name_hash : Z) (dests : list Value) (r : FxSerializerBaseSection)
    (type_id stored : Z) (rest : list Z) :
  wf_section r ->
  bytes_at r ([DataIdentHeader] ++ be16 type_id ++ be32 stored ++ rest) ->
  (uint32 stored ≠ 0 -> uint32 stored ≠ uint32 name_hash ->
   ReadFrom name_hash dests r = Ok (NameHashesNotEqual, dests, advance 7 r))
  /\ (uint32 stored = 0 ->
      (forall other_hash, ReadFrom name_hash dests r = ReadFrom other_hash dests r)
      /\ forall dests' r', ReadFrom name_hash dests r ≠ Ok (NameHashesNotEqual, dests', r')).
Proof.
  intros Hwf Hb. cbn [app] in Hb.
  assert (forall h, ReadFrom h dests r
            = if decide (uint32 stored ≠ 0 /\ uint32 stored ≠ uint32 h)
              then Ok (NameHashesNotEqual, dests, advance 7 r)
              else '(members, data) ← map_each FxDeserializeValue dests (advance 7 r);
                   '(temp, data) ← Read8 data;
                   if decide (temp ≠ DataIdentFooter)
                   then Ok (FooterIsIncorrect, members, data)
                   else Ok (ReadDone, members, data)) as Hread.
  { intros h. unfold ReadFrom, FxDeserializeStruct, FxDeserializeStruct_.
    destruct (Read8_step _ _ _ Hwf Hb) as (-> & Hwf1 & Hb1). cbn [mbind Res_bind].
    change (uint8 DataIdentHeader) with DataIdentHeader.
    destruct (decide (DataIdentHeader ≠ DataIdentHeader)) as [Hx|_]; [by destruct Hx|].
    destruct (Read16_step _ _ _ Hwf1 Hb1) as (-> & Hwf2 & Hb2). cbn [mbind Res_bind].
    destruct (Read32_step _ _ _ Hwf2 Hb2) as (-> & _). cbn [mbind Res_bind].
    rewrite !advance_advance. reflexivity. }
  split.
  - intros H0 Hne. rewrite Hread. destruct (decide _) as [_|Hn]; [done|]. tauto.
  - intros H0. split.
    + intros other. rewrite !Hread.
      destruct (decide _) as [[? _]|_]; [done|]. destruct (decide _) as [[? _]|_]; done.
    + intros dests' r'. rewrite Hread. destruct (decide _) as [[? _]|_]; [done|].
      destruct (map_each _ _ _) as [[ms d]|]; cbn [mbind Res_bind]; [|done].
      destruct (Read8 d) as [[t d']|]; cbn [mbind Res_bind]; [|done].
      destruct (decide _); done.
Qed.

Lemma name_check_uses_stored_hash_witness :
  (uint32 hash_A ≠ 0 -> uint32 hash_A ≠ uint32 hash_B ->
   ReadFrom hash_B (TestStructA_fields 0 0 0 0 0) (rewound example_written)
   = Ok (NameHashesNotEqual, TestStructA_fields 0 0 0 0 0,
         advance 7 (rewound example_written)))
  /\ (uint32 hash_A = 0 ->
      (forall other_hash,
         ReadFrom hash_B (TestStructA_fields 0 0 0 0 0) (rewound example_written)
         = ReadFrom other_hash (TestStructA_fields 0 0 0 0 0) (rewound example_written))
      /\ forall dests' r',
           ReadFrom hash_B (TestStructA_fields 0 0 0 0 0) (rewound example_written)
           ≠ Ok (NameHashesNotEqual, dests', r')).
Proof.
  apply (name_check_uses_stored_hash hash_B (TestStructA_fields 0 0 0 0 0)
           (rewound example_written) 2 hash_A
           (drop 7 (Data (data_of example_written)))).
  - solve_wf.
  - vm_compute. reflexivity.
Defined.

(** C2 as stated fails in both halves.  The example record is stored under
    a non-zero name hash: a read that requests hash 0 stops with the name
    mismatch.  The same record stored under name hash 0 is read in full by
    a request for a non-zero hash. *)
Lemma name_check_counterexample :
  (WriteTo hash_A "TestStructA" 28 (TestStructA_fields 30 15 float32_3 5 10) example_start
   = Ok example_written
   /\ ReadFrom 0 (TestStructA_fields 0 0 0 0 0) (rewound example_written)
      = Ok (NameHashesNotEqual, TestStructA_fields 0 0 0 0 0,
            advance 7 (rewound example_written)))
  /\ (WriteTo 0 "TestStructA" 28 (TestStructA_fields 30 15 float32_3 5 10) example_start
      = Ok example_written_nameless
      /\ uint32 hash_B ≠ 0
      /\ ReadFrom hash_B (TestStructA_fields 0 0 0 0 0) (rewound example_written_nameless)
         = Ok (ReadDone, TestStructA_fields 30 15 float32_3 5 10,
               advance 36 (rewound example_written_nameless))).
Proof.
  split; [split; vm_compute; reflexivity|]. split; [vm_compute; reflexivity|].
  split; [vm_compute; discriminate|vm_compute; reflexivity].
Qed.

(** ** Loading a file *)

Lemma fread_u32_inv init f v f' :
  fread_u32 init f = Ok (v, f') ->
  (f = [] /\ init = Some v)
  \/ exists word, f = word ++ f' /\ fread_u32 None word = Ok (v, []).
Proof.
  destruct f as [|b0 [|b1 [|b2 [|b3 rest]]]]; cbn [fread_u32]; try discriminate.
  - destruct init; [|discriminate]. intros [= <- <-]. by left.
  - intros [= <- <-]. right. by exists [b0; b1; b2; b3].
Qed.

Lemma fread_u32_word word v :
  fread_u32 None word = Ok (v, []) -> length word = 4%nat.
Proof.
  destruct word as [|b0 [|b1 [|b2 [|b3 [|b4 rest]]]]]; cbn [fread_u32]; try discriminate; done.
Qed.

Lemma fread_bytes_inv dst n f d f' :
  fread_bytes dst n f = Ok (d, f') ->
  d = take (Z.to_nat n) (map uint8 f)
      ++ drop (length (take (Z.to_nat n) (map uint8 f))) dst
  /\ (length (take (Z.to_nat n) (map uint8 f)) <= length dst)%nat.
Proof.
  unfold fread_bytes, memcpy. destruct (decide _) as [[H1 H2]|]; [|discriminate].
  cbn [mbind Res_bind]. intros [= <- <-].
  assert (take (Z.to_nat (n `min` Z.of_nat (length f))) (map uint8 f)
          = take (Z.to_nat n) (map uint8 f)) as Ht.
  { destruct (decide (n <= Z.of_nat (length f))) as [Hle|Hgt].
    - by rewrite Z.min_l.
    - rewrite Z.min_r, Nat2Z.id by lia.
      rewrite !take_ge; [done|rewrite length_map; lia..]. }
  rewrite Ht. assert (length (take (Z.to_nat n) (map uint8 f))
                      = Z.to_nat (n `min` Z.of_nat (length f))) as Hlen.
  { rewrite <- Ht. rewrite length_take, length_map. lia. }
  rewrite Hlen. change (Z.to_nat 0) with 0%nat in *.
  cbn [take app Nat.add] in *. split; [reflexivity|lia].
Qed.

(** C7 (amended).  A load that fails on the file signature (or cannot
    open the file) leaves the archive as it was.  A load that fails on the
    data-section signature leaves the data section, both cursors, both
    sizes and the registered ids as they were; the buffer of the type
    section, though, holds the type bytes of the file from its start on:
    the file is a 4-byte signature, a 4-byte size field and the rest, and
    the buffer starts with the first [size_of_types] bytes of that rest
    (all of it, if the file is shorter), followed by what the buffer held
    behind them. *)
Theorem failed_load_state
    (file : option (list Z)) (io io' : FxSerializerIO) (status : LoadStatus) :
  ReadFromFile file io = Ok (status, io') ->
  (status = CouldNotOpenFile \/ status = FileSignatureIncorrect -> io' = io)
  /\ (status = FileDataSignatureIncorrect ->
      DataSection io' = DataSection io
      /\ mRegisteredTypeIds (TypeSection io') = mRegisteredTypeIds (TypeSection io)
      /\ Index (Base (TypeSection io')) = Index (Base (TypeSection io))
      /\ Size (Base (TypeSection io')) = Size (Base (TypeSection io))
      /\ exists signature size_field rest size_of_types loaded,
           file = Some (signature ++ size_field ++ rest)
           /\ length signature = 4%nat
           /\ fread_u32 None size_field = Ok (size_of_types, [])
           /\ loaded = take (Z.to_nat size_of_types) (map uint8 rest)
           /\ Data (Base (TypeSection io'))
              = loaded ++ drop (length loaded) (Data (Base (TypeSection io)))
           /\ (length loaded <= length (Data (Base (TypeSection io))))%nat).
Proof.
  unfold ReadFromFile. destruct file as [fp|].
  2:{ intros [= <- <-]. split; [done|discriminate]. }
  destruct (fread_u32 (Some 0) fp) as [[sig fp1]|] eqn:Es; [|discriminate].
  cbn [mbind Res_bind]. destruct (decide _) as [|Hsig].
  { intros [= <- <-]. split; [done|discriminate]. }
  destruct (fread_u32 None fp1) as [[size_of_types fp2]|] eqn:Ez; [|discriminate].
  cbn [mbind Res_bind].
  destruct (fread_bytes _ _ fp2) as [[tdata fp3]|] eqn:Et; [|discriminate].
  cbn [mbind Res_bind].
  destruct (fread_u32 (Some 0) fp3) as [[sig2 fp4]|]; [|discriminate]. cbn [mbind Res_bind].
  destruct (decide _).
  { intros [= <- <-]. split; [intros [|]; discriminate|]. intros _. cbn.
    split; [done|]. split; [done|]. split; [done|]. split; [done|].
    apply fread_u32_inv in Es as [[-> [= <-]]|(signature & -> & Hs)].
    { exfalso. apply Hsig. intros Hc. vm_compute in Hc. discriminate. }
    apply fread_u32_inv in Ez as [[_ [=]]|(size_field & -> & Hz)].
    apply fread_bytes_inv in Et as [-> Hfit].
    exists signature, size_field, fp2, size_of_types,
           (take (Z.to_nat size_of_types) (map uint8 fp2)).
    split; [done|]. split; [by eapply fread_u32_word|]. done. }
  destruct (fread_u32 None fp4) as [[size_of_data fp5]|]; [|discriminate].
  cbn [mbind Res_bind].
  destruct (fread_bytes _ _ fp5) as [[ddata fp6]|]; [|discriminate]. cbn [mbind Res_bind].
  intros [= <- <-]. split; [intros [|]; discriminate|discriminate].
Qed.

Lemma failed_load_state_witness :
  (FileDataSignatureIncorrect = CouldNotOpenFile
   \/ FileDataSignatureIncorrect = FileSignatureIncorrect ->
   {| TypeSection := {| Base := set_Data [1; 2; 0; 0] (Base (TypeSection small_archive));
                        mRegisteredTypeIds := [] |};
      DataSection := DataSection small_archive |} = small_archive)
  /\ (FileDataSignatureIncorrect = FileDataSignatureIncorrect ->
      DataSection {| TypeSection := {| Base := set_Data [1; 2; 0; 0]
                                                 (Base (TypeSection small_archive));
                                       mRegisteredTypeIds := [] |};
                     DataSection := DataSection small_archive |}
      = DataSection small_archive
      /\ mRegisteredTypeIds (TypeSection
           {| TypeSection := {| Base := set_Data [1; 2; 0; 0]
                                          (Base (TypeSection small_archive));
                                mRegisteredTypeIds := [] |};
              DataSection := DataSection small_archive |})
         = mRegisteredTypeIds (TypeSection small_archive)
      /\ Index (Base (TypeSection
           {| TypeSection := {| Base := set_Data [1; 2; 0; 0]
                                          (Base (TypeSection small_archive));
                                mRegisteredTypeIds := [] |};
              DataSection := DataSection small_archive |}))
         = Index (Base (TypeSection small_archive))
      /\ Size (Base (TypeSection
           {| TypeSection := {| Base := set_Data [1; 2; 0; 0]
                                          (Base (TypeSection small_archive));
                                mRegisteredTypeIds := [] |};
              DataSection := DataSection small_archive |}))
         = Size (Base (TypeSection small_archive))
      /\ exists signature size_field rest size_of_types loaded,
           Some file_bad_data_signature = Some (signature ++ size_field ++ rest)
           /\ length signature = 4%nat
           /\ fread_u32 None size_field = Ok (size_of_types, [])
           /\ loaded = take (Z.to_nat size_of_types) (map uint8 rest)
           /\ Data (Base (TypeSection
                {| TypeSection := {| Base := set_Data [1; 2; 0; 0]
                                               (Base (TypeSection small_archive));
                                     mRegisteredTypeIds := [] |};
                   DataSection := DataSection small_archive |}))
              = loaded ++ drop (length loaded) (Data (Base (TypeSection small_archive)))
           /\ (length loaded <= length (Data (Base (TypeSection small_archive))))%nat).
Proof.
  apply (failed_load_state (Some file_bad_data_signature) small_archive).
  vm_compute. reflexivity.
Defined.

(** C7 as stated fails: after the load of a file with a good file
    signature, two type bytes and a wrong data-section signature, the type
    section's buffer starts with the two bytes of the file. *)
Lemma failed_load_counterexample :
  ReadFromFile (Some file_bad_data_signature) small_archive
  = Ok (FileDataSignatureIncorrect,
        {| TypeSection := {| Base := set_Data [1; 2; 0; 0] (Base (TypeSection small_archive));
                             mRegisteredTypeIds := [] |};
           DataSection := DataSection small_archive |})
  /\ Data (Base (TypeSection small_archive)) = [0; 0; 0; 0]
  /\ ReadFromFile (Some file_bad_signature) small_archive
     = Ok (FileSignatureIncorrect, small_archive).
Proof. repeat split; vm_compute; reflexivity. Qed.

(** ** Capacity *)

(** C6, the code at the failing input.  The load of a file whose type
    section declares 5 bytes into an archive made with [buffer_size = 4]
    passes no check: [fread] stores past the end of the 4-byte buffer.  A
    write to a full section, by contrast, stops at its [assert]. *)
Theorem load_past_capacity_is_unchecked :
  Size (Base (TypeSection small_archive)) = 4
  /\ ReadFromFile (Some file_types_too_long) small_archive = Abort OutOfBounds
  /\ Write8 0 full_section = Abort AssertionFailed
  /\ Write16 0 full_section = Abort AssertionFailed
  /\ Write32 0 full_section = Abort AssertionFailed
  /\ WriteBuffer 1 [0] full_section = Abort AssertionFailed.
Proof. repeat split; vm_compute; reflexivity. Qed.

(** A load of a well-formed file that fits. *)
Example load_good_file :
  ReadFromFile (Some file_good) small_archive
  = Ok (Loaded,
        {| TypeSection := {| Base := set_Data [1; 2; 0; 0] (Base (TypeSection small_archive));
                             mRegisteredTypeIds := [] |};
           DataSection := set_Data [7; 8; 9; 0] (DataSection small_archive) |}).
Proof. vm_compute. reflexivity. Qed.

(** The writers are checked: on a section as [Create] makes it, of less
    than 2^32 - 2 bytes, a write either stores its bytes inside the buffer
    or stops at its [assert]. *)
Lemma Write8_checked value s :
  wf_section s ->
  Write8 value s = if decide (Index s + 1 <= Size s) then Ok (put [uint8 value] s)
                   else Abort AssertionFailed.
Proof.
  intros Hwf. pose proof Hwf as (Hl & Hi & Hs). destruct (decide _).
  - destruct (Write8 value s) as [s'|f] eqn:E.
    + apply Write8_put in E as [-> _]; done.
    + exfalso. unfold Write8, store in E. destruct (decide (Index s < Size s)); [|lia].
      destruct (decide _) in E; [discriminate|lia].
  - unfold Write8. destruct (decide _); [lia|done].
Qed.

Lemma Write16_checked value16 s :
  wf_section s -> Size s < 2 ^ 32 - 2 ->
  Write16 value16 s = if decide (Index s + 2 <= Size s) then Ok (put (be16 value16) s)
                      else Abort AssertionFailed.
Proof.
  intros Hwf Hsz. pose proof Hwf as (Hl & Hi & Hs). destruct (decide _).
  - by apply Write16_fits.
  - unfold Write16. rewrite (uint32_id (Index s + 2)) by (unfold is_uint32; lia).
    destruct (decide _); [lia|done].
Qed.

Lemma Write32_checked value32 s :
  wf_section s -> Size s < 2 ^ 32 - 2 ->
  Write32 value32 s ≠ Abort OutOfBounds.
Proof.
  intros Hwf Hsz. unfold Write32. rewrite Write16_checked by done.
  destruct (decide _); [|done]. cbn [mbind Res_bind].
  rewrite Write16_checked; [|apply wf_put; [done|cbn; lia]|done].
  destruct (decide _); done.
Qed.

Lemma WriteBuffer_checked size data s :
  wf_section s -> (Z.to_nat (uint32 size) <= length data)%nat ->
  Index s + uint32 size < 2 ^ 32 ->
  WriteBuffer size data s
  = if decide (Index s + uint32 size <= Size s)
    then Ok (put (take (Z.to_nat (uint32 size)) data) s)
    else Abort AssertionFailed.
Proof.
  intros Hwf Hsrc Hno. pose proof Hwf as (Hl & Hi & Hs).
  pose proof (uint32_range size) as Hr. unfold is_uint32 in Hr. destruct (decide _).
  - by apply WriteBuffer_fits.
  - unfold WriteBuffer. rewrite (uint32_id (Index s + uint32 size)) by (unfold is_uint32; lia).
    destruct (decide _); [lia|done].
Qed.

(** The [assert] of [WriteBuffer] adds in [uint32]: for a string of
    2^32 - 1 bytes the sum wraps, the [assert] passes and [memcpy] runs
    past the 16-byte buffer. *)
Example string_4GiB_overflows :
  Z.of_nat (length string_4GiB) = 2 ^ 32 - 1
  /\ FxSerializeValue (VString string_4GiB) tiny_state = Abort OutOfBounds.
Proof.
  assert (Z.of_nat (length string_4GiB) = 2 ^ 32 - 1) as Hlen.
  { unfold string_4GiB. rewrite length_replicate. apply Z2Nat.id. lia. }
  split; [exact Hlen|].
  assert (uint32 (2 ^ 32 - 1) = 2 ^ 32 - 1) as H32 by reflexivity.
  assert (wf_section (data_of tiny_state)) as Hwf by solve_wf.
  assert (Index (data_of tiny_state) + 2 <= Size (data_of tiny_state)) as Hfit
    by (vm_compute; congruence).
  rewrite FxSerializeValue_eq. cbn zeta. rewrite Hlen, H32.
  unfold on_data at 2. fold (data_of tiny_state).
  rewrite (Write16_fits (uint16 (2 ^ 32 - 1)) _ Hwf Hfit). cbn [mbind Res_bind].
  unfold on_data. cbn [writer DataSection registry TypeSection].
  set (s := put (be16 (uint16 (2 ^ 32 - 1))) (data_of tiny_state)).
  assert (Index s = 2 /\ length (Data s) = 16%nat /\ Size s = 16) as (Hi & Hl & Hs)
    by (repeat split; vm_compute; reflexivity).
  clearbody s. unfold WriteBuffer. rewrite H32, Hi, Hs.
  change (uint32 (2 + (2 ^ 32 - 1))) with 1.
  destruct (decide (1 <= 16)) as [_|Hn]; [|lia].
  unfold memcpy. destruct (decide _) as [[_ Hdst]|_]; [|reflexivity].
  exfalso. rewrite Hl in Hdst. lia.
Qed.

(** ** Every type of a record has its entry *)

Lemma closed_registry rf r r' ts :
  closed r ts -> registry_le r r' -> registry_le r' rf -> registry_injective rf ->
  closed r' ts.
Proof.
  intros [Hassigned Hclosure] Hle Hrf Hinj. split.
  - intros j Hw. destruct (Hassigned j Hw) as (t & j' & Ht & Hj). exists t, j'. eauto.
  - intros t (j & Hj & Hw). destruct (Hassigned j Hw) as (t1 & j1 & Ht1 & Hj1).
    assert (t1 = t) as -> by (eapply Hinj; eauto).
    assert (j1 = j) as -> by (apply Hle in Ht1; congruence).
    eapply Forall_impl; [apply Hclosure; by exists j|].
    intros m (i & Hi & Hwi). exists i. eauto.
Qed.

Lemma closed_push rf r ts ts' t0 i :
  closed r ts -> registry_injective rf -> registry_le r rf ->
  tid r t0 = Some i -> Forall (known r ts) (members t0) ->
  map Id (mRegisteredTypeIds ts') = map Id (mRegisteredTypeIds ts) ++ [uint16 i] ->
  closed r ts'.
Proof.
  intros [Hassigned Hclosure] Hinj Hrf Ht0 Hms Hids.
  assert (forall j, IsTypePreviouslyWritten j ts' = true <->
            IsTypePreviouslyWritten j ts = true \/ uint16 j = uint16 i) as Hw'.
  { intros j. rewrite !written_iff, Hids, elem_of_app, list_elem_of_singleton. done. }
  assert (forall m, known r ts m -> known r ts' m) as Hmono.
  { intros m (j & Hj & Hw). exists j. split; [done|]. apply Hw'. by left. }
  split.
  - intros j Hw. apply Hw' in Hw as [Hw|Hw]; [by apply Hassigned|]. by exists t0, i.
  - intros t (j & Hj & Hw). apply Hw' in Hw as [Hw|Hw].
    + eapply Forall_impl; [apply Hclosure; by exists j|]. exact Hmono.
    + assert (t = t0) as -> by (eapply Hinj; eauto).
      eapply Forall_impl; [exact Hms|]. exact Hmono.
Qed.

Lemma WriteTypeWithoutChecks_ids type_id type_size args r ts r' ts' :
  WriteTypeWithoutChecks type_id type_size args (r, ts) = Ok (r', ts') ->
  (r' = r /\ ts' = ts)
  \/ map Id (mRegisteredTypeIds ts') = map Id (mRegisteredTypeIds ts) ++ [uint16 type_id].
Proof.
  unfold WriteTypeWithoutChecks. cbn [fst snd]. destruct (IsTypePreviouslyWritten _ ts).
  { intros [= <- <-]. by left. }
  destruct (Write8 _ (Base ts)) as [s1|]; [|discriminate]. cbn [mbind Res_bind].
  destruct (Write16 _ s1) as [s2|]; [|discriminate]. cbn [mbind Res_bind].
  destruct (Write16 _ s2) as [s3|]; [|discriminate]. cbn [mbind Res_bind].
  destruct (Write8 _ s3) as [s4|]; [|discriminate]. cbn [mbind Res_bind].
  destruct (for_each write_member args (r, s4)) as [[r5 s5]|]; [|discriminate].
  cbn [mbind Res_bind].
  destruct (Write8 _ s5) as [s6|]; [|discriminate]. cbn [mbind Res_bind].
  intros [= <- <-]. right. cbn [mRegisteredTypeIds]. by rewrite map_app.
Qed.

Lemma WriteTypeWithoutChecks_closed rf t0 type_id type_size r ts r' ts' :
  schema_inv ts -> closed r ts -> registry_injective rf ->
  tid r t0 = Some type_id -> Forall (known r ts) (members t0) ->
  WriteTypeWithoutChecks type_id type_size (members t0) (r, ts) = Ok (r', ts') ->
  registry_le r' rf -> closed r' ts'.
Proof.
  intros Hinv Hcl Hinj Ht0 Hms E Hrf.
  pose proof (WriteTypeWithoutChecks_inv _ _ _ _ _ _ _ Hinv E) as (_ & [Hle _] & _).
  apply WriteTypeWithoutChecks_ids in E as [[-> ->]|Hids]; [done|].
  assert (closed r' ts) as Hcl' by (by eapply closed_registry).
  eapply closed_push; [exact Hcl'|exact Hinj|exact Hrf|by apply Hle| |exact Hids].
  eapply Forall_impl; [exact Hms|]. intros m (i & Hi & Hw). exists i. eauto.
Qed.

Lemma for_each_schema_closed (f : CType -> TState -> Res TState) ms :
  Forall (fun t => schema_write_ok t (f t) /\ schema_write_closed (f t)) ms ->
  forall rf r ts r' ts',
    schema_inv ts -> closed r ts -> registry_injective rf ->
    for_each f ms (r, ts) = Ok (r', ts') -> registry_le r' rf ->
    closed r' ts' /\ Forall (known r' ts') ms.
Proof.
  induction 1 as [|t ms [Hok Hcl] Hall IH]; intros rf r ts r' ts' Hinv Hc Hinj;
    cbn [for_each].
  - intros [= <- <-] _. done.
  - destruct (f t (r, ts)) as [[r1 ts1]|] eqn:E1; [|discriminate]. cbn [mbind Res_bind].
    intros E2 Hrf.
    pose proof (Hok _ _ _ _ Hinv E1) as (Hinv1 & _ & Hk1).
    assert (schema_inv ts' /\ extends r1 ts1 r' ts') as [_ Hext].
    { eapply (for_each_schema_writes f ms); [|exact Hinv1|exact E2].
      eapply Forall_impl; [exact Hall|]. by intros ? [? _]. }
    assert (registry_le r1 rf) as Hrf1 by (intros x j Hj; apply Hrf, Hext, Hj).
    pose proof (Hcl _ _ _ _ _ Hinv Hc Hinj E1 Hrf1) as Hc1.
    destruct (IH _ _ _ _ _ Hinv1 Hc1 Hinj E2 Hrf) as [Hc2 Hk2].
    split; [done|]. constructor; [by eapply known_extends|done].
Qed.

Lemma GetTypeId_le t (r : FxSerializeUtil CType) :
  registry_le r (GetTypeId t r).2 /\ tid (GetTypeId t r).2 t = Some (GetTypeId t r).1.
Proof.
  destruct (GetTypeId t r) as [i r1] eqn:E. apply GetTypeId_assigns in E as [Hi Hle].
  split; [exact Hle|exact Hi].
Qed.

Lemma WriteTypeAndMembers__closed (f : CType -> TState -> Res TState) n sz ms type_id :
  Forall (fun t => schema_write_ok t (f t) /\ schema_write_closed (f t)) ms ->
  forall rf r ts r' ts',
    schema_inv ts -> closed r ts -> registry_injective rf ->
    tid r (TStruct n sz ms) = Some type_id ->
    WriteTypeAndMembers_ f type_id sz ms (r, ts) = Ok (r', ts') ->
    registry_le r' rf -> closed r' ts'.
Proof.
  intros Hall rf r ts r' ts' Hinv Hc Hinj Hid. unfold WriteTypeAndMembers_. cbn [fst snd].
  destruct (IsTypePreviouslyWritten _ ts). { by intros [= <- <-] _. }
  destruct (for_each f ms (r, ts)) as [[r1 ts1]|] eqn:E1; [|discriminate].
  cbn [mbind Res_bind]. intros E2 Hrf.
  assert (schema_inv ts1 /\ extends r ts r1 ts1) as [Hinv1 [Hle1 _]].
  { eapply (for_each_schema_writes f ms); [|exact Hinv|exact E1].
    eapply Forall_impl; [exact Hall|]. by intros ? [? _]. }
  pose proof (WriteTypeWithoutChecks_inv _ _ _ _ _ _ _ Hinv1 E2) as (_ & [Hle2 _] & _).
  assert (registry_le r1 rf) as Hrf1 by (intros x j Hj; apply Hrf, Hle2, Hj).
  destruct (for_each_schema_closed f ms Hall _ _ _ _ _ Hinv Hc Hinj E1 Hrf1) as [Hc1 Hk1].
  eapply (WriteTypeWithoutChecks_closed rf (TStruct n sz ms)); eauto.
  rewrite <- (uint16_idemp type_id) in E2 at 1.
  unfold WriteTypeWithoutChecks in *. by rewrite !uint16_idemp in E2.
Qed.

Lemma WriteTypeForTypeId_closed t : schema_write_closed (WriteTypeForTypeId t).
Proof.
  induction t as [| | |n sz|n sz ms IH] using CType_ind';
    intros rf r ts r' ts' Hinv Hc Hinj; rewrite WriteTypeForTypeId_eq;
    match goal with |- context [GetTypeId ?t r] =>
      destruct (GetTypeId_le t r) as [Hle1 Hid1];
      destruct (GetTypeId t r) as [i r1]; cbn [fst snd] in Hle1, Hid1 end.
  1-4: destruct (IsTypePreviouslyWritten i ts);
       [ intros [= <- <-] Hrf; by eapply closed_registry
       | intros E Hrf;
         pose proof (WriteTypeWithoutChecks_inv _ _ _ _ _ _ _ Hinv E) as (_ & [Hle2 _] & _);
         eapply (WriteTypeWithoutChecks_closed rf); [exact Hinv| |exact Hinj|exact Hid1|
           constructor|exact E|exact Hrf];
         eapply closed_registry; [exact Hc|exact Hle1| |exact Hinj];
         intros x j Hj; apply Hrf, Hle2, Hj ].
  destruct (IsTypePreviouslyWritten i ts).
  { intros [= <- <-] Hrf. by eapply closed_registry. }
  pose proof (construct_type_keeps (TStruct n sz ms) r1) as Hle2.
  rewrite (GetTypeId_assigned _ _ _ (Hle2 _ _ Hid1)). intros E Hrf.
  pose proof (WriteTypeAndMembers_inv _ _ _ _ _ _ _ Hinv E) as (_ & [Hle3 _] & _).
  assert (registry_le (construct_type (TStruct n sz ms) r1) rf) as Hrf2
    by (intros x j Hj; apply Hrf, Hle3, Hj).
  eapply (WriteTypeAndMembers__closed WriteTypeForTypeId n sz ms i);
    [|exact Hinv| |exact Hinj|by apply Hle2|exact E|exact Hrf].
  - eapply Forall_impl; [exact IH|]. intros m Hm. split; [apply WriteTypeForTypeId_inv|done].
  - eapply closed_registry; [exact Hc| |exact Hrf2|exact Hinj].
    intros x j Hj. by apply Hle2, Hle1.
Qed.

Lemma WriteTypeTo_closed n sz ms : schema_write_closed (WriteTypeTo (TStruct n sz ms)).
Proof.
  intros rf r ts r' ts' Hinv Hc Hinj. unfold WriteTypeTo. cbn [fst snd].
  destruct (GetTypeId_le (TStruct n sz ms) r) as [Hle1 Hid1].
  destruct (GetTypeId _ r) as [i r1]; cbn [fst snd] in Hle1, Hid1. intros E Hrf.
  pose proof (WriteTypeAndMembers_inv _ _ _ _ _ _ _ Hinv E) as (_ & [Hle3 _] & _).
  assert (registry_le r1 rf) as Hrf1 by (intros x j Hj; apply Hrf, Hle3, Hj).
  eapply (WriteTypeAndMembers__closed WriteTypeForTypeId n sz ms i);
    [|exact Hinv| |exact Hinj|exact Hid1|exact E|exact Hrf].
  - apply Forall_forall. intros m _.
    split; [apply WriteTypeForTypeId_inv|apply WriteTypeForTypeId_closed].
  - by eapply closed_registry.
Qed.

Lemma known_all_types r ts t :
  closed r ts -> known r ts t -> Forall (known r ts) (all_types t).
Proof.
  intros [_ Hclosure]. induction t as [| | |n sz|n sz ms IH] using CType_ind'; intros Hk;
    cbn [all_types]; try (constructor; [done|constructor]).
  constructor; [done|]. specialize (Hclosure _ Hk). cbn [members] in Hclosure.
  clear Hk. induction IH as [|m ms Hm _ IHms]; [constructor|].
  apply Forall_cons in Hclosure as [Hkm Hkms]. cbn [map concat].
  apply Forall_app. split; [by apply Hm|by apply IHms].
Qed.

Lemma for_each_serialize_closed fields :
  Forall (fun v => serialize_closed (FxSerializeValue v)) fields ->
  serialize_closed (for_each FxSerializeValue fields).
Proof.
  induction 1 as [|v fields Hv _ IH]; intros rf st st' Hinv Hc Hinj; cbn [for_each].
  - by intros [= <-] _.
  - destruct (FxSerializeValue v st) as [st1|] eqn:E1; [|discriminate].
    cbn [mbind Res_bind]. intros E2 Hrf.
    pose proof (FxSerializeValue_schema_kept v st st1 Hinv E1) as (Hinv1 & _ & _).
    assert (registry_le (registry st1) (registry st')) as Hle.
    { eapply (for_each_schema_kept FxSerializeValue fields) in E2 as (_ & [Hle _] & _);
        [exact Hle| |exact Hinv1].
      apply Forall_forall. intros w _. apply FxSerializeValue_schema_kept. }
    eapply IH; [exact Hinv1| |exact Hinj|exact E2|exact Hrf].
    eapply Hv; [exact Hinv|exact Hc|exact Hinj|exact E1|].
    intros x j Hj. by apply Hrf, Hle.
Qed.

Lemma WriteTo_closed_from name_hash n sz fields :
  Forall (fun v => serialize_closed (FxSerializeValue v)) fields ->
  serialize_closed (WriteTo name_hash n sz fields).
Proof.
  intros Hall rf st st' Hinv Hc Hinj E Hrf. unfold WriteTo, WriteTo_ in E.
  destruct (on_types _ st) as [st1|] eqn:E1; [|discriminate]. cbn [mbind Res_bind] in E.
  apply on_types_inv in E1 as [E1 _].
  pose proof (WriteTypeTo_inv _ _ _ _ _ _ _ Hinv E1) as (Hinv1 & _ & (i & Hi & _)).
  rewrite (GetTypeId_assigned _ _ _ Hi) in E. unfold FxSerializeStruct_ in E.
  destruct (on_data _ _) as [st2|] eqn:E2; [|discriminate]. cbn [mbind Res_bind] in E.
  destruct (for_each FxSerializeValue fields st2) as [st3|] eqn:E3; [|discriminate].
  cbn [mbind Res_bind] in E.
  apply on_data_inv in E2 as (Hr2 & Ht2 & _).
  change (registry st2 = registry st1) in Hr2. change (types_of st2 = types_of st1) in Ht2.
  apply on_data_inv in E as (Hr4 & Ht4 & _).
  assert (schema_inv (types_of st2)) as Hinv2 by (by rewrite Ht2).
  assert (registry_le (registry st2) (registry st3)) as Hle.
  { pose proof E3 as E3'.
    eapply (for_each_schema_kept FxSerializeValue fields) in E3' as (_ & [Hle _] & _);
      [exact Hle| |exact Hinv2].
    apply Forall_forall. intros w _. apply FxSerializeValue_schema_kept. }
  assert (registry_le (registry st3) rf) as Hrf3 by (by rewrite <- Hr4).
  assert (closed (registry st1) (types_of st1)) as Hc1.
  { eapply (WriteTypeTo_closed n sz (map type_of fields)); [exact Hinv|exact Hc|exact Hinj
      |exact E1|]. intros x j Hj. apply Hrf3, Hle. by rewrite Hr2. }
  rewrite Hr4, Ht4.
  eapply (for_each_serialize_closed fields Hall); [exact Hinv2| |exact Hinj|exact E3|exact Hrf3].
  by rewrite Hr2, Ht2.
Qed.

Lemma FxSerializeValue_closed v : serialize_closed (FxSerializeValue v).
Proof.
  induction v as [x|b|s|n sz|n sz fields IH] using Value_ind';
    intros rf st st' Hinv Hc Hinj E Hrf.
  - cbn in E. apply on_data_inv in E as (-> & -> & _). done.
  - cbn in E. destruct (float32_to_uint32 b); [|discriminate].
    apply on_data_inv in E as (-> & -> & _). done.
  - cbn in E. destruct (on_data _ st) as [st1|] eqn:E1; [|discriminate]. cbn in E.
    apply on_data_inv in E1 as (Hr1 & Ht1 & _). apply on_data_inv in E as (Hr & Ht & _).
    by rewrite Hr, Ht, Hr1, Ht1.
  - by injection E as <-.
  - rewrite FxSerializeValue_eq in E. by eapply (WriteTo_closed_from 0 n sz fields IH).
Qed.

Lemma WriteTo_closed name_hash n sz fields : serialize_closed (WriteTo name_hash n sz fields).
Proof.
  apply WriteTo_closed_from. apply Forall_forall. intros v _. apply FxSerializeValue_closed.
Qed.

Lemma closed_new r buffer_size tblock dblock :
  closed r (TypeSection (FxSerializerIO_new buffer_size tblock dblock)).
Proof.
  split.
  - intros j Hw. discriminate.
  - intros t (j & _ & Hw). discriminate.
Qed.

(** An injective registry: fewer than 65537 types have an id. *)
Lemma first_requests_injective (o : list CType) r :
  first_requests o r -> Z.of_nat (length o) <= 2 ^ 16 -> registry_injective r.
Proof.
  intros (Hnd & _ & Hno & Hk) Hlen t t' j j' Ht Ht' E.
  destruct (decide (t ∈ o)) as [Hin|Hn]; [|rewrite (Hno _ Hn) in Ht; discriminate].
  destruct (decide (t' ∈ o)) as [Hin'|Hn]; [|rewrite (Hno _ Hn) in Ht'; discriminate].
  apply list_elem_of_lookup_1 in Hin as [k Hlk], Hin' as [k' Hlk'].
  rewrite (Hk _ _ Hlk) in Ht. rewrite (Hk _ _ Hlk') in Ht'.
  injection Ht as <-. injection Ht' as <-. rewrite !uint16_idemp in E.
  apply lookup_lt_Some in Hlk as Hlt, Hlk' as Hlt'.
  assert (k = k') as ->.
  { unfold uint16 in E. change (2 ^ 16) with 65536 in *.
    Z.div_mod_to_equations. lia. }
  congruence.
Qed.

(** The registry of the example holds four types, in the order of their
    first requests: the two structs at construction, then [int32] and
    [float32] when the schema is written. *)
Example example_registry :
  registry example_written_thrice
  = (requests [TStruct "TestStructB" 12 [TInt32; TInt32];
               TStruct "TestStructA" 28 TestStructA_types; TInt32; TFloat32]
       registry_init).2.
Proof. vm_compute. reflexivity. Qed.

Example example_registry_injective :
  closed (registry example_start) (types_of example_start)
  /\ registry_injective (registry example_written_thrice).
Proof.
  split; [apply closed_new|]. rewrite example_registry.
  eapply first_requests_injective.
  - apply (requests_rank _ [] registry_init first_requests_init).
  - vm_compute. discriminate.
Qed.

(** C5.  In an archive whose type section holds one entry per registered
    id (as a new archive does), write a first record of a struct type and
    then any number of further records of the same type.  The type section
    after the last write is the one after the first write; its bytes are
    entries with pairwise distinct ids, one per registered id; the struct
    type and every struct type nested in it has an entry; and where the
    entries of the starting section have the entries of their members (as in
    a new archive) and no two types share an id, every member type, to any
    depth, has an entry.  Each schema write on an id that was previously
    written returns at once without a change. *)
Theorem schema_entries_deduplicated
    (name : string) (size : Z) (tys : list CType)
    (first : Z * list Value) (rest : list (Z * list Value)) (st st1 stN : State) :
  schema_inv (types_of st) ->
  Forall (fun rec => map type_of rec.2 = tys) (first :: rest) ->
  WriteTo first.1 name size first.2 st = Ok st1 ->
  WriteRecords name size rest st1 = Ok stN ->
  types_of stN = types_of st1
  /\ (exists es, holds_entries (types_of stN) es)
  /\ Forall (known (registry stN) (types_of stN)) (struct_types (TStruct name size tys))
  /\ (closed (registry st) (types_of st) -> registry_injective (registry stN) ->
      Forall (known (registry stN) (types_of stN)) (all_types (TStruct name size tys)))
  /\ (forall type_id type_size args r ts,
        IsTypePreviouslyWritten type_id ts = true ->
        WriteTypeWithoutChecks type_id type_size args (r, ts) = Ok (r, ts)
        /\ WriteTypeAndMembers type_id type_size args (r, ts) = Ok (r, ts))
  /\ (forall t r ts, known r ts t ->
        WriteTypeForTypeId t (r, ts) = Ok (r, ts) /\ WriteTypeTo t (r, ts) = Ok (r, ts)).
Proof.
  intros Hinv Hty E1 EN. apply Forall_cons in Hty as [Hty1 Hty]. subst tys.
  pose proof (WriteTo_closed first.1 name size first.2 (registry st1) st st1 Hinv) as Hclosed.
  pose proof E1 as E1'.
  apply WriteTo_schema_kept in E1 as ([_ Hes] & _ & Hk1); [|done].
  pose proof (WriteRecords_schema_untouched _ _ _ _ _ _ Hty Hk1 EN) as [Hr Ht].
  rewrite Hr, Ht. split; [done|]. split; [done|]. split; [done|]. split; [|split].
  - intros Hc Hinj. apply known_all_types; [|by apply Forall_cons in Hk1 as [Hk1 _]].
    apply Hclosed; [done|done|done|]. by intros t j Hj.
  - intros. split; [by apply WriteTypeWithoutChecks_noop|by apply WriteTypeAndMembers_noop].
  - intros. split; [by apply WriteTypeForTypeId_noop|by apply WriteTypeTo_noop].
Qed.

Lemma schema_entries_deduplicated_witness :
  types_of example_written_thrice = types_of example_written
  /\ (exists es, holds_entries (types_of example_written_thrice) es)
  /\ Forall (known (registry example_written_thrice) (types_of example_written_thrice))
       (struct_types (TStruct "TestStructA" 28 TestStructA_types))
  /\ (closed (registry example_start) (types_of example_start) ->
      registry_injective (registry example_written_thrice) ->
      Forall (known (registry example_written_thrice) (types_of example_written_thrice))
        (all_types (TStruct "TestStructA" 28 TestStructA_types)))
  /\ (forall type_id type_size args r ts,
        IsTypePreviouslyWritten type_id ts = true ->
        WriteTypeWithoutChecks type_id type_size args (r, ts) = Ok (r, ts)
        /\ WriteTypeAndMembers type_id type_size args (r, ts) = Ok (r, ts))
  /\ (forall t r ts, known r ts t ->
        WriteTypeForTypeId t (r, ts) = Ok (r, ts) /\ WriteTypeTo t (r, ts) = Ok (r, ts)).
Proof.
  apply (schema_entries_deduplicated "TestStructA" 28 TestStructA_types
           (hash_A, TestStructA_fields 30 15 float32_3 5 10) example_more_records
           example_start example_written example_written_thrice).
  - apply schema_inv_new. reflexivity.
  - repeat constructor.
  - vm_compute. reflexivity.
  - vm_compute. reflexivity.
Defined.

(** The type section of the example after three records: four entries,
    for [int32], [float32], [TestStructB] and [TestStructA]. *)
Example example_type_section :
  written (Base (types_of example_written_thrice))
  = encode_entries [mkSchemaEntry 3 4 []; mkSchemaEntry 4 4 [];
                    mkSchemaEntry 1 12 [(4, 3); (4, 3)];
                    mkSchemaEntry 2 28 [(4, 3); (4, 3); (4, 4); (12, 1)]]
  /\ map Id (mRegisteredTypeIds (types_of example_written_thrice)) = [3; 4; 1; 2]
  /\ Index (data_of example_written_thrice) = 108.
Proof. repeat split; vm_compute; reflexivity. Qed.

(** * More of the code: sections, hashes, schema lookups, files *)

(** ** Section buffers *)

Lemma Write8_fits value s :
  wf_section s -> Index s + 1 <= Size s -> Write8 value s = Ok (put [uint8 value] s).
Proof.
  intros Hwf Hfit. rewrite Write8_checked by done. destruct (decide _); [done|lia].
Qed.

Lemma Write32_fits value32 s :
  wf_section s -> Index s + 4 <= Size s -> Write32 value32 s = Ok (put (be32 value32) s).
Proof.
  intros Hwf Hfit. unfold Write32.
  rewrite (Write16_fits _ _ Hwf) by lia. cbn [mbind Res_bind].
  rewrite Write16_fits; [|apply wf_put; [done|cbn; lia]|cbn; lia].
  rewrite put_put by (done || cbn; lia). unfold be32. by rewrite !be16_uint16.
Qed.

Lemma wf_rewind_put bs s :
  wf_section s -> Index s + Z.of_nat (length bs) <= Size s ->
  wf_section (set_Index (Index s) (put bs s)).
Proof.
  intros Hwf Hfit. pose proof (wf_put bs s Hwf Hfit) as (Hl & Hi & Hs).
  destruct Hwf as (_ & Hi0 & _). unfold wf_section in *. cbn in *. lia.
Qed.


(** What [Read16] and [Read32] make of two bytes and of two halves. *)
Lemma split16 h l :
  is_uint8 h -> is_uint8 l ->
  be16 (uint16 (Z.lor (uint16 (uint16 h ≪ 8)) l)) = [h; l]
  /\ is_uint16 (uint16 (Z.lor (uint16 (uint16 h ≪ 8)) l)).
Proof.
  unfold is_uint8. intros Hh Hl. split; [|apply uint16_range].
  rewrite (uint16_id h) by (unfold is_uint16; lia).
  rewrite Z.shiftl_mul_pow2 by lia.
  rewrite (uint16_id (h * 2 ^ 8)) by (unfold is_uint16; lia).
  rewrite lor_shift_add by lia.
  rewrite (uint16_id (h * 2 ^ 8 + l)) by (unfold is_uint16; lia).
  unfold be16. rewrite (uint16_id (h * 2 ^ 8 + l)) by (unfold is_uint16; lia).
  rewrite Z.shiftr_div_pow2 by lia. unfold uint8.
  f_equal; [|f_equal]; Z.div_mod_to_equations; lia.
Qed.

Lemma split32 h l :
  is_uint16 h -> is_uint16 l ->
  be32 (Z.lor (uint32 (uint32 h ≪ 16)) (uint32 l)) = be16 h ++ be16 l
  /\ is_uint32 (Z.lor (uint32 (uint32 h ≪ 16)) (uint32 l)).
Proof.
  unfold is_uint16. intros Hh Hl.
  rewrite (uint32_id h), (uint32_id l) by (unfold is_uint32; lia).
  rewrite Z.shiftl_mul_pow2 by lia.
  rewrite (uint32_id (h * 2 ^ 16)) by (unfold is_uint32; lia).
  rewrite lor_shift_add by lia.
  assert (is_uint32 (h * 2 ^ 16 + l)) as Hv by (unfold is_uint32; lia).
  split; [|done]. unfold be32. rewrite (uint32_id _ Hv).
  rewrite Z.shiftr_div_pow2 by lia.
  replace ((h * 2 ^ 16 + l) / 2 ^ 16) with h by (Z.div_mod_to_equations; lia).
  f_equal. rewrite <- (be16_uint16 (h * 2 ^ 16 + l)). f_equal.
  unfold uint16. Z.div_mod_to_equations. lia.
Qed.

Lemma under_cursor_cons s :
  wf_section s -> Index s + 1 <= Size s ->
  exists b, Data s !! Z.to_nat (Index s) = Some b
            /\ forall n, under_cursor (S n) s = uint8 b :: under_cursor n (advance 1 s).
Proof.
  intros (Hl & Hi & Hs) Hfit.
  destruct (Data s !! Z.to_nat (Index s)) as [b|] eqn:Hlk;
    [|apply lookup_ge_None in Hlk; lia].
  exists b. split; [done|]. intros n. unfold under_cursor.
  rewrite (drop_S _ b _ Hlk). cbn [take map advance set_Index Index Data].
  do 4 f_equal. lia.
Qed.

Lemma Read8_checked s :
  wf_section s -> Size s < 2 ^ 32 - 2 ->
  (Index s + 1 <= Size s ->
   exists v, Read8 s = Ok (v, advance 1 s) /\ [v] = under_cursor 1 s)
  /\ (Size s < Index s + 1 -> Read8 s = Abort AssertionFailed).
Proof.
  intros Hwf Hsmall. pose proof Hwf as (Hl & Hi & Hs). unfold Read8.
  rewrite (uint32_id (Index s + 1)) by (unfold is_uint32; lia).
  split; intros Hfit; (destruct (decide _); [|try lia]); try lia; [|done].
  destruct (under_cursor_cons s Hwf Hfit) as (b & Hlk & Hu).
  unfold load. rewrite Hlk. cbn. exists (uint8 b). split; [done|].
  rewrite Hu. reflexivity.
Qed.

Lemma Read16_checked s :
  wf_section s -> Size s < 2 ^ 32 - 2 ->
  (Index s + 2 <= Size s ->
   exists v, Read16 s = Ok (v, advance 2 s) /\ be16 v = under_cursor 2 s /\ is_uint16 v)
  /\ (Size s < Index s + 2 -> Read16 s = Abort AssertionFailed).
Proof.
  intros Hwf Hsmall. pose proof Hwf as (Hl & Hi & Hs). unfold Read16.
  rewrite (uint32_id (Index s + 2)) by (unfold is_uint32; lia).
  split; intros Hfit; (destruct (decide _); [|try lia]); try lia; [|done].
  rewrite (uint32_id (Index s + 1)) by (unfold is_uint32; lia).
  rewrite (uint32_id (Index s + 1 + 1)) by (unfold is_uint32; lia).
  destruct (under_cursor_cons s Hwf ltac:(lia)) as (b1 & Hlk1 & Hu1).
  assert (wf_section (advance 1 s)) as Hwf1 by (apply wf_advance; [done|lia..]).
  destruct (under_cursor_cons (advance 1 s) Hwf1 ltac:(cbn; lia)) as (b2 & Hlk2 & Hu2).
  cbn [advance set_Index Index Data] in Hlk2.
  unfold load. rewrite Hlk1. cbn [mbind Res_bind]. rewrite Hlk2. cbn [mbind Res_bind].
  eexists. split; [unfold advance; do 3 f_equal; lia|].
  rewrite Hu1, Hu2. cbn [under_cursor take map].
  apply split16; apply uint8_range.
Qed.

Lemma Read32_checked s :
  wf_section s -> Size s < 2 ^ 32 - 2 ->
  (Index s + 4 <= Size s ->
   exists v, Read32 s = Ok (v, advance 4 s) /\ be32 v = under_cursor 4 s /\ is_uint32 v)
  /\ (Size s < Index s + 4 -> Read32 s = Abort AssertionFailed).
Proof.
  intros Hwf Hsmall. pose proof Hwf as (Hl & Hi & Hs). unfold Read32.
  destruct (Read16_checked s Hwf Hsmall) as [Hok Hbad].
  destruct (decide (Index s + 2 <= Size s)) as [Hfit2|Hno];
    [|split; [lia|intros _; rewrite Hbad by lia; reflexivity]].
  destruct (Hok Hfit2) as (h & -> & Hh & Hhr). cbn [mbind Res_bind].
  assert (wf_section (advance 2 s)) as Hwf2 by (apply wf_advance; [done|lia..]).
  destruct (Read16_checked (advance 2 s) Hwf2 Hsmall) as [Hok2 Hbad2].
  cbn [advance set_Index Index Size] in Hok2, Hbad2.
  split; intros Hfit.
  - destruct (Hok2 ltac:(lia)) as (l & -> & Hlo & Hlr). cbn [mbind Res_bind].
    rewrite advance_advance. eexists. split; [reflexivity|].
    destruct (split32 h l Hhr Hlr) as [-> Hr]. split; [|done].
    rewrite Hh, Hlo. unfold under_cursor. cbn [advance set_Index Index Data].
    rewrite <- map_app. f_equal.
    replace (Z.to_nat (Index s + 2)) with (Z.to_nat (Index s) + 2)%nat by lia.
    rewrite <- drop_drop, take_take_drop. reflexivity.
  - rewrite Hbad2 by lia. reflexivity.
Qed.

(** X1.  A value written at the cursor of a section with room for it is
    read back from that position, truncated to the width of the write
    ([uint8], [uint16], [uint32]); the read leaves the cursor where the
    write left it. *)
Theorem section_write_read_roundtrip (v : Z) (s : FxSerializerBaseSection) :
  wf_section s ->
  (Index s + 1 <= Size s ->
   exists s', Write8 v s = Ok s'
              /\ Read8 (set_Index (Index s) s') = Ok (uint8 v, s'))
  /\ (Index s + 2 <= Size s ->
      exists s', Write16 v s = Ok s'
                 /\ Read16 (set_Index (Index s) s') = Ok (uint16 v, s'))
  /\ (Index s + 4 <= Size s ->
      exists s', Write32 v s = Ok s'
                 /\ Read32 (set_Index (Index s) s') = Ok (uint32 v, s')).
Proof.
  intros Hwf. split; [|split]; intros Hfit; eexists.
  - split; [by apply Write8_fits|].
    assert (Index s + Z.of_nat (length [uint8 v]) <= Size s) as Hfit' by (cbn; lia).
    rewrite (Read8_at (uint8 v) [] _ (wf_rewind_put _ _ Hwf Hfit')
               (bytes_at_put _ _ Hwf Hfit')).
    rewrite uint8_idemp. reflexivity.
  - split; [by apply Write16_fits|].
    assert (Index s + Z.of_nat (length (be16 v)) <= Size s) as Hfit' by (cbn; lia).
    pose proof (bytes_at_put (be16 v) s Hwf Hfit') as Hb.
    rewrite <- (app_nil_r (be16 v)) in Hb at 2.
    rewrite (Read16_be16 v [] _ (wf_rewind_put _ _ Hwf Hfit') Hb).
    reflexivity.
  - split; [by apply Write32_fits|].
    assert (Index s + Z.of_nat (length (be32 v)) <= Size s) as Hfit' by (cbn; lia).
    pose proof (bytes_at_put (be32 v) s Hwf Hfit') as Hb.
    rewrite <- (app_nil_r (be32 v)) in Hb at 2.
    rewrite (Read32_be32 v [] _ (wf_rewind_put _ _ Hwf Hfit') Hb).
    reflexivity.
Qed.

Lemma section_write_read_roundtrip_witness :
  (Index (data_of tiny_state) + 1 <= Size (data_of tiny_state) ->
   exists s', Write8 0x1234 (data_of tiny_state) = Ok s'
              /\ Read8 (set_Index (Index (data_of tiny_state)) s') = Ok (uint8 0x1234, s'))
  /\ (Index (data_of tiny_state) + 2 <= Size (data_of tiny_state) ->
      exists s', Write16 0x1234 (data_of tiny_state) = Ok s'
                 /\ Read16 (set_Index (Index (data_of tiny_state)) s')
                    = Ok (uint16 0x1234, s'))
  /\ (Index (data_of tiny_state) + 4 <= Size (data_of tiny_state) ->
      exists s', Write32 0x1234 (data_of tiny_state) = Ok s'
                 /\ Read32 (set_Index (Index (data_of tiny_state)) s')
                    = Ok (uint32 0x1234, s')).
Proof.
  apply (section_write_read_roundtrip 0x1234 (data_of tiny_state)). solve_wf.
Defined.

(** [WriteBuffer] by cases: room for [size] bytes or not, a source of
    [size] bytes or a shorter one, a sum [Index + size] below 2^32 or not. *)
Lemma WriteBuffer_cases size data s :
  wf_section s ->
  WriteBuffer size data s
  = if decide (Index s + uint32 size <= Size s)
    then if decide (Z.to_nat (uint32 size) <= length data)%nat
         then Ok (put (take (Z.to_nat (uint32 size)) data) s)
         else Abort OutOfBounds
    else if decide (Index s + uint32 size < 2 ^ 32)
         then Abort AssertionFailed
         else Abort OutOfBounds.
Proof.
  intros Hwf. pose proof Hwf as (Hl & Hi & Hs).
  pose proof (uint32_range size) as Hr. unfold is_uint32 in Hr.
  destruct (decide (Index s + uint32 size <= Size s)) as [Hfit|Hno].
  - destruct (decide _) as [Hsrc|Hshort]; [by apply WriteBuffer_fits|].
    unfold WriteBuffer.
    rewrite (uint32_id (Index s + uint32 size)) by (unfold is_uint32; lia).
    destruct (decide _) as [_|]; [|lia].
    unfold memcpy. destruct (decide _) as [[Hsrc _]|_]; [lia|reflexivity].
  - destruct (decide _) as [Hlow|Hwrap].
    + unfold WriteBuffer.
      rewrite (uint32_id (Index s + uint32 size)) by (unfold is_uint32; lia).
      destruct (decide _); [lia|done].
    + unfold WriteBuffer.
      assert (uint32 (Index s + uint32 size) = Index s + uint32 size - 2 ^ 32) as E.
      { unfold uint32 at 1. rewrite <- (Z.mod_add _ (-1)) by lia. apply Z.mod_small. lia. }
      rewrite E. destruct (decide _) as [_|]; [|lia].
      unfold memcpy. destruct (decide _) as [[_ Hdst]|_]; [lia|reflexivity].
Qed.

(** X2.  On a section of fewer than 2^32 - 2 bytes, [Write8], [Write16]
    and [Write32] with room store the bytes of the value at the cursor,
    most significant byte first, and move the cursor past them; without
    room they stop at their assertion, so they never store outside the
    buffer.  [WriteBuffer] with room copies the first [size] bytes of a
    source that holds that many and moves the cursor past them (a shorter
    source is read past its end).  Without room it stops at its assertion
    only while [Index + size] is below 2^32: from 2^32 on the sum wraps,
    the assertion passes and the copy runs past the end of the buffer. *)
Theorem writes_are_bounds_checked (s : FxSerializerBaseSection) :
  wf_section s -> Size s < 2 ^ 32 - 2 ->
  (forall v, Write8 v s = if decide (Index s + 1 <= Size s)
                          then Ok (put [uint8 v] s) else Abort AssertionFailed)
  /\ (forall v, Write16 v s = if decide (Index s + 2 <= Size s)
                              then Ok (put (be16 v) s) else Abort AssertionFailed)
  /\ (forall v, Write32 v s = if decide (Index s + 4 <= Size s)
                              then Ok (put (be32 v) s) else Abort AssertionFailed)
  /\ (forall size data,
        WriteBuffer size data s
        = if decide (Index s + uint32 size <= Size s)
          then if decide (Z.to_nat (uint32 size) <= length data)%nat
               then Ok (put (take (Z.to_nat (uint32 size)) data) s)
               else Abort OutOfBounds
          else if decide (Index s + uint32 size < 2 ^ 32)
               then Abort AssertionFailed
               else Abort OutOfBounds).
Proof.
  intros Hwf Hsmall. split; [|split; [|split]].
  - intros v. by apply Write8_checked.
  - intros v. by apply Write16_checked.
  - intros v. destruct (decide _) as [Hfit|Hno]; [by apply Write32_fits|].
    unfold Write32. rewrite Write16_checked by done.
    destruct (decide (Index s + 2 <= Size s)) as [Hfit2|]; [|done].
    cbn [mbind Res_bind].
    rewrite Write16_checked; [|apply wf_put; [done|cbn; lia]|done].
    destruct (decide _) as [Hfit4|]; [cbn in Hfit4; lia|done].
  - intros size data. by apply WriteBuffer_cases.
Qed.

Lemma writes_are_bounds_checked_witness :
  (forall v, Write8 v full_section
             = if decide (Index full_section + 1 <= Size full_section)
               then Ok (put [uint8 v] full_section) else Abort AssertionFailed)
  /\ (forall v, Write16 v full_section
                = if decide (Index full_section + 2 <= Size full_section)
                  then Ok (put (be16 v) full_section) else Abort AssertionFailed)
  /\ (forall v, Write32 v full_section
                = if decide (Index full_section + 4 <= Size full_section)
                  then Ok (put (be32 v) full_section) else Abort AssertionFailed)
  /\ (forall size data,
        WriteBuffer size data full_section
        = if decide (Index full_section + uint32 size <= Size full_section)
          then if decide (Z.to_nat (uint32 size) <= length data)%nat
               then Ok (put (take (Z.to_nat (uint32 size)) data) full_section)
               else Abort OutOfBounds
          else if decide (Index full_section + uint32 size < 2 ^ 32)
               then Abort AssertionFailed
               else Abort OutOfBounds).
Proof.
  apply (writes_are_bounds_checked full_section); [solve_wf|vm_compute; congruence].
Defined.

(** The three outcomes of [WriteBuffer] without a write inside the buffer,
    on the full 4-byte section: no room, a source shorter than [size], and
    a sum that wraps. *)
Example WriteBuffer_outcomes :
  WriteBuffer 1 [7] full_section = Abort AssertionFailed
  /\ WriteBuffer 2 [7] (set_Index 0 full_section) = Abort OutOfBounds
  /\ WriteBuffer 1 [7] (set_Index 3 full_section)
     = Ok {| Data := [1; 2; 3; 7]; Index := 4; Size := 4 |}
  /\ WriteBuffer (2 ^ 32 - 4) [] full_section = Abort OutOfBounds.
Proof. repeat split; vm_compute; reflexivity. Qed.

(** X3.  The assertion of [WriteBuffer] adds [Index] and [size] as
    [uint32]s.  When the sum passes 2^32 it wraps to a value below [Index],
    the assertion holds, and [memcpy] runs past the end of the buffer. *)
Theorem WriteBuffer_assert_wraps (size : Z) (data : list Z) (s : FxSerializerBaseSection) :
  wf_section s -> 2 ^ 32 <= Index s + uint32 size ->
  WriteBuffer size data s = Abort OutOfBounds.
Proof.
  intros (Hl & Hi & Hs) Hwrap. unfold WriteBuffer.
  pose proof (uint32_range size) as Hr. unfold is_uint32 in Hr.
  assert (uint32 (Index s + uint32 size) = Index s + uint32 size - 2 ^ 32) as E.
  { unfold uint32 at 1. rewrite <- (Z.mod_add _ (-1)) by lia. apply Z.mod_small. lia. }
  rewrite E. destruct (decide _) as [_|]; [|lia].
  unfold memcpy. destruct (decide _) as [[_ Hdst]|_]; [lia|reflexivity].
Qed.

Lemma WriteBuffer_assert_wraps_witness :
  WriteBuffer (2 ^ 32 - 1) [] one_byte_written = Abort OutOfBounds.
Proof.
  apply WriteBuffer_assert_wraps; [solve_wf|vm_compute; congruence].
Defined.

(** X4.  On a section of fewer than 2^32 - 2 bytes, a read with room under
    the cursor returns the value whose big-endian bytes are there, whatever
    wrote them, and moves the cursor past them; a read without room stops
    at its assertion.  Room is measured against the capacity [Size], not
    against what has been written. *)
Theorem reads_are_bounds_checked (s : FxSerializerBaseSection) :
  wf_section s -> Size s < 2 ^ 32 - 2 ->
  ((Index s + 1 <= Size s ->
    exists v, Read8 s = Ok (v, advance 1 s) /\ [v] = under_cursor 1 s)
   /\ (Size s < Index s + 1 -> Read8 s = Abort AssertionFailed))
  /\ ((Index s + 2 <= Size s ->
       exists v, Read16 s = Ok (v, advance 2 s) /\ be16 v = under_cursor 2 s
                 /\ is_uint16 v)
      /\ (Size s < Index s + 2 -> Read16 s = Abort AssertionFailed))
  /\ ((Index s + 4 <= Size s ->
       exists v, Read32 s = Ok (v, advance 4 s) /\ be32 v = under_cursor 4 s
                 /\ is_uint32 v)
      /\ (Size s < Index s + 4 -> Read32 s = Abort AssertionFailed)).
Proof.
  intros Hwf Hsmall.
  split; [by apply Read8_checked|]. split; [by apply Read16_checked|by apply Read32_checked].
Qed.

Lemma reads_are_bounds_checked_witness :
  ((Index one_byte_written + 1 <= Size one_byte_written ->
    exists v, Read8 one_byte_written = Ok (v, advance 1 one_byte_written)
              /\ [v] = under_cursor 1 one_byte_written)
   /\ (Size one_byte_written < Index one_byte_written + 1 ->
       Read8 one_byte_written = Abort AssertionFailed))
  /\ ((Index one_byte_written + 2 <= Size one_byte_written ->
       exists v, Read16 one_byte_written = Ok (v, advance 2 one_byte_written)
                 /\ be16 v = under_cursor 2 one_byte_written /\ is_uint16 v)
      /\ (Size one_byte_written < Index one_byte_written + 2 ->
          Read16 one_byte_written = Abort AssertionFailed))
  /\ ((Index one_byte_written + 4 <= Size one_byte_written ->
       exists v, Read32 one_byte_written = Ok (v, advance 4 one_byte_written)
                 /\ be32 v = under_cursor 4 one_byte_written /\ is_uint32 v)
      /\ (Size one_byte_written < Index one_byte_written + 4 ->
          Read32 one_byte_written = Abort AssertionFailed)).
Proof.
  apply (reads_are_bounds_checked one_byte_written); [solve_wf|vm_compute; congruence].
Defined.

(** ** FxHash.hpp *)

Lemma FxHashStr_from_range hash str : is_uint32 hash -> is_uint32 (FxHashStr_from hash str).
Proof.
  revert hash. induction str as [|ch str IH]; intros hash Hh; cbn [FxHashStr_from]; [done|].
  destruct (decide _); [done|]. apply IH, uint32_range.
Qed.

Lemma FxHashStr_from_NUL hash str rest :
  FxHashStr_from hash (str ++ 0 :: rest) = FxHashStr_from hash str.
Proof.
  revert hash. induction str as [|ch str IH]; intros hash; cbn [app FxHashStr_from].
  - destruct (decide _) as [|Hne]; [done|]. by destruct Hne.
  - destruct (decide _); [done|]. apply IH.
Qed.

Lemma FxHashStr_length_from_take hash str n :
  FxHashStr_length_from hash str n = FxHashStr_from hash (take n str).
Proof.
  revert hash str. induction n as [|n IH]; intros hash [|ch str];
    cbn [FxHashStr_length_from FxHashStr_from take]; try done.
  destruct (decide _); [done|]. apply IH.
Qed.

Lemma FxHashStr_from_snoc hash str ch :
  Forall (fun b => uint8 b ≠ 0) str -> uint8 ch ≠ 0 ->
  FxHashStr_from hash (str ++ [ch])
  = uint32 (Z.lxor (FxHashStr_from hash str) (uint8 ch) * FX_HASH_FNV1A_PRIME).
Proof.
  intros Hstr Hch. revert hash.
  induction Hstr as [|b str Hb _ IH]; intros hash; cbn [app FxHashStr_from].
  - destruct (decide _); done.
  - destruct (decide _); [done|]. apply IH.
Qed.

(** X5.  [FxHashStr] is FNV-1a over the bytes before the first NUL: the
    hash is a [uint32]; nothing after a NUL counts; each further character
    xors into the hash, which is then multiplied by the prime modulo 2^32.
    The overload with a length hashes the first [length] characters, and
    the whole string when [length] reaches its end. *)
Theorem FxHashStr_is_FNV1a (str : list Z) :
  is_uint32 (FxHashStr str)
  /\ (forall rest, FxHashStr (str ++ 0 :: rest) = FxHashStr str)
  /\ (forall ch, Forall (fun b => uint8 b ≠ 0) str -> uint8 ch ≠ 0 ->
        FxHashStr (str ++ [ch])
        = uint32 (Z.lxor (FxHashStr str) (uint8 ch) * FX_HASH_FNV1A_PRIME))
  /\ (forall n, FxHashStr_length str n = FxHashStr (take (Z.to_nat (uint32 n)) str))
  /\ (forall n, Z.of_nat (length str) <= uint32 n -> FxHashStr_length str n = FxHashStr str).
Proof.
  unfold FxHashStr, FxHashStr_length. split; [|split; [|split; [|split]]].
  - apply FxHashStr_from_range. unfold is_uint32. by vm_compute.
  - intros rest. apply FxHashStr_from_NUL.
  - intros ch. apply FxHashStr_from_snoc.
  - intros n. apply FxHashStr_length_from_take.
  - intros n Hn. rewrite FxHashStr_length_from_take, take_ge by lia. reflexivity.
Qed.

(** The hashes [main] passes to [WriteTo] and [ReadFrom]. *)
Example FxHashStr_examples :
  FxHashStr [] = 0x811C9DC5
  /\ FxHashStr (bytes_of_string "TestStructA") = 0x4024DCD3
  /\ FxHashStr_length (bytes_of_string "TestStructA") 4 = FxHashStr (bytes_of_string "Test").
Proof. repeat split; vm_compute; reflexivity. Qed.

(** ** The type section: what a schema write appends and what the lookups find *)

Lemma write_members_emit_ids args : forall r s r' s',
  wf_section s -> for_each write_member args (r, s) = Ok (r', s') ->
  registry_le r r'
  /\ forall rf, registry_le r' rf ->
       emits s (concat (map encode_member (map (fun arg => (sizeof arg, ids_of rf arg)) args))) s'.
Proof.
  induction args as [|arg args IH]; intros r s r' s' Hwf; cbn [for_each].
  - intros [= <- <-]. split; [by intros t j Hj|]. intros rf _. by apply emits_nil.
  - destruct (write_member arg (r, s)) as [[r1 s1]|] eqn:E1; [|discriminate].
    cbn [mbind Res_bind]. intros E2.
    apply write_member_emits in E1 as (i & EG & Hem1); [|done].
    apply IH in E2 as (Hle & Hem2); [|by eapply emits_wf].
    apply GetTypeId_assigns in EG as [Hi Hm1].
    split; [intros t j Hj; by apply Hle, Hm1|].
    intros rf Hrf. cbn [map concat]. eapply emits_app; [done| |by apply Hem2].
    unfold ids_of. rewrite (Hrf _ _ (Hle _ _ Hi)). exact Hem1.
Qed.

Lemma WriteTypeWithoutChecks_new_entry
    (type_id type_size : Z) (args : list CType)
    (r r' : FxSerializeUtil CType) (ts ts' : FxSerializerTypeSection) :
  wf_section (Base ts) ->
  IsTypePreviouslyWritten type_id ts = false ->
  WriteTypeWithoutChecks type_id type_size args (r, ts) = Ok (r', ts') ->
  emits (Base ts) (encode_entry (entry_of r' type_id type_size args)) (Base ts')
  /\ Index (Base ts') = Index (Base ts) + 7 + 4 * Z.of_nat (length args)
  /\ mRegisteredTypeIds ts'
     = mRegisteredTypeIds ts ++ [mkTypeEntry (uint16 type_id) (Index (Base ts))]
  /\ (forall i, IsTypePreviouslyWritten i ts'
                = IsTypePreviouslyWritten i ts || bool_decide (uint16 i = uint16 type_id))
  /\ registry_le r r'.
Proof.
  intros Hwf Hnew. unfold WriteTypeWithoutChecks. cbn [fst snd].
  rewrite written_uint16, Hnew.
  destruct (Write8 _ (Base ts)) as [s1|] eqn:E1; [|discriminate]. cbn [mbind Res_bind].
  destruct (Write16 _ s1) as [s2|] eqn:E2; [|discriminate]. cbn [mbind Res_bind].
  destruct (Write16 _ s2) as [s3|] eqn:E3; [|discriminate]. cbn [mbind Res_bind].
  destruct (Write8 _ s3) as [s4|] eqn:E4; [|discriminate]. cbn [mbind Res_bind].
  destruct (for_each write_member args (r, s4)) as [[r5 s5]|] eqn:E5; [|discriminate].
  cbn [mbind Res_bind].
  destruct (Write8 _ s5) as [s6|] eqn:E6; [|discriminate]. cbn [mbind Res_bind].
  intros [= <- <-].
  apply Write8_emits in E1; [|done]. pose proof (emits_wf _ _ _ Hwf E1) as Hwf1.
  apply Write16_emits in E2; [|done]. pose proof (emits_wf _ _ _ Hwf1 E2) as Hwf2.
  apply Write16_emits in E3; [|done]. pose proof (emits_wf _ _ _ Hwf2 E3) as Hwf3.
  apply Write8_emits in E4; [|done]. pose proof (emits_wf _ _ _ Hwf3 E4) as Hwf4.
  apply write_members_emit_ids in E5 as (Hle & E5); [|done].
  specialize (E5 r5 ltac:(by intros t j Hj)).
  pose proof (emits_wf _ _ _ Hwf4 E5) as Hwf5.
  apply Write8_emits in E6; [|done].
  assert (emits (Base ts) (encode_entry (entry_of r5 type_id type_size args)) s6) as Hem.
  { unfold encode_entry, entry_body, entry_of. cbn [entry_id entry_size entry_members].
    rewrite length_map. rewrite uint8_header in E1. rewrite uint8_footer in E6.
    rewrite !be16_uint16 in *. rewrite <- !app_assoc.
    eapply emits_app; [done|exact E1|]. eapply emits_app; [done|exact E2|].
    eapply emits_app; [done|exact E3|]. eapply emits_app; [done|exact E4|].
    eapply emits_app; [done|exact E5|exact E6]. }
  cbn [Base mRegisteredTypeIds]. split; [done|]. split; [|split; [|split]].
  - rewrite (emits_Index _ _ _ Hem), encode_entry_length. unfold entry_of.
    cbn [entry_members]. rewrite length_map. lia.
  - reflexivity.
  - intros i. unfold IsTypePreviouslyWritten. cbn [mRegisteredTypeIds].
    rewrite existsb_app. cbn [existsb Id]. rewrite orb_false_r.
    f_equal. apply bool_decide_ext. split; congruence.
  - done.
Qed.

(** X6.  A schema write of an id that has no entry yet appends one entry
    at the cursor: the marker 0xEF, the id, the size, the number of
    members as one byte, for each member its size and then its id, and the
    marker 0xBE; 7 + 4n bytes for n members.  It records the id with the
    offset the entry starts at, so that from then on exactly the ids equal
    to it modulo 2^16 count as written in addition. *)
Theorem WriteTypeWithoutChecks_appends_entry
    (type_id type_size : Z) (args : list CType)
    (r r' : FxSerializeUtil CType) (ts ts' : FxSerializerTypeSection) :
  wf_section (Base ts) ->
  IsTypePreviouslyWritten type_id ts = false ->
  WriteTypeWithoutChecks type_id type_size args (r, ts) = Ok (r', ts') ->
  emits (Base ts) (encode_entry (entry_of r' type_id type_size args)) (Base ts')
  /\ Index (Base ts') = Index (Base ts) + 7 + 4 * Z.of_nat (length args)
  /\ mRegisteredTypeIds ts'
     = mRegisteredTypeIds ts ++ [mkTypeEntry (uint16 type_id) (Index (Base ts))]
  /\ (forall i, IsTypePreviouslyWritten i ts'
                = IsTypePreviouslyWritten i ts || bool_decide (uint16 i = uint16 type_id))
  /\ registry_le r r'.
Proof. apply WriteTypeWithoutChecks_new_entry. Qed.

Lemma WriteTypeWithoutChecks_appends_entry_witness :
  emits (Base (types_of example_start))
    (encode_entry (entry_of (registry example_start) 3 4 []))
    (put (encode_entry (mkSchemaEntry 3 4 [])) (Base (types_of example_start)))
  /\ Index (put (encode_entry (mkSchemaEntry 3 4 [])) (Base (types_of example_start)))
     = Index (Base (types_of example_start)) + 7 + 4 * Z.of_nat (length (@nil CType))
  /\ [mkTypeEntry 3 0]
     = mRegisteredTypeIds (types_of example_start)
       ++ [mkTypeEntry (uint16 3) (Index (Base (types_of example_start)))]
  /\ (forall i, IsTypePreviouslyWritten i
                  {| Base := put (encode_entry (mkSchemaEntry 3 4 []))
                               (Base (types_of example_start));
                     mRegisteredTypeIds := [mkTypeEntry 3 0] |}
                = IsTypePreviouslyWritten i (types_of example_start)
                  || bool_decide (uint16 i = uint16 3))
  /\ registry_le (registry example_start) (registry example_start).
Proof.
  apply (WriteTypeWithoutChecks_appends_entry 3 4 [] (registry example_start)
           (registry example_start) (types_of example_start)
           {| Base := put (encode_entry (mkSchemaEntry 3 4 []))
                        (Base (types_of example_start));
              mRegisteredTypeIds := [mkTypeEntry 3 0] |}).
  - solve_wf.
  - reflexivity.
  - vm_compute. reflexivity.
Defined.

Lemma FindIndexFromTypeId_hit s id es e tl :
  wf_section s -> Data s = encode_entries es ++ encode_entry e ++ tl ->
  Forall (steps_over id) es -> uint16 (entry_id e) = uint16 id ->
  FindIndexFromTypeId id s = Ok (Z.of_nat (length (encode_entries es)), s).
Proof.
  intros Hwf HD Hall Hid.
  pose proof (wf_rewind s Hwf) as Hwf0.
  pose proof (bytes_at_rewind s) as Hb0. rewrite HD in Hb0.
  assert (exists fuel, S (Z.to_nat (Size s)) = (length es + S fuel)%nat) as [fuel Hfuel].
  { exists (Z.to_nat (Size s) - length es)%nat.
    pose proof (encode_entries_length_ge es) as Hl.
    destruct Hwf as (HS & _). rewrite HD, length_app in HS. lia. }
  destruct (find_loop_steps id es (S fuel) 0 _ _ Hwf0 Hb0 Hall) as (E & Hwf1 & Hb1).
  rewrite <- Hfuel in E. cbn [set_Index Index] in E.
  set (n := Z.of_nat (length (encode_entries es))) in *.
  assert (Index (advance n (set_Index 0 s)) = n) as Hidx by (cbn; lia).
  eapply FindIndexFromTypeId_of_loop; [|exact Hidx]. rewrite E.
  unfold encode_entry, entry_body in Hb1. rewrite <- !app_assoc in Hb1. cbn [app] in Hb1.
  cbn [find_loop]. destruct (decide _) as [_|Hge];
    [|exfalso; apply Hge; by eapply bytes_at_nonempty].
  destruct (Read8_step _ _ _ Hwf1 Hb1) as (-> & Hwf2 & Hb2). cbn [mbind Res_bind].
  rewrite uint8_header. destruct (decide _) as [Hx|_]; [by destruct Hx|].
  destruct (Read16_step _ _ _ Hwf2 Hb2) as (-> & _). cbn [mbind Res_bind].
  destruct (decide _) as [_|]; [|done]. reflexivity.
Qed.

Lemma registered_at_elem entry es : forall pos,
  entry ∈ registered_at pos es ->
  exists es1 e es2, es = es1 ++ e :: es2
    /\ entry = mkTypeEntry (entry_id e) (pos + Z.of_nat (length (encode_entries es1))).
Proof.
  induction es as [|e es IH]; intros pos Hin; cbn [registered_at] in Hin.
  - by apply elem_of_nil in Hin.
  - apply elem_of_cons in Hin as [->|Hin].
    + exists [], e, es. split; [done|]. cbn. f_equal. lia.
    + apply IH in Hin as (es1 & e1 & es2 & -> & ->).
      exists (e :: es1), e1, es2. split; [done|]. f_equal.
      unfold encode_entries. cbn [map concat]. rewrite length_app. lia.
Qed.

(** X7.  In a type section that holds one entry per registered id, each
    with fewer than 256 members, the scan of [FindIndexFromTypeId] for a
    registered id returns the offset recorded for it when its entry was
    written, and hands the section back unchanged. *)
Theorem FindIndexFromTypeId_finds_registered
    (ts : FxSerializerTypeSection) (es : list SchemaEntry) (entry : TypeEntry) :
  wf_section (Base ts) -> holds_entries ts es ->
  Forall (fun e => (length (entry_members e) < 256)%nat) es ->
  entry ∈ mRegisteredTypeIds ts ->
  FindIndexFromTypeId (Id entry) (Base ts) = Ok (Offset entry, Base ts).
Proof.
  intros Hwf (Hbytes & Hreg & Hnd & Hrange) Hsmall Hin.
  rewrite Hreg in Hin.
  apply registered_at_elem in Hin as (es1 & e & es2 & -> & ->). cbn [Id Offset].
  rewrite Z.add_0_l.
  apply (FindIndexFromTypeId_hit _ _ es1 e
           (encode_entries es2 ++ drop (Z.to_nat (Index (Base ts))) (Data (Base ts))));
    [done| | |done].
  - rewrite <- (take_drop (Z.to_nat (Index (Base ts))) (Data (Base ts))) at 1.
    fold (written (Base ts)). rewrite Hbytes, encode_entries_app.
    unfold encode_entries at 2. cbn [map concat]. fold (encode_entries es2).
    by rewrite <- !app_assoc.
  - rewrite map_app in Hnd. apply NoDup_app in Hnd as (_ & Hdis & _).
    apply Forall_app in Hsmall as [Hs1 _]. apply Forall_app in Hrange as [Hr1 Hr2].
    apply Forall_cons in Hr2 as [Hre _].
    apply Forall_forall. intros e' Hin'. split.
    + rewrite (uint16_id _ Hre).
      rewrite (uint16_id (entry_id e'))
        by (eapply (proj1 (Forall_forall _ _) Hr1); exact Hin').
      intros Heq. apply (Hdis (entry_id e')).
      * apply list_elem_of_fmap. by exists e'.
      * rewrite Heq. cbn. apply elem_of_cons. by left.
    + eapply (proj1 (Forall_forall _ _) Hs1). exact Hin'.
Qed.

Lemma FindIndexFromTypeId_finds_registered_witness :
  FindIndexFromTypeId (Id (mkTypeEntry 1 14)) (Base (types_of example_written_thrice))
  = Ok (Offset (mkTypeEntry 1 14), Base (types_of example_written_thrice)).
Proof.
  apply (FindIndexFromTypeId_finds_registered (types_of example_written_thrice)
           example_entries (mkTypeEntry 1 14)).
  - solve_wf.
  - split; [vm_compute; reflexivity|]. split; [vm_compute; reflexivity|].
    split; [|repeat constructor; vm_compute; congruence].
    apply NoDup_ListNoDup. repeat constructor; cbn; intuition congruence.
  - repeat constructor; cbn; lia.
  - vm_compute. apply elem_of_cons. right. apply elem_of_cons. right.
    apply elem_of_cons. by left.
Defined.

Lemma lookup_entry_split es : forall pos id off e,
  lookup_entry pos es id = Some (off, e) ->
  exists es1 es2, es = es1 ++ e :: es2
    /\ off = pos + Z.of_nat (length (encode_entries es1))
    /\ Forall (fun e' => uint16 (entry_id e') ≠ uint16 id) es1
    /\ uint16 (entry_id e) = uint16 id.
Proof.
  induction es as [|e0 es IH]; intros pos id off e; cbn [lookup_entry]; [discriminate|].
  destruct (decide _) as [Heq|Hne].
  - intros [= <- <-]. exists [], es. split; [done|]. split; [cbn; lia|]. split; [constructor|done].
  - intros Hl. apply IH in Hl as (es1 & es2 & -> & -> & Hall & Heq).
    exists (e0 :: es1), es2. split; [done|]. split.
    + unfold encode_entries. cbn [map concat]. rewrite length_app. lia.
    + split; [by constructor|done].
Qed.

Lemma FindIndexFromTypeId_uint16 id s :
  FindIndexFromTypeId (uint16 id) s = FindIndexFromTypeId id s.
Proof. unfold FindIndexFromTypeId. by rewrite uint16_idemp. Qed.

Lemma lookup_entry_uint16 es : forall pos id,
  lookup_entry pos es (uint16 id) = lookup_entry pos es id.
Proof.
  induction es as [|e es IH]; intros pos id; cbn [lookup_entry]; [done|].
  rewrite uint16_idemp. destruct (decide _); [done|]. apply IH.
Qed.

Lemma decode_type_uint16 es depth id :
  decode_type es depth (uint16 id) = decode_type es depth id.
Proof. destruct depth; cbn [decode_type]; [done|]. by rewrite lookup_entry_uint16. Qed.

Lemma advance_rewind n s : advance n (set_Index 0 s) = set_Index n s.
Proof. reflexivity. Qed.

(** The entry at an offset the lookup returned. *)
Lemma entry_at s es1 e tl :
  wf_section s -> Data s = encode_entries es1 ++ encode_entry e ++ tl ->
  wf_section (set_Index (Z.of_nat (length (encode_entries es1))) s)
  /\ bytes_at (set_Index (Z.of_nat (length (encode_entries es1))) s) (encode_entry e ++ tl)
  /\ is_uint32 (Z.of_nat (length (encode_entries es1))).
Proof.
  intros Hwf HD. pose proof (bytes_at_rewind s) as Hb. rewrite HD in Hb.
  apply bytes_at_skip in Hb as [Hwf1 Hb1]; [|by apply wf_rewind].
  rewrite advance_rewind in *. split; [done|]. split; [done|].
  destruct Hwf1 as (_ & Hi & Hs). cbn in *. unfold is_uint32. lia.
Qed.

Lemma read_members_decodes es tl d :
  (forall id tree s, wf_section s -> Data s = encode_entries es ++ tl ->
     decode_type es d id = Some tree ->
     exists index, FindIndexFromTypeId id s = Ok (index, s)
                   /\ ReadType d index s = Ok (tree, s)) ->
  forall ms trees, Forall2 (fun m tree => decode_type es d m.2 = Some tree) ms trees ->
  forall acc rest r,
    wf_section r -> Data r = encode_entries es ++ tl ->
    bytes_at r (concat (map encode_member ms) ++ rest) ->
    read_members (ReadType d) (length ms) acc r
    = Ok (acc ++ trees, advance (4 * Z.of_nat (length ms)) r)
    /\ wf_section (advance (4 * Z.of_nat (length ms)) r)
    /\ bytes_at (advance (4 * Z.of_nat (length ms)) r) rest.
Proof.
  intros IH ms trees Hall.
  induction Hall as [|[msz mid] tree ms trees Hm _ IHms]; intros acc rest r Hwf HD Hb.
  - cbn in *. rewrite advance_0, app_nil_r. done.
  - cbn [map concat length read_members] in *. unfold encode_member in Hb at 1.
    cbn [fst snd] in Hb, Hm. rewrite <- !app_assoc in Hb.
    destruct (Read16_step _ _ _ Hwf Hb) as (-> & Hwf1 & Hb1). cbn [mbind Res_bind].
    destruct (Read16_step _ _ _ Hwf1 Hb1) as (-> & Hwf2 & Hb2). cbn [mbind Res_bind].
    rewrite advance_advance in *.
    rewrite <- decode_type_uint16 in Hm.
    destruct (IH _ _ (advance (2 + 2) r) Hwf2 HD Hm) as (index & EF & ER).
    rewrite EF. cbn [mbind Res_bind]. rewrite ER. cbn [mbind Res_bind].
    destruct (IHms (acc ++ [tree]) rest _ Hwf2 HD Hb2) as (-> & Hwf3 & Hb3).
    rewrite advance_advance in *. rewrite <- app_assoc. cbn [app].
    replace (4 * Z.of_nat (S (length ms))) with (2 + 2 + 4 * Z.of_nat (length ms)) by lia.
    done.
Qed.

Lemma ReadType_decodes es tl :
  Forall (fun e => (length (entry_members e) < 256)%nat) es ->
  forall depth id tree s,
    wf_section s -> Data s = encode_entries es ++ tl ->
    decode_type es depth id = Some tree ->
    exists index, FindIndexFromTypeId id s = Ok (index, s)
                  /\ ReadType depth index s = Ok (tree, s).
Proof.
  intros Hsmall. induction depth as [|d IH]; intros id tree s Hwf HD Hdec; [discriminate|].
  cbn [decode_type] in Hdec.
  destruct (lookup_entry 0 es id) as [[off e]|] eqn:Hl; [|discriminate].
  destruct (mapM _ _) as [trees|] eqn:Hm; [|discriminate]. injection Hdec as <-.
  apply lookup_entry_split in Hl as (es1 & es2 & -> & -> & Hne & Heq).
  apply mapM_Some_1 in Hm.
  assert (Data s = encode_entries es1 ++ encode_entry e ++ (encode_entries es2 ++ tl)) as HD'.
  { rewrite HD, encode_entries_app. unfold encode_entries at 2. cbn [map concat].
    fold (encode_entries es2). by rewrite <- !app_assoc. }
  pose proof Hsmall as Hsmall'.
  apply Forall_app in Hsmall' as [Hs1 Hs2]. apply Forall_cons in Hs2 as [Hse _].
  exists (Z.of_nat (length (encode_entries es1))). split.
  - apply (FindIndexFromTypeId_hit _ _ es1 e (encode_entries es2 ++ tl)); [done|done| |done].
    apply Forall_forall. intros e' Hin. split.
    + eapply (proj1 (Forall_forall _ _) Hne). exact Hin.
    + eapply (proj1 (Forall_forall _ _) Hs1). exact Hin.
  - destruct (entry_at _ _ _ _ Hwf HD') as (Hwf0 & Hb0 & Hoff).
    cbn [ReadType]. rewrite (uint32_id _ Hoff).
    unfold encode_entry, entry_body in Hb0. rewrite <- !app_assoc in Hb0. cbn [app] in Hb0.
    destruct (Read8_step _ _ _ Hwf0 Hb0) as (-> & Hwf1 & Hb1). cbn [mbind Res_bind].
    rewrite uint8_header. destruct (decide _) as [Hx|_]; [by destruct Hx|].
    destruct (Read16_step _ _ _ Hwf1 Hb1) as (-> & Hwf2 & Hb2). cbn [mbind Res_bind].
    destruct (Read16_step _ _ _ Hwf2 Hb2) as (-> & Hwf3 & Hb3). cbn [mbind Res_bind].
    destruct (Read8_step _ _ _ Hwf3 Hb3) as (-> & Hwf4 & Hb4). cbn [mbind Res_bind].
    rewrite uint8_idemp, (uint8_id (Z.of_nat _)) by (unfold is_uint8; lia).
    rewrite Nat2Z.id.
    destruct (read_members_decodes _ tl d IH _ _ Hm [] _ _ Hwf4 HD Hb4) as (-> & Hwf5 & Hb5).
    cbn [mbind Res_bind app].
    destruct (Read8_step _ _ _ Hwf5 Hb5) as (-> & _). cbn [mbind Res_bind].
    do 2 f_equal. by apply set_Index_restore.
Qed.

(** X8.  On a section that starts with well-formed entries, each with
    fewer than 256 members, looking an id up and reading the type at the
    offset found ([ReadType(FindIndexFromTypeId(id))]) returns the type the
    entries describe: the id and size of the first entry with this id and,
    for each of its members in order, the type of the member's id resolved
    in the same way.  Both calls hand the section back unchanged. *)
Theorem ReadType_reads_schema_back
    (s : FxSerializerBaseSection) (es : list SchemaEntry) (tl : list Z)
    (depth : nat) (id : Z) (tree : FxSerializedType) :
  wf_section s -> Data s = encode_entries es ++ tl ->
  Forall (fun e => (length (entry_members e) < 256)%nat) es ->
  decode_type es depth id = Some tree ->
  exists index, FindIndexFromTypeId id s = Ok (index, s)
                /\ ReadType depth index s = Ok (tree, s).
Proof. intros Hwf HD Hsmall Hdec. by eapply ReadType_decodes. Qed.

Lemma ReadType_reads_schema_back_witness :
  exists index,
    FindIndexFromTypeId 2 (Base (types_of example_written_thrice))
    = Ok (index, Base (types_of example_written_thrice))
    /\ ReadType 3 index (Base (types_of example_written_thrice))
       = Ok (example_tree, Base (types_of example_written_thrice)).
Proof.
  apply (ReadType_reads_schema_back (Base (types_of example_written_thrice))
           example_entries (replicate 76 0) 3 2 example_tree).
  - solve_wf.
  - vm_compute. reflexivity.
  - repeat constructor; cbn; lia.
  - vm_compute. reflexivity.
Defined.

(** X9.  An entry whose first member has the entry's own id sends
    [ReadType] into a recursion that no depth bound ends: the member is
    looked up, found at the same offset, and read again; whatever the
    bound [fuel], the bound is reached. *)
Theorem ReadType_recurses_without_bound
    (fuel : nat) (s : FxSerializerBaseSection) (es : list SchemaEntry) (e : SchemaEntry)
    (msz mid : Z) (ms : list (Z * Z)) (tl : list Z) :
  wf_section s -> Data s = encode_entries es ++ encode_entry e ++ tl ->
  Forall (steps_over (entry_id e)) es ->
  (length (entry_members e) < 256)%nat ->
  entry_members e = (msz, mid) :: ms -> uint16 mid = uint16 (entry_id e) ->
  ReadType fuel (Z.of_nat (length (encode_entries es))) s = Abort OutOfFuel.
Proof.
  intros Hwf HD Hall Hsmall Hmem Hid. revert s Hwf HD.
  induction fuel as [|fuel IH]; intros s Hwf HD; [reflexivity|].
  destruct (entry_at _ _ _ _ Hwf HD) as (Hwf0 & Hb0 & Hoff).
  cbn [ReadType]. rewrite (uint32_id _ Hoff).
  unfold encode_entry, entry_body in Hb0. rewrite Hmem in Hb0. cbn [map concat] in Hb0.
  unfold encode_member in Hb0 at 1. cbn [fst snd] in Hb0.
  rewrite <- !app_assoc in Hb0. cbn [app] in Hb0.
  destruct (Read8_step _ _ _ Hwf0 Hb0) as (-> & Hwf1 & Hb1). cbn [mbind Res_bind].
  rewrite uint8_header. destruct (decide _) as [Hx|_]; [by destruct Hx|].
  destruct (Read16_step _ _ _ Hwf1 Hb1) as (-> & Hwf2 & Hb2). cbn [mbind Res_bind].
  destruct (Read16_step _ _ _ Hwf2 Hb2) as (-> & Hwf3 & Hb3). cbn [mbind Res_bind].
  destruct (Read8_step _ _ _ Hwf3 Hb3) as (-> & Hwf4 & Hb4). cbn [mbind Res_bind].
  rewrite Hmem in Hsmall.
  rewrite uint8_idemp, (uint8_id (Z.of_nat _)) by (unfold is_uint8; lia).
  rewrite Nat2Z.id. cbn [length read_members].
  destruct (Read16_step _ _ _ Hwf4 Hb4) as (-> & Hwf5 & Hb5). cbn [mbind Res_bind].
  destruct (Read16_step _ _ _ Hwf5 Hb5) as (-> & Hwf6 & Hb6). cbn [mbind Res_bind].
  rewrite FindIndexFromTypeId_uint16.
  rewrite (FindIndexFromTypeId_hit _ mid es e tl); [|done|done| |done].
  - cbn [mbind Res_bind]. rewrite IH; done.
  - eapply Forall_impl; [exact Hall|]. intros e' [Hne Hlt]. split; [congruence|done].
Qed.

Lemma ReadType_recurses_without_bound_witness :
  ReadType 1000 (Z.of_nat (length (encode_entries []))) cyclic_section = Abort OutOfFuel.
Proof.
  apply (ReadType_recurses_without_bound 1000 cyclic_section []
           (mkSchemaEntry 1 4 [(4, 1)]) 4 1 [] []).
  - solve_wf.
  - reflexivity.
  - constructor.
  - cbn. lia.
  - reflexivity.
  - reflexivity.
Defined.

(** ** The printing functions *)

Lemma print_members_step ms : forall rest r,
  wf_section r -> bytes_at r (concat (map encode_member ms) ++ rest) ->
  print_members (length ms) r
  = Ok (map (fun m : Z * Z => MemberLine (uint16 m.2) (uint16 m.1)) ms,
        advance (4 * Z.of_nat (length ms)) r)
  /\ wf_section (advance (4 * Z.of_nat (length ms)) r)
  /\ bytes_at (advance (4 * Z.of_nat (length ms)) r) rest.
Proof.
  induction ms as [|[msz mid] ms IH]; intros rest r Hwf Hb.
  - cbn in *. rewrite advance_0. done.
  - cbn [map concat length print_members] in *. unfold encode_member in Hb at 1.
    cbn [fst snd] in Hb. rewrite <- !app_assoc in Hb.
    destruct (Read16_step _ _ _ Hwf Hb) as (-> & Hwf1 & Hb1). cbn [mbind Res_bind].
    destruct (Read16_step _ _ _ Hwf1 Hb1) as (-> & Hwf2 & Hb2). cbn [mbind Res_bind].
    rewrite advance_advance in *.
    destruct (IH _ _ Hwf2 Hb2) as (-> & Hwf3 & Hb3). cbn [mbind Res_bind fst snd].
    rewrite advance_advance in *.
    replace (4 * Z.of_nat (S (length ms))) with (2 + 2 + 4 * Z.of_nat (length ms)) by lia.
    done.
Qed.

Lemma PrintType_entry s es1 e tl :
  wf_section s -> Data s = encode_entries es1 ++ encode_entry e ++ tl ->
  (length (entry_members e) < 256)%nat ->
  PrintType (Z.of_nat (length (encode_entries es1))) s
  = Ok (printed_entry e,
        set_Index (Z.of_nat (length (encode_entries es1))
                   + Z.of_nat (length (encode_entry e))) s).
Proof.
  intros Hwf HD Hsmall.
  destruct (entry_at _ _ _ _ Hwf HD) as (Hwf0 & Hb0 & Hoff).
  unfold PrintType. rewrite (uint32_id _ Hoff).
  unfold encode_entry, entry_body in Hb0. rewrite <- !app_assoc in Hb0. cbn [app] in Hb0.
  destruct (Read8_step _ _ _ Hwf0 Hb0) as (-> & Hwf1 & Hb1). cbn [mbind Res_bind].
  rewrite uint8_header. destruct (decide _) as [Hx|_]; [by destruct Hx|].
  destruct (Read16_step _ _ _ Hwf1 Hb1) as (-> & Hwf2 & Hb2). cbn [mbind Res_bind].
  destruct (Read16_step _ _ _ Hwf2 Hb2) as (-> & Hwf3 & Hb3). cbn [mbind Res_bind].
  destruct (Read8_step _ _ _ Hwf3 Hb3) as (-> & Hwf4 & Hb4). cbn [mbind Res_bind].
  rewrite uint8_idemp, (uint8_id (Z.of_nat _)) by (unfold is_uint8; lia).
  rewrite Nat2Z.id.
  destruct (print_members_step _ _ _ Hwf4 Hb4) as (-> & Hwf5 & Hb5). cbn [mbind Res_bind].
  destruct (Read8_step _ _ _ Hwf5 Hb5) as (-> & _). cbn [mbind Res_bind].
  rewrite uint8_footer. destruct (decide _) as [Hx|_]; [by destruct Hx|].
  unfold printed_entry. do 2 f_equal. rewrite !advance_advance, encode_entry_length.
  unfold advance, set_Index. cbn. f_equal. lia.
Qed.

Lemma print_types_entries tl es2 : forall es1 s,
  wf_section s -> Data s = encode_entries es1 ++ encode_entries es2 ++ tl ->
  Forall (fun e => (length (entry_members e) < 256)%nat) es2 ->
  print_types (registered_at (Z.of_nat (length (encode_entries es1))) es2) s
  = Ok (concat (map printed_entry es2),
        match es2 with
        | [] => s
        | _ => set_Index (Z.of_nat (length (encode_entries (es1 ++ es2)))) s
        end).
Proof.
  induction es2 as [|e es2 IH]; intros es1 s Hwf HD Hsmall; [reflexivity|].
  apply Forall_cons in Hsmall as [Hse Hsmall].
  cbn [registered_at print_types Offset].
  assert (Data s = encode_entries es1 ++ encode_entry e ++ encode_entries es2 ++ tl) as HD'.
  { rewrite HD. unfold encode_entries at 2. cbn [map concat]. fold (encode_entries es2).
    by rewrite <- !app_assoc. }
  rewrite (PrintType_entry s es1 e _ Hwf HD' Hse). cbn [mbind Res_bind].
  set (s1 := set_Index _ s).
  assert (wf_section s1) as Hwf1.
  { destruct Hwf as (Hl & Hi & Hs). pose proof Hl as Hl'.
    unfold wf_section, s1, set_Index.
    cbn [Data Index Size]. rewrite HD', !length_app in Hl'. lia. }
  assert (Z.of_nat (length (encode_entries es1)) + Z.of_nat (length (encode_entry e))
          = Z.of_nat (length (encode_entries (es1 ++ [e])))) as Epos.
  { rewrite encode_entries_app, length_app. unfold encode_entries at 3.
    cbn [map concat]. rewrite app_nil_r. lia. }
  rewrite Epos.
  assert (Data s1 = encode_entries (es1 ++ [e]) ++ encode_entries es2 ++ tl) as HD1.
  { unfold s1. cbn [set_Index Data]. rewrite HD', encode_entries_app.
    unfold encode_entries at 4. cbn [map concat]. by rewrite app_nil_r, <- !app_assoc. }
  rewrite (IH (es1 ++ [e]) s1 Hwf1 HD1 Hsmall). cbn [mbind Res_bind map concat].
  do 2 f_equal. rewrite <- app_assoc. cbn [app].
  destruct es2; [unfold s1; by rewrite Epos|reflexivity].
Qed.

Lemma registered_at_length pos es : length (registered_at pos es) = length es.
Proof. rewrite <- (length_map Id), registered_at_ids. apply length_map. Qed.

(** X10.  In a type section that holds one entry per registered id, each
    with fewer than 256 members, [PrintType] at the offset of a registered
    entry prints its line and one line per member, without a sanity error,
    and leaves the cursor at the end of that entry: it does not put it
    back.  [PrintAllTypes] prints every entry in the order they were
    written; its last [PrintType] leaves the cursor at the end of the last
    entry, which is where it was, so the section is unchanged. *)
Theorem PrintAllTypes_keeps_section (ts : FxSerializerTypeSection) (es : list SchemaEntry) :
  wf_section (Base ts) -> holds_entries ts es ->
  Forall (fun e => (length (entry_members e) < 256)%nat) es ->
  PrintAllTypes ts = Ok (TypesBanner (length es) :: concat (map printed_entry es), ts)
  /\ forall entry, entry ∈ mRegisteredTypeIds ts ->
       exists e, e ∈ es /\ Id entry = entry_id e
         /\ PrintType (Offset entry) (Base ts)
            = Ok (printed_entry e,
                  set_Index (Offset entry + Z.of_nat (length (encode_entry e))) (Base ts)).
Proof.
  intros Hwf (Hbytes & Hreg & Hnd & Hrange) Hsmall.
  assert (Data (Base ts)
          = encode_entries es ++ drop (Z.to_nat (Index (Base ts))) (Data (Base ts))) as HD.
  { rewrite <- (take_drop (Z.to_nat (Index (Base ts))) (Data (Base ts))) at 1.
    fold (written (Base ts)). by rewrite Hbytes. }
  split.
  - unfold PrintAllTypes. rewrite Hreg, registered_at_length.
    change (registered_at 0 es)
      with (registered_at (Z.of_nat (length (encode_entries []))) es).
    rewrite (print_types_entries _ es [] (Base ts) Hwf HD Hsmall). cbn [mbind Res_bind].
    do 2 f_equal. destruct ts as [s regs]. cbn [Base mRegisteredTypeIds] in *.
    f_equal; [|by rewrite Hreg].
    destruct es; [done|]. cbn [app]. rewrite <- Hbytes, written_length by done.
    by destruct s.
  - intros entry Hin. rewrite Hreg in Hin.
    apply registered_at_elem in Hin as (es1 & e & es2 & -> & ->). cbn [Id Offset].
    exists e. split; [apply elem_of_app; right; apply elem_of_cons; by left|].
    split; [done|]. rewrite Z.add_0_l.
    apply Forall_app in Hsmall as [_ Hs2]. apply Forall_cons in Hs2 as [Hse _].
    apply (PrintType_entry _ es1 e
             (encode_entries es2 ++ drop (Z.to_nat (Index (Base ts))) (Data (Base ts))));
      [done| |done].
    rewrite HD at 1. rewrite encode_entries_app. unfold encode_entries at 2.
    cbn [map concat]. fold (encode_entries es2). by rewrite <- !app_assoc.
Qed.

Lemma PrintAllTypes_keeps_section_witness :
  PrintAllTypes (types_of example_written_thrice)
  = Ok (TypesBanner (length example_entries) :: concat (map printed_entry example_entries),
        types_of example_written_thrice)
  /\ forall entry, entry ∈ mRegisteredTypeIds (types_of example_written_thrice) ->
       exists e, e ∈ example_entries /\ Id entry = entry_id e
         /\ PrintType (Offset entry) (Base (types_of example_written_thrice))
            = Ok (printed_entry e,
                  set_Index (Offset entry + Z.of_nat (length (encode_entry e)))
                    (Base (types_of example_written_thrice))).
Proof.
  apply (PrintAllTypes_keeps_section (types_of example_written_thrice) example_entries).
  - solve_wf.
  - split; [vm_compute; reflexivity|]. split; [vm_compute; reflexivity|].
    split; [|repeat constructor; vm_compute; congruence].
    apply NoDup_ListNoDup. repeat constructor; cbn; intuition congruence.
  - repeat constructor; cbn; lia.
Defined.

(** X11.  [PrintReadableEntry] hands the archive back as it was, on every
    path on which it returns: the type section because the lookups restore
    it, the data section because its reads change nothing but the cursor,
    which the function puts back at the end. *)
Theorem PrintReadableEntry_keeps_archive
    (fuel : nat) (start_index : Z) (io io' : FxSerializerIO) (out : list Printed) :
  PrintReadableEntry fuel start_index io = Ok (out, io') -> io' = io.
Proof.
  unfold PrintReadableEntry.
  set (d0 := set_Index (uint32 start_index) (DataSection io)).
  pose proof (Read8_cursor d0) as H1.
  destruct (Read8 d0) as [[magic_start d1]|]; [|discriminate]. cbn [mbind Res_bind].
  pose proof (Read16_cursor d1) as H2.
  destruct (Read16 d1) as [[type_id d2]|]; [|discriminate]. cbn [mbind Res_bind].
  pose proof (Read32_cursor d2) as H3.
  destruct (Read32 d2) as [[name_hash d3]|]; [|discriminate]. cbn [mbind Res_bind].
  pose proof (FindIndexFromTypeId_restores type_id (Base (TypeSection io))) as H4.
  destruct (FindIndexFromTypeId _ _) as [[index t1]|]; [|discriminate].
  cbn [mbind Res_bind]. cbn [restores] in H4. subst t1.
  pose proof (ReadType_restores fuel index (Base (TypeSection io))) as H5.
  destruct (ReadType _ _ _) as [[entry_type t2]|]; [|discriminate].
  cbn [mbind Res_bind]. cbn [restores] in H5. subst t2.
  set (d4 := set_Index _ d3).
  pose proof (Read8_cursor d4) as H6.
  destruct (Read8 d4) as [[magic_end d5]|]; [|discriminate]. cbn [mbind Res_bind].
  intros [= _ <-]. cbn [moves_cursor_only] in *.
  destruct H1 as [A1 B1], H2 as [A2 B2], H3 as [A3 B3], H6 as [A6 B6].
  destruct io as [[tb regs] ds]. cbn [TypeSection DataSection Base mRegisteredTypeIds] in *.
  f_equal. apply set_Index_restore.
  - rewrite A6. unfold d4. cbn [set_Index Data]. rewrite A3, A2, A1. reflexivity.
  - rewrite B6. unfold d4. cbn [set_Index Size]. rewrite B3, B2, B1. reflexivity.
Qed.

Lemma PrintReadableEntry_keeps_archive_witness :
  PrintReadableEntry 3 0 (writer example_written)
  = Ok ([MagicStart 11; TypeIDLine 2; NameHashLine hash_A; TypeSummary 28 4;
         MemberSummary 3 4; MemberSummary 3 4; MemberSummary 4 4; MemberSummary 1 12;
         TotalSize 24; MagicEnd 0], writer example_written)
  /\ writer example_written = writer example_written.
Proof.
  assert (PrintReadableEntry 3 0 (writer example_written)
          = Ok ([MagicStart 11; TypeIDLine 2; NameHashLine hash_A; TypeSummary 28 4;
                 MemberSummary 3 4; MemberSummary 3 4; MemberSummary 4 4; MemberSummary 1 12;
                 TotalSize 24; MagicEnd 0], writer example_written)) as E
    by (vm_compute; reflexivity).
  split; [exact E|]. exact (PrintReadableEntry_keeps_archive _ _ _ _ _ E).
Defined.

(** X12.  For a record at [start_index] whose type the type section
    describes, [PrintReadableEntry] prints the header fields, the size and
    the members of the type, and as "Magic End" the byte it finds after
    stepping over as many bytes as the sizes of the direct members add up
    to.  This byte is the end marker of the record only when the member
    data is exactly that long; a member that is a struct is stored as a
    whole record, header and footer included, which is not as long as its
    [sizeof]. *)
Theorem PrintReadableEntry_steps_over_member_sizes
    (io : FxSerializerIO) (start_index : Z) (b0 id hash b1 : Z) (skipped rest : list Z)
    (es : list SchemaEntry) (tl : list Z) (depth : nat) (entry_type : FxSerializedType) :
  wf_section (set_Index start_index (DataSection io)) ->
  bytes_at (set_Index start_index (DataSection io))
    ([b0] ++ be16 id ++ be32 hash ++ skipped ++ b1 :: rest) ->
  wf_section (Base (TypeSection io)) ->
  Data (Base (TypeSection io)) = encode_entries es ++ tl ->
  Forall (fun e => (length (entry_members e) < 256)%nat) es ->
  decode_type es depth id = Some entry_type ->
  total_members_size (type_Members entry_type) = Z.of_nat (length skipped) ->
  PrintReadableEntry depth start_index io
  = Ok ([MagicStart (uint8 b0); TypeIDLine (uint16 id); NameHashLine (uint32 hash);
         TypeSummary (type_Size entry_type) (length (type_Members entry_type))]
        ++ map (fun member => MemberSummary (type_Id member) (type_Size member))
             (type_Members entry_type)
        ++ [TotalSize (Z.of_nat (length skipped)); MagicEnd (uint8 b1)],
        io).
Proof.
  intros Hwf Hb Hwft HD Hsmall Hdec Htotal. unfold PrintReadableEntry.
  assert (is_uint32 start_index) as Hstart.
  { destruct Hwf as (_ & Hi & Hs). cbn in *. unfold is_uint32. lia. }
  rewrite (uint32_id _ Hstart). cbn [app] in Hb.
  destruct (Read8_step _ _ _ Hwf Hb) as (-> & Hwf1 & Hb1). cbn [mbind Res_bind].
  destruct (Read16_step _ _ _ Hwf1 Hb1) as (-> & Hwf2 & Hb2). cbn [mbind Res_bind].
  destruct (Read32_step _ _ _ Hwf2 Hb2) as (-> & Hwf3 & Hb3). cbn [mbind Res_bind].
  rewrite <- decode_type_uint16 in Hdec.
  destruct (ReadType_decodes es tl Hsmall depth _ _ _ Hwft HD Hdec) as (index & -> & EF).
  cbn [mbind Res_bind]. rewrite EF. cbn [mbind Res_bind]. rewrite Htotal.
  rewrite !advance_advance in *.
  destruct (bytes_at_skip _ _ _ Hwf3 Hb3) as (Hwf4 & Hb4). rewrite advance_advance in *.
  set (d3 := advance (1 + (2 + 4)) (set_Index start_index (DataSection io))) in *.
  assert (set_Index (uint32 (Index d3 + Z.of_nat (length skipped))) d3
          = advance (1 + (2 + 4) + Z.of_nat (length skipped))
              (set_Index start_index (DataSection io))) as ->.
  { destruct Hwf4 as (_ & Hi & Hs). cbn [advance set_Index Index Size] in Hi, Hs.
    unfold d3, advance, set_Index. cbn [Index Data Size].
    rewrite uint32_id by (unfold is_uint32; lia). f_equal. lia. }
  destruct (Read8_step _ _ _ Hwf4 Hb4) as (-> & _). cbn [mbind Res_bind].
  do 2 f_equal. destruct io as [[tb regs] ds]. cbn. f_equal. by destruct ds.
Qed.

Lemma PrintReadableEntry_steps_over_member_sizes_witness :
  PrintReadableEntry 3 0 (writer example_written)
  = Ok ([MagicStart (uint8 DataIdentHeader); TypeIDLine (uint16 2);
         NameHashLine (uint32 hash_A);
         TypeSummary (type_Size example_tree) (length (type_Members example_tree))]
        ++ map (fun member => MemberSummary (type_Id member) (type_Size member))
             (type_Members example_tree)
        ++ [TotalSize (Z.of_nat (length example_skipped)); MagicEnd (uint8 0)],
        writer example_written).
Proof.
  apply (PrintReadableEntry_steps_over_member_sizes (writer example_written) 0
           DataIdentHeader 2 hash_A 0 example_skipped
           (drop 32 (Data (data_of example_written)))
           example_entries (replicate 76 0) 3 example_tree).
  - solve_wf.
  - vm_compute. reflexivity.
  - solve_wf.
  - vm_compute. reflexivity.
  - repeat constructor; cbn; lia.
  - vm_compute. reflexivity.
  - vm_compute. reflexivity.
Defined.

(** ** Files *)

Lemma fread_fwrite_u32 init v rest :
  is_uint32 v -> fread_u32 init (fwrite_u32 v ++ rest) = Ok (v, rest).
Proof.
  unfold is_uint32, fread_u32, fwrite_u32. intros Hv. cbn [app]. do 2 f_equal.
  rewrite !uint8_idemp. unfold uint8.
  rewrite !Z.shiftr_div_pow2, !Z.shiftl_mul_pow2 by lia.
  change (2 ^ 8) with 256. change (2 ^ 16) with 65536. change (2 ^ 24) with 16777216.
  change (2 ^ 32) with 4294967296 in Hv.
  Z.div_mod_to_equations. lia.
Qed.

Lemma fread_bytes_exact dst bs rest :
  (length bs <= length dst)%nat ->
  fread_bytes dst (Z.of_nat (length bs)) (bs ++ rest)
  = Ok (map uint8 bs ++ drop (length bs) dst, rest).
Proof.
  intros Hfit. unfold fread_bytes, memcpy.
  rewrite Z.min_l by (rewrite length_app; lia). rewrite Nat2Z.id.
  destruct (decide _) as [_|Hno].
  - cbn [mbind Res_bind]. rewrite map_app, take_app_length', drop_app_length by
      (by rewrite length_map). reflexivity.
  - exfalso. apply Hno. rewrite length_map, length_app. cbn. lia.
Qed.

Lemma written_fits s : wf_section s -> Z.of_nat (length (written s)) = Index s /\ is_uint32 (Index s).
Proof.
  intros Hwf. split; [by apply written_length|].
  destruct Hwf as (_ & ? & ?). unfold is_uint32. lia.
Qed.

Lemma ReadFromFile_WriteToFile a b :
  wf_section (Base (TypeSection a)) -> wf_section (DataSection a) ->
  Index (Base (TypeSection a)) <= Z.of_nat (length (Data (Base (TypeSection b)))) ->
  Index (DataSection a) <= Z.of_nat (length (Data (DataSection b))) ->
  ReadFromFile (Some (WriteToFile a)) b
  = Ok (Loaded,
        {| TypeSection :=
             {| Base := set_Data (map uint8 (written (Base (TypeSection a)))
                                  ++ drop (Z.to_nat (Index (Base (TypeSection a))))
                                       (Data (Base (TypeSection b))))
                          (Base (TypeSection b));
                mRegisteredTypeIds := mRegisteredTypeIds (TypeSection b) |};
           DataSection := set_Data (map uint8 (written (DataSection a))
                                    ++ drop (Z.to_nat (Index (DataSection a)))
                                         (Data (DataSection b)))
                            (DataSection b) |}).
Proof.
  intros Hwft Hwfd Hct Hcd.
  destruct (written_fits _ Hwft) as [Hlt Hrt], (written_fits _ Hwfd) as [Hld Hrd].
  unfold ReadFromFile, WriteToFile.
  fold (written (Base (TypeSection a))). fold (written (DataSection a)).
  rewrite fread_fwrite_u32 by (unfold is_uint32; by vm_compute). cbn [mbind Res_bind].
  destruct (decide _) as [Hx|_]; [by destruct Hx|].
  rewrite fread_fwrite_u32 by done. cbn [mbind Res_bind].
  rewrite <- Hlt at 1. rewrite fread_bytes_exact by lia. cbn [mbind Res_bind].
  rewrite fread_fwrite_u32 by (unfold is_uint32; by vm_compute). cbn [mbind Res_bind].
  destruct (decide _) as [Hx|_]; [by destruct Hx|].
  rewrite fread_fwrite_u32 by done. cbn [mbind Res_bind].
  cbn [DataSection TypeSection].
  rewrite <- (app_nil_r (written (DataSection a))) at 1. rewrite <- Hld at 1.
  rewrite fread_bytes_exact by lia. cbn [mbind Res_bind].
  do 4 f_equal; [do 3 f_equal; lia|do 2 f_equal; lia].
Qed.

(** X13.  Writing an archive to a file and reading the file into an
    archive whose buffers have room for the written bytes succeeds: the
    written bytes of each section arrive at the start of the section's
    buffer, the rest of the buffer keeps its contents.  The cursors, the
    sizes and the registered type ids of the reading archive stay as they
    were: the file carries none of them. *)
Theorem WriteToFile_ReadFromFile_roundtrip (a b : FxSerializerIO) :
  wf_section (Base (TypeSection a)) -> wf_section (DataSection a) ->
  Index (Base (TypeSection a)) <= Z.of_nat (length (Data (Base (TypeSection b)))) ->
  Index (DataSection a) <= Z.of_nat (length (Data (DataSection b))) ->
  ReadFromFile (Some (WriteToFile a)) b
  = Ok (Loaded,
        {| TypeSection :=
             {| Base := set_Data (map uint8 (written (Base (TypeSection a)))
                                  ++ drop (Z.to_nat (Index (Base (TypeSection a))))
                                       (Data (Base (TypeSection b))))
                          (Base (TypeSection b));
                mRegisteredTypeIds := mRegisteredTypeIds (TypeSection b) |};
           DataSection := set_Data (map uint8 (written (DataSection a))
                                    ++ drop (Z.to_nat (Index (DataSection a)))
                                         (Data (DataSection b)))
                            (DataSection b) |}).
Proof. apply ReadFromFile_WriteToFile. Qed.

Lemma WriteToFile_ReadFromFile_roundtrip_witness :
  ReadFromFile (Some (WriteToFile (writer example_written))) example_reader
  = Ok (Loaded,
        {| TypeSection :=
             {| Base := set_Data (map uint8 (written (Base (TypeSection (writer example_written))))
                                  ++ drop (Z.to_nat (Index (Base (TypeSection
                                                              (writer example_written)))))
                                       (Data (Base (TypeSection example_reader))))
                          (Base (TypeSection example_reader));
                mRegisteredTypeIds := mRegisteredTypeIds (TypeSection example_reader) |};
           DataSection := set_Data (map uint8 (written (DataSection (writer example_written)))
                                    ++ drop (Z.to_nat (Index (DataSection
                                                                (writer example_written))))
                                         (Data (DataSection example_reader)))
                            (DataSection example_reader) |}).
Proof.
  apply (WriteToFile_ReadFromFile_roundtrip (writer example_written) example_reader).
  - solve_wf.
  - solve_wf.
  - vm_compute. congruence.
  - vm_compute. congruence.
Defined.

(** The file of the example: 16 bytes of signatures and lengths around the
    52 bytes of the type section and the 36 bytes of the record; the
    signatures are stored in host byte order, "DSXF" and "TAD.". *)
Example example_file :
  length (WriteToFile (writer example_written)) = 104%nat
  /\ take 8 (WriteToFile (writer example_written)) = [0x44; 0x53; 0x58; 0x46; 52; 0; 0; 0]
  /\ take 8 (drop 60 (WriteToFile (writer example_written)))
     = [0x54; 0x41; 0x44; 0x2E; 36; 0; 0; 0].
Proof. repeat split; vm_compute; reflexivity. Qed.

Lemma be16_bytes v : Forall is_uint8 (be16 v).
Proof. repeat constructor; apply uint8_range. Qed.

Lemma be32_bytes v : Forall is_uint8 (be32 v).
Proof. apply Forall_app. split; apply be16_bytes. Qed.

Lemma frame_bytes type_id name_hash payload :
  Forall is_uint8 payload -> Forall is_uint8 (frame type_id name_hash payload).
Proof.
  intros Hp. unfold frame. repeat (apply Forall_app; split);
    try apply be16_bytes; try apply be32_bytes; try done;
    repeat constructor; by vm_compute.
Qed.

Lemma encode_value_bytes ids v : reads_back v = true -> Forall is_uint8 (encode_value ids v).
Proof.
  induction v as [x|b|s|n sz|n sz fields IH] using Value_ind'; intros Hrb;
    cbn [encode_value].
  - apply be32_bytes.
  - apply be32_bytes.
  - discriminate.
  - constructor.
  - apply frame_bytes. cbn [reads_back] in Hrb.
    induction IH as [|v fields Hv _ IHf]; [constructor|].
    cbn [forallb] in Hrb. apply andb_true_iff in Hrb as [H1 H2].
    cbn [map concat]. apply Forall_app. split; [by apply Hv|by apply IHf].
Qed.

Lemma encode_fields_bytes ids fields :
  forallb reads_back fields = true -> Forall is_uint8 (encode_fields ids fields).
Proof.
  unfold encode_fields. induction fields as [|v fields IH]; intros Hrb; [constructor|].
  cbn [forallb] in Hrb. apply andb_true_iff in Hrb as [H1 H2].
  cbn [map concat]. apply Forall_app. split; [by apply encode_value_bytes|by apply IH].
Qed.

Lemma map_uint8_id bs : Forall is_uint8 bs -> map uint8 bs = bs.
Proof.
  induction 1 as [|b bs Hb _ IH]; [done|]. cbn [map]. by rewrite IH, uint8_id.
Qed.

(** X14.  The whole way of [main]: a record written as the first one of a
    data section, the archive written to a file, the file read into a
    second archive with room for it whose data cursor is at the start, and
    the record read there.  The read succeeds and gives the fields that
    were written (for fields that are read back as written: no strings),
    with the cursor behind the record. *)
Theorem archive_file_roundtrip
    (name_hash read_hash : Z) (n : string) (sz : Z) (fields dests : list Value)
    (st st' : State) (reader : FxSerializerIO) :
  schema_inv (types_of st) -> wf_section (data_of st) -> Index (data_of st) = 0 ->
  forallb reads_back fields = true ->
  map type_of dests = map type_of fields ->
  WriteTo name_hash n sz fields st = Ok st' ->
  uint32 name_hash = 0 \/ uint32 name_hash = uint32 read_hash ->
  wf_section (DataSection reader) -> Index (DataSection reader) = 0 ->
  Index (Base (types_of st')) <= Z.of_nat (length (Data (Base (TypeSection reader)))) ->
  Index (data_of st') <= Size (DataSection reader) ->
  exists loaded,
    ReadFromFile (Some (WriteToFile (writer st'))) reader = Ok (Loaded, loaded)
    /\ ReadFrom read_hash dests (DataSection loaded)
       = Ok (ReadDone, fields, advance (Index (data_of st')) (DataSection loaded)).
Proof.
  intros Hinv Hwf Hstart Hrb Hty E Hhash Hwfr Hr0 Hct Hcd.
  pose proof (WriteTo_emits _ _ _ _ _ _ Hinv Hwf E) as Hem.
  pose proof (emits_wf _ _ _ Hwf Hem) as Hwf'.
  pose proof (WriteTo_schema_kept _ _ _ _ _ _ Hinv E) as ([Hwft _] & _).
  pose proof Hwfr as (Hlr & _ & Hsr).
  eexists. split.
  - apply ReadFromFile_WriteToFile; [done|done|done|].
    unfold data_of in Hcd. lia.
  - cbn [DataSection]. fold (data_of st').
    set (F := frame _ _ _) in Hem.
    assert (written (data_of st') = F) as Hw.
    { rewrite (emits_written _ _ _ Hwf Hem). unfold written. rewrite Hstart. done. }
    assert (Index (data_of st') = Z.of_nat (length F)) as Hidx
      by (rewrite (emits_Index _ _ _ Hem); lia).
    rewrite Hw, Hidx, Nat2Z.id.
    rewrite map_uint8_id by (apply frame_bytes; by apply encode_fields_bytes).
    set (r := set_Data _ _).
    assert (wf_section r) as Hwfr'.
    { unfold wf_section, r, set_Data. cbn [Data Index Size].
      rewrite length_app, length_drop. lia. }
    assert (bytes_at r (F ++ drop (length F) (Data (DataSection reader)))) as Hb.
    { unfold bytes_at, r, set_Data. cbn [Data Index]. rewrite Hr0. cbn [Z.to_nat drop].
      apply firstn_all. }
    unfold ReadFrom, F.
    erewrite FxDeserializeStruct_reads; [reflexivity| |exact Hwfr'|exact Hty|exact Hrb
                                        |exact Hhash|exact Hb].
    apply Forall_forall. intros v _. apply FxDeserializeValue_reads.
Qed.

Lemma archive_file_roundtrip_witness :
  exists loaded,
    ReadFromFile (Some (WriteToFile (writer example_written))) example_reader
    = Ok (Loaded, loaded)
    /\ ReadFrom hash_A (TestStructA_fields 0 0 0 0 0) (DataSection loaded)
       = Ok (ReadDone, TestStructA_fields 30 15 float32_3 5 10,
             advance (Index (data_of example_written)) (DataSection loaded)).
Proof.
  apply (archive_file_roundtrip hash_A hash_A "TestStructA" 28
           (TestStructA_fields 30 15 float32_3 5 10) (TestStructA_fields 0 0 0 0 0)
           example_start example_written example_reader).
  - apply schema_inv_new. reflexivity.
  - solve_wf.
  - reflexivity.
  - vm_compute. reflexivity.
  - reflexivity.
  - vm_compute. reflexivity.
  - right. reflexivity.
  - solve_wf.
  - reflexivity.
  - vm_compute. congruence.
  - vm_compute. congruence.
Defined.

(** ** Reading records *)








(** What [main] gets: the read of [TestStructA] reports the footer and
    leaves the cursor at offset 36 of its 50 bytes; the read of
    [TestStructC] starts there, inside the string, and reports the
    header. *)
Example main_reads :
  Index (data_of main_written) = 50
  /\ ReadFrom hash_A (main_fields 0 0 0 0 0 []) (rewound main_written_twice)
     = Ok (FooterIsIncorrect, main_fields 7 3 float32_3 5 10 [],
           set_Index 36 (data_of main_written_twice))
  /\ ReadFrom hash_B [VInt32 0] (set_Index 36 (data_of main_written_twice))
     = Ok (HeaderIsIncorrect, [VInt32 0], set_Index 37 (data_of main_written_twice)).
Proof. repeat split; vm_compute; reflexivity. Qed.



Lemma encode_value_length ids v : Z.of_nat (length (encode_value ids v)) = value_size v.
Proof.
  induction v as [x|b|s|n sz|n sz fields IH] using Value_ind';
    cbn [encode_value value_size]; try done.
  - rewrite length_app, length_take, be16_length.
    pose proof (uint32_range (Z.of_nat (length s))) as Hr. unfold is_uint32 in Hr.
    assert (uint32 (Z.of_nat (length s)) <= Z.of_nat (length s)).
    { unfold uint32. apply Z.mod_le; lia. }
    lia.
  - rewrite frame_length, Nat2Z.inj_add. f_equal.
    induction IH as [|v fields Hv _ IHf]; [done|].
    cbn [map concat fold_right]. rewrite length_app, Nat2Z.inj_add, Hv, IHf. reflexivity.
Qed.

Lemma encode_fields_length ids fields :
  Z.of_nat (length (encode_fields ids fields))
  = fold_right (fun f total => value_size f + total) 0 fields.
Proof.
  unfold encode_fields. induction fields as [|v fields IH]; [done|].
  cbn [map concat fold_right]. by rewrite length_app, Nat2Z.inj_add, encode_value_length, IH.
Qed.

(** X18.  A record takes 8 bytes for its header and footer and, for each
    member in order, 4 bytes for an [int32] or a [float32], 2 bytes and the
    characters for a string, nothing for a member of a type without a
    writer, and a whole record for a member struct.  [WriteTo] returns only
    if the data section had this much room, and then it has moved the data
    cursor by exactly this much. *)
Theorem WriteTo_takes_record_size
    (name_hash : Z) (n : string) (sz : Z) (fields : list Value) (st st' : State) :
  schema_inv (types_of st) -> wf_section (data_of st) ->
  WriteTo name_hash n sz fields st = Ok st' ->
  Index (data_of st') = Index (data_of st) + record_size fields
  /\ Index (data_of st) + record_size fields <= Size (data_of st)
  /\ Size (data_of st') = Size (data_of st).
Proof.
  intros Hinv Hwf E.
  pose proof (WriteTo_emits _ _ _ _ _ _ Hinv Hwf E) as [Ep Hfit].
  rewrite frame_length, Nat2Z.inj_add, encode_fields_length in Hfit.
  rewrite Ep. unfold put, record_size. cbn [Index Size].
  rewrite frame_length, Nat2Z.inj_add, encode_fields_length. done.
Qed.

Lemma WriteTo_takes_record_size_witness :
  Index (data_of main_written)
  = Index (data_of main_start) + record_size (main_fields 7 3 float32_3 5 10 hello_world)
  /\ Index (data_of main_start) + record_size (main_fields 7 3 float32_3 5 10 hello_world)
     <= Size (data_of main_start)
  /\ Size (data_of main_written) = Size (data_of main_start).
Proof.
  apply (WriteTo_takes_record_size hash_A "TestStructA" 72
           (main_fields 7 3 float32_3 5 10 hello_world) main_start main_written).
  - apply schema_inv_new. reflexivity.
  - solve_wf.
  - vm_compute. reflexivity.
Defined.

(** ** The lookups on any section content *)

Lemma Read8_guarded s :
  wf_section s -> Size s < 2 ^ 32 - 2 ->
  forall f, Read8 s = Abort f -> f = AssertionFailed.
Proof.
  intros Hwf Hsmall f. destruct (Read8_checked s Hwf Hsmall) as [Hok Hbad].
  destruct (decide (Index s + 1 <= Size s)) as [Hfit|Hno].
  - destruct (Hok Hfit) as (v & -> & _). discriminate.
  - rewrite Hbad by lia. by intros [= <-].
Qed.

Lemma Read16_guarded s :
  wf_section s -> Size s < 2 ^ 32 - 2 ->
  forall f, Read16 s = Abort f -> f = AssertionFailed.
Proof.
  intros Hwf Hsmall f. destruct (Read16_checked s Hwf Hsmall) as [Hok Hbad].
  destruct (decide (Index s + 2 <= Size s)) as [Hfit|Hno].
  - destruct (Hok Hfit) as (v & -> & _). discriminate.
  - rewrite Hbad by lia. by intros [= <-].
Qed.

Lemma skip_members_guarded n : forall s,
  wf_section s -> Size s < 2 ^ 32 - 2 ->
  match skip_members n s with
  | Ok s' => wf_section s' /\ Size s' = Size s
  | Abort f => f = AssertionFailed
  end.
Proof.
  induction n as [|n IH]; intros s Hwf Hsmall; cbn [skip_members]; [done|].
  destruct (Read16 s) as [[x s1]|f] eqn:E1; cbn [mbind Res_bind];
    [|by eapply Read16_guarded].
  apply Read16_ok in E1 as (Hwf1 & _ & HS1); [|done].
  destruct (Read16 s1) as [[y s2]|f] eqn:E2; cbn [mbind Res_bind];
    [|eapply Read16_guarded; [done|lia|done]].
  apply Read16_ok in E2 as (Hwf2 & _ & HS2); [|done].
  specialize (IH s2 Hwf2 ltac:(lia)). destruct (skip_members n s2); [|done].
  destruct IH. split; [done|lia].
Qed.

Lemma find_loop_guarded fuel id : forall entry_index s,
  wf_section s -> Size s < 2 ^ 32 - 2 -> 0 <= entry_index <= Size s ->
  match find_loop fuel id entry_index s with
  | Ok (index, s') => 0 <= index <= Size s
  | Abort f => f = AssertionFailed \/ f = OutOfFuel
  end.
Proof.
  induction fuel as [|fuel IH]; intros entry_index s Hwf Hsmall He; cbn [find_loop].
  - destruct (decide _); [by right|done].
  - destruct (decide _) as [Hlt|]; [|done].
    pose proof Hwf as (_ & Hi & _).
    destruct (Read8 s) as [[h s1]|f] eqn:E1; cbn [mbind Res_bind];
      [|left; by eapply Read8_guarded].
    apply Read8_ok in E1 as (Hwf1 & Hi1 & HS1); [|done].
    destruct (decide _); [lia|].
    destruct (Read16 s1) as [[ti s2]|f] eqn:E2; cbn [mbind Res_bind];
      [|left; eapply Read16_guarded; [done|lia|done]].
    apply Read16_ok in E2 as (Hwf2 & Hi2 & HS2); [|done].
    destruct (decide _); [lia|].
    destruct (Read16 s2) as [[sz s3]|f] eqn:E3; cbn [mbind Res_bind];
      [|left; eapply Read16_guarded; [done|lia|done]].
    apply Read16_ok in E3 as (Hwf3 & Hi3 & HS3); [|done].
    destruct (Read8 s3) as [[nm s4]|f] eqn:E4; cbn [mbind Res_bind];
      [|left; eapply Read8_guarded; [done|lia|done]].
    apply Read8_ok in E4 as (Hwf4 & Hi4 & HS4); [|done].
    pose proof (skip_members_guarded (Z.to_nat nm) s4 Hwf4 ltac:(lia)) as Hsk.
    destruct (skip_members _ s4) as [s5|f]; cbn [mbind Res_bind]; [|by left].
    destruct Hsk as (Hwf5 & HS5).
    destruct (Read8 s5) as [[ft s6]|f] eqn:E6; cbn [mbind Res_bind];
      [|left; eapply Read8_guarded; [done|lia|done]].
    apply Read8_ok in E6 as (Hwf6 & Hi6 & HS6); [|done].
    destruct (decide _); [lia|].
    specialize (IH (Index s) s6 Hwf6 ltac:(lia) ltac:(lia)).
    destruct (find_loop fuel id (Index s) s6) as [[index s']|]; [lia|done].
Qed.

Lemma FindIndexFromTypeId_guarded id s :
  wf_section s -> Size s < 2 ^ 32 - 2 ->
  (exists index, FindIndexFromTypeId id s = Ok (index, s) /\ 0 <= index <= Size s)
  \/ FindIndexFromTypeId id s = Abort AssertionFailed.
Proof.
  intros Hwf Hsmall.
  pose proof (FindIndexFromTypeId_ends id s Hwf) as Hends.
  pose proof (FindIndexFromTypeId_restores id s) as Hres.
  pose proof (find_loop_guarded (S (Z.to_nat (Size s))) (uint16 id) 0 (set_Index 0 s)
                (wf_rewind s Hwf) Hsmall) as Hg.
  destruct Hwf as (_ & Hi & _). specialize (Hg ltac:(cbn; lia)).
  unfold FindIndexFromTypeId in *.
  destruct (find_loop _ _ _ _) as [[index s']|f]; cbn [mbind Res_bind] in *.
  - left. exists index. cbn [restores] in Hres. rewrite Hres. done.
  - right. destruct Hg as [->| ->]; [done|]. by destruct Hends.
Qed.

Lemma read_members_guarded
    (rec : Z -> FxSerializerBaseSection -> Res (FxSerializedType * FxSerializerBaseSection)) :
  (forall index s, wf_section s -> Size s < 2 ^ 32 - 2 -> 0 <= index <= Size s ->
     guarded (rec index s) /\ restores s (rec index s)) ->
  forall n Members s, wf_section s -> Size s < 2 ^ 32 - 2 ->
    match read_members rec n Members s with
    | Ok (_, s') => wf_section s' /\ Size s' = Size s
    | Abort f => f = AssertionFailed \/ f = OutOfFuel
    end.
Proof.
  intros Hrec. induction n as [|n IH]; intros Members s Hwf Hsmall;
    cbn [read_members]; [done|].
  destruct (Read16 s) as [[x s1]|f] eqn:E1; cbn [mbind Res_bind];
    [|left; by eapply Read16_guarded].
  apply Read16_ok in E1 as (Hwf1 & _ & HS1); [|done].
  destruct (Read16 s1) as [[y s2]|f] eqn:E2; cbn [mbind Res_bind];
    [|left; eapply Read16_guarded; [done|lia|done]].
  apply Read16_ok in E2 as (Hwf2 & _ & HS2); [|done].
  destruct (FindIndexFromTypeId_guarded y s2 Hwf2 ltac:(lia)) as [(index & -> & Hidx)| ->];
    cbn [mbind Res_bind]; [|by left].
  destruct (Hrec index s2 Hwf2 ltac:(lia) Hidx) as [Hg Hr].
  destruct (rec index s2) as [[member s3]|f]; cbn [mbind Res_bind guarded restores] in *;
    [|done].
  subst s3. specialize (IH (Members ++ [member]) s2 Hwf2 ltac:(lia)).
  destruct (read_members rec n _ s2) as [[ms s4]|]; [|done].
  destruct IH. split; [done|lia].
Qed.

Lemma ReadType_guarded fuel : forall index s,
  wf_section s -> Size s < 2 ^ 32 - 2 -> 0 <= index <= Size s ->
  guarded (ReadType fuel index s) /\ restores s (ReadType fuel index s).
Proof.
  induction fuel as [|fuel IH]; intros index s Hwf Hsmall Hidx;
    (split; [|apply ReadType_restores]); cbn [ReadType]; [by right|].
  rewrite (uint32_id index) by (unfold is_uint32; lia).
  assert (wf_section (set_Index index s)) as Hwf0
    by (destruct Hwf as (? & ? & ?); unfold wf_section; cbn; lia).
  destruct (Read8 _) as [[h s1]|f] eqn:E1; cbn [mbind Res_bind guarded];
    [|left; by eapply Read8_guarded].
  apply Read8_ok in E1 as (Hwf1 & _ & HS1); [|done]. cbn [set_Index Size] in HS1.
  destruct (decide _); [done|].
  destruct (Read16 s1) as [[ti s2]|f] eqn:E2; cbn [mbind Res_bind guarded];
    [|left; eapply Read16_guarded; [done|lia|done]].
  apply Read16_ok in E2 as (Hwf2 & _ & HS2); [|done].
  destruct (Read16 s2) as [[sz s3]|f] eqn:E3; cbn [mbind Res_bind guarded];
    [|left; eapply Read16_guarded; [done|lia|done]].
  apply Read16_ok in E3 as (Hwf3 & _ & HS3); [|done].
  destruct (Read8 s3) as [[nm s4]|f] eqn:E4; cbn [mbind Res_bind guarded];
    [|left; eapply Read8_guarded; [done|lia|done]].
  apply Read8_ok in E4 as (Hwf4 & _ & HS4); [|done].
  pose proof (read_members_guarded (ReadType fuel) IH (Z.to_nat nm) [] s4 Hwf4 ltac:(lia))
    as Hm.
  destruct (read_members _ _ _ s4) as [[ms s5]|f]; cbn [mbind Res_bind guarded]; [|done].
  destruct Hm as (Hwf5 & HS5).
  destruct (Read8 s5) as [[ft s6]|f] eqn:E6; cbn [mbind Res_bind guarded];
    [done|left; eapply Read8_guarded; [done|lia|done]].
Qed.

(** X19.  Whatever bytes a section of fewer than 2^32 - 2 bytes holds, the
    schema lookups make no access outside its buffer.  [FindIndexFromTypeId]
    either returns an offset inside the section, with the section
    unchanged, or stops at the assertion of a read that would pass the end
    (an entry cut off by the end of the buffer).  [ReadType] at an offset
    inside the section either returns, or stops at such an assertion, or
    recurses past every bound. *)
Theorem lookups_stay_inside_the_buffer (s : FxSerializerBaseSection) :
  wf_section s -> Size s < 2 ^ 32 - 2 ->
  (forall id,
     (exists index, FindIndexFromTypeId id s = Ok (index, s) /\ 0 <= index <= Size s)
     \/ FindIndexFromTypeId id s = Abort AssertionFailed)
  /\ (forall fuel index, 0 <= index <= Size s ->
        (exists type, ReadType fuel index s = Ok (type, s))
        \/ ReadType fuel index s = Abort AssertionFailed
        \/ ReadType fuel index s = Abort OutOfFuel).
Proof.
  intros Hwf Hsmall. split.
  - intros id. by apply FindIndexFromTypeId_guarded.
  - intros fuel index Hidx.
    destruct (ReadType_guarded fuel index s Hwf Hsmall Hidx) as [Hg Hr].
    destruct (ReadType fuel index s) as [[type s']|f]; cbn [guarded restores] in *.
    + left. exists type. by rewrite Hr.
    + right. destruct Hg as [->| ->]; [by left|by right].
Qed.

Lemma lookups_stay_inside_the_buffer_witness :
  (forall id,
     (exists index, FindIndexFromTypeId id stray_marker_section
                    = Ok (index, stray_marker_section)
                    /\ 0 <= index <= Size stray_marker_section)
     \/ FindIndexFromTypeId id stray_marker_section = Abort AssertionFailed)
  /\ (forall fuel index, 0 <= index <= Size stray_marker_section ->
        (exists type, ReadType fuel index stray_marker_section
                      = Ok (type, stray_marker_section))
        \/ ReadType fuel index stray_marker_section = Abort AssertionFailed
        \/ ReadType fuel index stray_marker_section = Abort OutOfFuel).
Proof.
  apply (lookups_stay_inside_the_buffer stray_marker_section);
    [solve_wf|vm_compute; congruence].
Defined.

(** A lookup that finds its id returns; a lookup of an id that has no
    entry runs into the stray 0xEF in the last byte and stops the program
    at the assertion of [Read16]. *)
Example stray_marker_lookups :
  FindIndexFromTypeId 1 stray_marker_section = Ok (0, stray_marker_section)
  /\ FindIndexFromTypeId 2 stray_marker_section = Abort AssertionFailed.
Proof. split; vm_compute; reflexivity. Qed.

(** ** The schema a program wrote, read back *)

Lemma entry_of_extends r ts r' ts' i size args :
  extends r ts r' ts' -> Forall (known r ts) args ->
  entry_of r' i size args = entry_of r i size args.
Proof.
  intros [Hle _] Hk. unfold entry_of. f_equal. apply map_ext_Forall.
  eapply Forall_impl; [exact Hk|]. intros m (j & Hj & _). cbn.
  unfold ids_of. by rewrite Hj, (Hle _ _ Hj).
Qed.

Lemma describes_extends r ts r' ts' e :
  extends r ts r' ts' -> describes r ts e -> describes r' ts' e.
Proof.
  intros Hext (t & i & Hi & -> & Hk). exists t, i. split; [by apply Hext|].
  split; [symmetry; by eapply entry_of_extends|].
  eapply Forall_impl; [exact Hk|]. intros m. by apply known_extends.
Qed.

Lemma described_inv r ts : wf_section (Base ts) -> described r ts -> schema_inv ts.
Proof. intros Hwf (es & Hes & _). split; [done|by exists es]. Qed.

Lemma WriteTypeWithoutChecks_described t0 type_id r ts r' ts' :
  wf_section (Base ts) -> described r ts ->
  tid r t0 = Some type_id -> Forall (known r ts) (members t0) ->
  WriteTypeWithoutChecks type_id (sizeof t0) (members t0) (r, ts) = Ok (r', ts') ->
  described r' ts'.
Proof.
  intros Hwf Hd Hid Hk E.
  destruct (IsTypePreviouslyWritten type_id ts) eqn:Hw.
  { rewrite WriteTypeWithoutChecks_noop in E by done. by injection E as <- <-. }
  pose proof (WriteTypeWithoutChecks_inv _ _ _ _ _ _ _ (described_inv _ _ Hwf Hd) E)
    as (_ & Hext & _).
  destruct (WriteTypeWithoutChecks_new_entry _ _ _ _ _ _ _ Hwf Hw E)
    as (Hem & _ & Hreg' & _ & Hle).
  destruct Hd as (es & (Hbytes & Hreg & Hnd & Hrange) & Hall).
  exists (es ++ [entry_of r' type_id (sizeof t0) (members t0)]). split; [split; [|split; [|split]]|].
  - rewrite (emits_written _ _ _ Hwf Hem), Hbytes, encode_entries_app.
    unfold encode_entries at 3. cbn [map concat]. by rewrite app_nil_r.
  - rewrite Hreg', registered_at_app, Hreg. f_equal. cbn [registered_at entry_of entry_id].
    do 2 f_equal. rewrite <- Hbytes, written_length by done. lia.
  - rewrite map_app. apply NoDup_app. split; [done|]. split; [|apply NoDup_singleton].
    intros x Hx Hx'. apply list_elem_of_singleton in Hx'. subst x. cbn [entry_of entry_id] in Hx.
    rewrite <- (registered_at_ids 0), <- Hreg in Hx. apply written_iff in Hx. congruence.
  - apply Forall_app. split; [done|]. constructor; [apply uint16_range|constructor].
  - apply Forall_app. split.
    + eapply Forall_impl; [exact Hall|]. intros e. by apply describes_extends.
    + constructor; [|constructor]. exists t0, type_id. split; [by apply Hle|].
      split; [done|]. eapply Forall_impl; [exact Hk|]. intros m. by apply known_extends.
Qed.

Lemma for_each_described (f : CType -> TState -> Res TState) ms :
  Forall (fun t => schema_write_ok t (f t) /\ schema_write_described (f t)) ms ->
  forall r ts r' ts',
    wf_section (Base ts) -> described r ts ->
    for_each f ms (r, ts) = Ok (r', ts') ->
    described r' ts' /\ Forall (known r' ts') ms.
Proof.
  induction 1 as [|t ms [Hok Hd] Hms IH]; intros r ts r' ts' Hwf Hdesc; cbn [for_each].
  - intros [= <- <-]. split; [done|constructor].
  - destruct (f t (r, ts)) as [[r1 ts1]|] eqn:E1; [|discriminate]. cbn [mbind Res_bind].
    intros E2.
    pose proof (Hok _ _ _ _ (described_inv _ _ Hwf Hdesc) E1) as ([Hwf1 Hes1] & _ & Hk1).
    pose proof (Hd _ _ _ _ Hwf Hdesc E1) as Hdesc1.
    pose proof E2 as E2'. apply IH in E2' as (Hdesc2 & Hk2); [|done..].
    split; [done|]. constructor; [|done].
    assert (Forall (fun t => schema_write_ok t (f t)) ms) as Hms'
      by (eapply Forall_impl; [exact Hms|]; by intros t0 [? _]).
    destruct (for_each_schema_writes f ms Hms' r1 ts1 r' ts' (conj Hwf1 Hes1) E2)
      as [_ Hext].
    by eapply known_extends.
Qed.

Lemma WriteTypeAndMembers__described (f : CType -> TState -> Res TState) n sz ms type_id :
  Forall (fun t => schema_write_ok t (f t) /\ schema_write_described (f t)) ms ->
  forall r ts r' ts',
    wf_section (Base ts) -> described r ts ->
    tid r (TStruct n sz ms) = Some type_id ->
    WriteTypeAndMembers_ f type_id sz ms (r, ts) = Ok (r', ts') ->
    described r' ts'.
Proof.
  intros Hall r ts r' ts' Hwf Hdesc Hid. unfold WriteTypeAndMembers_. cbn [fst snd].
  rewrite written_uint16. destruct (IsTypePreviouslyWritten type_id ts) eqn:Hw.
  { by intros [= <- <-]. }
  destruct (for_each f ms (r, ts)) as [[r1 ts1]|] eqn:E1; [|discriminate].
  cbn [mbind Res_bind]. intros E2.
  assert (Forall (fun t => schema_write_ok t (f t)) ms) as Hall'
    by (eapply Forall_impl; [exact Hall|]; by intros t0 [? _]).
  destruct (for_each_schema_writes f ms Hall' r ts r1 ts1 (described_inv _ _ Hwf Hdesc) E1)
    as [[Hwf1 _] [Hle1 _]].
  apply (for_each_described f ms Hall) in E1 as (Hdesc1 & Hk1); [|done..].
  assert (WriteTypeWithoutChecks type_id (sizeof (TStruct n sz ms))
            (members (TStruct n sz ms)) (r1, ts1) = Ok (r', ts')) as E2'.
  { cbn [sizeof members]. unfold WriteTypeWithoutChecks in *. cbn [fst snd] in *.
    by rewrite !uint16_idemp in E2. }
  eapply (WriteTypeWithoutChecks_described (TStruct n sz ms));
    [exact Hwf1|exact Hdesc1| |exact Hk1|exact E2'].
  by apply Hle1.
Qed.

Lemma described_registry r r' ts :
  registry_le r r' -> described r ts -> described r' ts.
Proof.
  intros Hle (es & Hes & Hall). exists es. split; [done|].
  eapply Forall_impl; [exact Hall|]. intros e. apply describes_extends. by split.
Qed.

Lemma WriteTypeForTypeId_described t : schema_write_described (WriteTypeForTypeId t).
Proof.
  induction t as [| | |n sz|n sz ms IH] using CType_ind';
    intros r ts r' ts' Hwf Hdesc; rewrite WriteTypeForTypeId_eq;
    match goal with |- context [GetTypeId ?t r] =>
      destruct (GetTypeId_le t r) as [Hle1 Hid1];
      destruct (GetTypeId t r) as [i r1]; cbn [fst snd] in Hle1, Hid1 end.
  1-4: destruct (IsTypePreviouslyWritten i ts);
       [ intros [= <- <-]; by eapply described_registry
       | intros E;
         match type of Hid1 with tid _ ?t = _ =>
           apply (WriteTypeWithoutChecks_described t i r1 ts r' ts' Hwf);
             [by eapply described_registry|exact Hid1|constructor|exact E]
         end ].
  destruct (IsTypePreviouslyWritten i ts).
  { intros [= <- <-]. by eapply described_registry. }
  pose proof (construct_type_keeps (TStruct n sz ms) r1) as Hle2.
  rewrite (GetTypeId_assigned _ _ _ (Hle2 _ _ Hid1)). intros E.
  eapply (WriteTypeAndMembers__described WriteTypeForTypeId n sz ms i);
    [|exact Hwf| |by apply Hle2|exact E].
  - eapply Forall_impl; [exact IH|]. intros m Hm. split; [apply WriteTypeForTypeId_inv|done].
  - eapply described_registry; [|exact Hdesc]. intros x j Hj. by apply Hle2, Hle1.
Qed.

Lemma WriteTypeTo_described n sz ms :
  schema_write_described (WriteTypeTo (TStruct n sz ms)).
Proof.
  intros r ts r' ts' Hwf Hdesc. unfold WriteTypeTo. cbn [fst snd].
  destruct (GetTypeId_le (TStruct n sz ms) r) as [Hle1 Hid1].
  destruct (GetTypeId _ r) as [i r1]; cbn [fst snd] in Hle1, Hid1. intros E.
  eapply (WriteTypeAndMembers__described WriteTypeForTypeId n sz ms i);
    [|exact Hwf| |exact Hid1|exact E].
  - apply Forall_forall. intros m _.
    split; [apply WriteTypeForTypeId_inv|apply WriteTypeForTypeId_described].
  - by eapply described_registry.
Qed.

Lemma described_new r buffer_size tblock dblock :
  described r (TypeSection (FxSerializerIO_new buffer_size tblock dblock)).
Proof. exists []. split; [|constructor]. repeat split; cbn; try done; constructor. Qed.

Lemma for_each_serialize_described fields :
  Forall (fun v => serialize_described (FxSerializeValue v)) fields ->
  serialize_described (for_each FxSerializeValue fields).
Proof.
  induction 1 as [|v fields Hv _ IH]; intros st st' Hwf Hdesc; cbn [for_each].
  - by intros [= <-].
  - destruct (FxSerializeValue v st) as [st1|] eqn:E1; [|discriminate].
    cbn [mbind Res_bind]. intros E2.
    pose proof (FxSerializeValue_schema_kept v st st1 (described_inv _ _ Hwf Hdesc) E1)
      as ([Hwf1 _] & _).
    eapply IH; [exact Hwf1| |exact E2]. exact (Hv _ _ Hwf Hdesc E1).
Qed.

Lemma WriteTo_described_from name_hash n sz fields :
  Forall (fun v => serialize_described (FxSerializeValue v)) fields ->
  serialize_described (WriteTo name_hash n sz fields).
Proof.
  intros Hall st st' Hwf Hdesc E. unfold WriteTo, WriteTo_ in E.
  destruct (on_types _ st) as [st1|] eqn:E1; [|discriminate]. cbn [mbind Res_bind] in E.
  apply on_types_inv in E1 as [E1 _].
  pose proof (WriteTypeTo_inv _ _ _ _ _ _ _ (described_inv _ _ Hwf Hdesc) E1)
    as ([Hwf1 _] & _ & (i & Hi & _)).
  pose proof (WriteTypeTo_described _ _ _ _ _ _ _ Hwf Hdesc E1) as Hdesc1.
  rewrite (GetTypeId_assigned _ _ _ Hi) in E. unfold FxSerializeStruct_ in E.
  destruct (on_data _ _) as [st2|] eqn:E2; [|discriminate]. cbn [mbind Res_bind] in E.
  destruct (for_each FxSerializeValue fields st2) as [st3|] eqn:E3; [|discriminate].
  cbn [mbind Res_bind] in E.
  apply on_data_inv in E2 as (Hr2 & Ht2 & _).
  change (registry st2 = registry st1) in Hr2. change (types_of st2 = types_of st1) in Ht2.
  apply on_data_inv in E as (Hr4 & Ht4 & _).
  rewrite Hr4, Ht4.
  eapply (for_each_serialize_described fields Hall); [|  |exact E3]; by rewrite ?Hr2, Ht2.
Qed.

Lemma FxSerializeValue_described v : serialize_described (FxSerializeValue v).
Proof.
  induction v as [x|b|s|n sz|n sz fields IH] using Value_ind';
    intros st st' Hwf Hdesc E.
  - cbn in E. apply on_data_inv in E as (-> & -> & _). done.
  - cbn in E. destruct (float32_to_uint32 b); [|discriminate].
    apply on_data_inv in E as (-> & -> & _). done.
  - cbn in E. destruct (on_data _ st) as [st1|] eqn:E1; [|discriminate]. cbn in E.
    apply on_data_inv in E1 as (Hr1 & Ht1 & _). apply on_data_inv in E as (Hr & Ht & _).
    by rewrite Hr, Ht, Hr1, Ht1.
  - by injection E as <-.
  - rewrite FxSerializeValue_eq in E. by eapply (WriteTo_described_from 0 n sz fields IH).
Qed.

Lemma WriteTo_described name_hash n sz fields :
  serialize_described (WriteTo name_hash n sz fields).
Proof.
  apply WriteTo_described_from. apply Forall_forall. intros v _.
  apply FxSerializeValue_described.
Qed.

Lemma decode_type_mono es d : forall d' id tree,
  (d <= d')%nat -> decode_type es d id = Some tree -> decode_type es d' id = Some tree.
Proof.
  induction d as [|d IH]; intros d' id tree Hle; [discriminate|].
  destruct d' as [|d']; [lia|]. cbn [decode_type].
  destruct (lookup_entry 0 es id) as [[off e]|]; [|done].
  destruct (mapM _ (entry_members e)) as [trees|] eqn:Hm; [|discriminate].
  intros [= <-]. apply mapM_Some_1 in Hm.
  assert (mapM (fun m : Z * Z => decode_type es d' m.2) (entry_members e) = Some trees) as ->;
    [|done].
  apply mapM_Some_2. eapply Forall2_impl; [exact Hm|].
  intros m tree Hdec. apply IH; [lia|done].
Qed.

Lemma lookup_entry_found es : forall pos e,
  NoDup (map entry_id es) -> Forall (fun e => is_uint16 (entry_id e)) es -> e ∈ es ->
  exists off, lookup_entry pos es (entry_id e) = Some (off, e).
Proof.
  induction es as [|e0 es IH]; intros pos e Hnd Hrange Hin.
  - by apply elem_of_nil in Hin.
  - cbn [map] in Hnd. apply NoDup_cons in Hnd as [Hnew Hnd].
    pose proof (proj1 (Forall_forall _ _) Hrange e Hin) as Hre.
    apply Forall_cons in Hrange as [Hr0 Hrange].
    cbn [lookup_entry]. rewrite (uint16_id _ Hr0), (uint16_id _ Hre).
    apply elem_of_cons in Hin as [->|Hin].
    + destruct (decide _); [by eexists|done].
    + destruct (decide _) as [Heq|_].
      * exfalso. apply Hnew. rewrite Heq. apply list_elem_of_fmap. by exists e.
      * by apply IH.
Qed.

Lemma tree_of_members ids t :
  tree_of ids t
  = mkSerializedType (uint16 (ids t)) (uint16 (sizeof t)) (map (tree_of ids) (members t)).
Proof. by destruct t. Qed.

Lemma height_members t m : m ∈ members t -> (S (height m) <= height t)%nat.
Proof.
  destruct t as [| | |n sz|n sz ms]; cbn [members height]; try by intros ?%elem_of_nil.
  intros Hin. apply le_n_S.
  assert (Forall (fun k => (k <= list_max (map height ms))%nat) (map height ms)) as Hmax
    by (by apply list_max_le).
  apply (proj1 (Forall_forall _ _) Hmax). apply list_elem_of_fmap. by exists m.
Qed.

Lemma decode_described r ts es :
  holds_entries ts es -> Forall (describes r ts) es -> registry_injective r ->
  forall t, known r ts t ->
    decode_type es (S (height t)) (ids_of r t) = Some (tree_of (ids_of r) t).
Proof.
  intros (Hbytes & Hreg & Hnd & Hrange) Hall Hinj.
  assert (forall t, known r ts t ->
            Forall (fun m => known r ts m ->
                      decode_type es (S (height m)) (ids_of r m)
                      = Some (tree_of (ids_of r) m)) (members t) ->
            decode_type es (S (height t)) (ids_of r t) = Some (tree_of (ids_of r) t)) as Hstep.
  { intros t (i & Hi & Hw) IH.
    apply written_iff in Hw. rewrite Hreg, registered_at_ids in Hw.
    apply list_elem_of_fmap in Hw as (e & Hid & Hin).
    destruct (lookup_entry_found es 0 e Hnd Hrange Hin) as (off & Hl).
    pose proof (proj1 (Forall_forall _ _) Hall e Hin) as (t' & i' & Hi' & He & Hk).
    assert (t' = t) as ->.
    { eapply Hinj; [exact Hi'|exact Hi|]. rewrite He in Hid. cbn [entry_of entry_id] in Hid.
      by rewrite Hid. }
    assert (i' = i) as -> by congruence.
    unfold ids_of at 1. rewrite Hi. change (default 0 (Some i)) with i.
    cbn [decode_type]. rewrite <- lookup_entry_uint16, Hid, Hl.
    rewrite He at 1. cbn [entry_of entry_members].
    assert (mapM (fun m : Z * Z => decode_type es (height t) m.2)
              (map (fun arg => (sizeof arg, ids_of r arg)) (members t))
            = Some (map (tree_of (ids_of r)) (members t))) as ->.
    { apply mapM_Some_2. apply Forall2_fmap. apply Forall_Forall2_diag.
      apply Forall_forall. intros m Hm. cbn [snd].
      eapply decode_type_mono; [by apply height_members|].
      apply (proj1 (Forall_forall _ _) IH m Hm).
      apply (proj1 (Forall_forall _ _) Hk m Hm). }
    rewrite tree_of_members. unfold ids_of at 2. rewrite Hi.
    change (default 0 (Some i)) with i.
    rewrite He. cbn [entry_of entry_id entry_size]. by rewrite !uint16_idemp. }
  induction t as [| | |n sz|n sz ms IH] using CType_ind'; intros Hk;
    apply Hstep; try done; try constructor.
Qed.

Lemma written_schema_read_back name_hash n sz fields st st' :
  wf_section (Base (types_of st)) -> described (registry st) (types_of st) ->
  WriteTo name_hash n sz fields st = Ok st' ->
  registry_injective (registry st') ->
  (forall t i, tid (registry st') t = Some i -> (length (members t) < 256)%nat) ->
  exists index,
    FindIndexFromTypeId (ids_of (registry st') (TStruct n sz (map type_of fields)))
      (Base (types_of st'))
    = Ok (index, Base (types_of st'))
    /\ ReadType (S (height (TStruct n sz (map type_of fields)))) index (Base (types_of st'))
       = Ok (tree_of (ids_of (registry st')) (TStruct n sz (map type_of fields)),
             Base (types_of st')).
Proof.
  intros Hwf Hdesc E Hinj Hsmall.
  pose proof (WriteTo_schema_kept _ _ _ _ _ _ (described_inv _ _ Hwf Hdesc) E)
    as ([Hwf' _] & _ & Hk).
  apply Forall_cons in Hk as [Hk _].
  destruct (WriteTo_described _ _ _ _ _ _ Hwf Hdesc E) as (es & Hes & Hall).
  pose proof (decode_described _ _ _ Hes Hall Hinj _ Hk) as Hdec.
  eapply (ReadType_decodes es (drop (Z.to_nat (Index (Base (types_of st'))))
                                 (Data (Base (types_of st'))))); [|done| |exact Hdec].
  - eapply Forall_impl; [exact Hall|]. intros e (t & i & Hi & -> & _).
    unfold entry_of. cbn [entry_members]. rewrite length_map. by eapply Hsmall.
  - destruct Hes as (Hbytes & _).
    rewrite <- (take_drop (Z.to_nat (Index (Base (types_of st')))) (Data _)) at 1.
    fold (written (Base (types_of st'))). by rewrite Hbytes.
Qed.

(** X20.  The schema a program writes is the schema [ReadType] reads
    back.  After [WriteTo] has stored a record of a struct type, in an
    archive whose entries are those of types with ids (a new archive has
    none), and as long as no two types share an id and no struct has 256
    members or more: looking the struct's id up and reading the type at
    the offset found returns the id and [sizeof] of the struct and, member
    by member and to any depth, the ids and sizes of its member types. *)
Theorem written_schema_is_read_back
    (name_hash : Z) (n : string) (sz : Z) (fields : list Value) (st st' : State) :
  wf_section (Base (types_of st)) -> described (registry st) (types_of st) ->
  WriteTo name_hash n sz fields st = Ok st' ->
  registry_injective (registry st') ->
  (forall t i, tid (registry st') t = Some i -> (length (members t) < 256)%nat) ->
  exists index,
    FindIndexFromTypeId (ids_of (registry st') (TStruct n sz (map type_of fields)))
      (Base (types_of st'))
    = Ok (index, Base (types_of st'))
    /\ ReadType (S (height (TStruct n sz (map type_of fields)))) index (Base (types_of st'))
       = Ok (tree_of (ids_of (registry st')) (TStruct n sz (map type_of fields)),
             Base (types_of st')).
Proof. apply written_schema_read_back. Qed.

Lemma first_requests_assigned (o : list CType) r t i :
  first_requests o r -> tid r t = Some i -> t ∈ o.
Proof.
  intros (_ & _ & Hno & _) Hi. destruct (decide (t ∈ o)) as [|Hn]; [done|].
  rewrite (Hno _ Hn) in Hi. discriminate.
Qed.

(** The registry of the example: the two structs got their ids when the
    object was constructed, [int32] and [float32] when the schema was
    written. *)
Example example_written_registry :
  first_requests [TStruct "TestStructB" 12 [TInt32; TInt32];
                  TStruct "TestStructA" 28 TestStructA_types; TInt32; TFloat32]
    (registry example_written).
Proof.
  assert (registry example_written
          = (requests [TStruct "TestStructB" 12 [TInt32; TInt32];
                       TStruct "TestStructA" 28 TestStructA_types; TInt32; TFloat32]
               registry_init).2) as E by (vm_compute; reflexivity).
  pose proof (requests_rank [TStruct "TestStructB" 12 [TInt32; TInt32];
                             TStruct "TestStructA" 28 TestStructA_types; TInt32; TFloat32]
                [] registry_init first_requests_init) as [Hfr _].
  rewrite <- E in Hfr. exact Hfr.
Qed.

Lemma written_schema_is_read_back_witness :
  exists index,
    FindIndexFromTypeId
      (ids_of (registry example_written)
         (TStruct "TestStructA" 28 (map type_of (TestStructA_fields 30 15 float32_3 5 10))))
      (Base (types_of example_written))
    = Ok (index, Base (types_of example_written))
    /\ ReadType
         (S (height (TStruct "TestStructA" 28
                       (map type_of (TestStructA_fields 30 15 float32_3 5 10)))))
         index (Base (types_of example_written))
       = Ok (tree_of (ids_of (registry example_written))
               (TStruct "TestStructA" 28
                  (map type_of (TestStructA_fields 30 15 float32_3 5 10))),
             Base (types_of example_written)).
Proof.
  apply (written_schema_is_read_back hash_A "TestStructA" 28
           (TestStructA_fields 30 15 float32_3 5 10) example_start example_written).
  - solve_wf.
  - apply described_new.
  - vm_compute. reflexivity.
  - eapply first_requests_injective; [apply example_written_registry|].
    vm_compute. discriminate.
  - intros t i Hi. apply (first_requests_assigned _ _ _ _ example_written_registry) in Hi.
    repeat (apply elem_of_cons in Hi as [->|Hi]; [cbn; lia|]).
    by apply elem_of_nil in Hi.
Defined.

(** The tree of the example's [TestStructA]. *)
Example example_tree_of :
  tree_of (ids_of (registry example_written)) (TStruct "TestStructA" 28 TestStructA_types)
  = example_tree.
Proof. vm_compute. reflexivity. Qed.

Lemma bytes_after_entries s es bs :
  wf_section s -> Data s = encode_entries es ++ bs ->
  wf_section (set_Index (Z.of_nat (length (encode_entries es))) s)
  /\ bytes_at (set_Index (Z.of_nat (length (encode_entries es))) s) bs
  /\ is_uint32 (Z.of_nat (length (encode_entries es))).
Proof.
  intros Hwf HD. pose proof (bytes_at_rewind s) as Hb. rewrite HD in Hb.
  apply bytes_at_skip in Hb as [Hwf1 Hb1]; [|by apply wf_rewind].
  rewrite advance_rewind in *. split; [done|]. split; [done|].
  destruct Hwf1 as (_ & Hi & Hs). cbn in *. unfold is_uint32. lia.
Qed.

(** X21.  [ReadType] reports a wrong marker only by printing.  At an
    offset whose byte is not 0xEF it returns a type with id 0, size 0 and
    no members, as it would for an entry that says so.  At an entry whose
    end marker is wrong it returns the type as if the marker were right.
    In both cases the section is handed back unchanged and the caller gets
    no error. *)
Theorem ReadType_reports_markers_only_by_printing
    (fuel : nat) (s : FxSerializerBaseSection) :
  wf_section s ->
  (forall index b, 0 <= index < Size s -> Data s !! Z.to_nat index = Some b ->
     uint8 b ≠ TypeIdentHeader ->
     ReadType (S fuel) index s = Ok (mkSerializedType 0 0 [], s))
  /\ (forall es e b tl Members,
        Data s = encode_entries es ++ entry_body e ++ b :: tl ->
        Forall (fun e => (length (entry_members e) < 256)%nat) (e :: es) ->
        mapM (fun m : Z * Z => decode_type es fuel m.2) (entry_members e) = Some Members ->
        ReadType (S fuel) (Z.of_nat (length (encode_entries es))) s
        = Ok (mkSerializedType (uint16 (entry_id e)) (uint16 (entry_size e)) Members, s)).
Proof.
  intros Hwf. split.
  - intros index b Hidx Hlk Hne. pose proof Hwf as (Hl & Hi & Hs).
    cbn [ReadType]. rewrite (uint32_id index) by (unfold is_uint32; lia).
    unfold Read8, load. cbn [set_Index Index Data Size].
    rewrite (uint32_id (index + 1)) by (unfold is_uint32; lia).
    destruct (decide _); [|lia]. rewrite Hlk. cbn [mbind Res_bind].
    destruct (decide _) as [_|Hx]; [|by destruct Hx].
    do 2 f_equal. by destruct s.
  - intros es e b tl Members HD Hsmall Hm.
    apply Forall_cons in Hsmall as [Hse Hsmall]. apply mapM_Some_1 in Hm.
    destruct (bytes_after_entries _ _ _ Hwf HD) as (Hwf0 & Hb0 & Hoff).
    cbn [ReadType]. rewrite (uint32_id _ Hoff).
    unfold entry_body in Hb0. rewrite <- !app_assoc in Hb0. cbn [app] in Hb0.
    destruct (Read8_step _ _ _ Hwf0 Hb0) as (-> & Hwf1 & Hb1). cbn [mbind Res_bind].
    rewrite uint8_header. destruct (decide _) as [Hx|_]; [by destruct Hx|].
    destruct (Read16_step _ _ _ Hwf1 Hb1) as (-> & Hwf2 & Hb2). cbn [mbind Res_bind].
    destruct (Read16_step _ _ _ Hwf2 Hb2) as (-> & Hwf3 & Hb3). cbn [mbind Res_bind].
    destruct (Read8_step _ _ _ Hwf3 Hb3) as (-> & Hwf4 & Hb4). cbn [mbind Res_bind].
    rewrite uint8_idemp, (uint8_id (Z.of_nat _)) by (unfold is_uint8; lia).
    rewrite Nat2Z.id.
    destruct (read_members_decodes es (entry_body e ++ b :: tl) fuel
                (ReadType_decodes es _ Hsmall fuel) _ _ Hm [] _ _ Hwf4 HD Hb4)
      as (-> & Hwf5 & Hb5).
    cbn [mbind Res_bind app].
    destruct (Read8_step _ _ _ Hwf5 Hb5) as (-> & _). cbn [mbind Res_bind].
    do 2 f_equal. by apply set_Index_restore.
Qed.

Lemma ReadType_reports_markers_only_by_printing_witness :
  (forall index b, 0 <= index < Size unterminated_section ->
     Data unterminated_section !! Z.to_nat index = Some b ->
     uint8 b ≠ TypeIdentHeader ->
     ReadType (S 0) index unterminated_section
     = Ok (mkSerializedType 0 0 [], unterminated_section))
  /\ (forall es e b tl Members,
        Data unterminated_section = encode_entries es ++ entry_body e ++ b :: tl ->
        Forall (fun e => (length (entry_members e) < 256)%nat) (e :: es) ->
        mapM (fun m : Z * Z => decode_type es 0 m.2) (entry_members e) = Some Members ->
        ReadType (S 0) (Z.of_nat (length (encode_entries es))) unterminated_section
        = Ok (mkSerializedType (uint16 (entry_id e)) (uint16 (entry_size e)) Members,
              unterminated_section)).
Proof.
  apply (ReadType_reports_markers_only_by_printing 0 unterminated_section). solve_wf.
Defined.

(** The entry without its end marker reads as the type it describes; the
    byte after its start marker reads as the type 0 of size 0. *)
Example unterminated_reads :
  ReadType 1 0 unterminated_section = Ok (mkSerializedType 3 4 [], unterminated_section)
  /\ ReadType 1 1 unterminated_section = Ok (mkSerializedType 0 0 [], unterminated_section).
Proof. split; vm_compute; reflexivity. Qed.
